(** * Miku Chess: a shallow embedding of the rule engine

    The development follows the two Python modules of the backend:
    [game_logic.py] (piece types, per-piece move rules, check, checkmate and
    stalemate detection) and [game_state.py] (the per-game record, the initial
    layout and the operations of [GameManager]).

    Python integers are [Z]; a position is a pair [Z * Z] (row, column); the
    board is a list of rows, each a list of optional pieces.  Indexing follows
    Python: a negative index counts from the end, an index out of range raises
    [IndexError].  Exceptions are explicit in the result type [exc]. *)

From stdpp Require Import base numbers list gmap strings.

Open Scope Z_scope.

(** ** Exceptions *)

(** [IndexError] is Python's; [OutOfFuel] only marks a [while] loop of the
    model that was given too little fuel; with the fuel that the rules give it
    the loop never runs out (lemmas [ray_moves_fuel], [piece_moves_enough_fuel]). *)
Inductive error := IndexError | OutOfFuel.

Inductive exc (A : Type) :=
  | Ok (a : A)
  | Err (e : error).
Arguments Ok {A} a.
Arguments Err {A} e.

#[global] Instance exc_ret : MRet exc := λ A, Ok.
#[global] Instance exc_bind : MBind exc := λ A B f m,
  match m with
  | Ok a => f a
  | Err e => Err e
  end.

(** [for x in xs: acc.extend(body(x))] *)
Fixpoint for_extend {A B} (xs : list A) (body : A → exc (list B)) : exc (list B) :=
  match xs with
  | [] => Ok []
  | x :: xs' => l ← body x; r ← for_extend xs' body; Ok (l ++ r)
  end.

(** [for x in xs: body(x)], where the body either leaves the loop with a
    value ([Some r]: a [return r], or the [break] of a search that found [r])
    or goes on to the next element ([None]). *)
Fixpoint for_first {A R} (xs : list A) (body : A → exc (option R)) : exc (option R) :=
  match xs with
  | [] => Ok None
  | x :: xs' =>
      o ← body x;
      match o with
      | Some r => Ok (Some r)
      | None => for_first xs' body
      end
  end.

(** [range(n)] *)
Definition range (n : nat) : list Z := seqZ 0 (Z.of_nat n).

(** ** Python list indexing *)

Definition py_index (len : nat) (i : Z) : exc nat :=
  if bool_decide (0 ≤ i < Z.of_nat len) then Ok (Z.to_nat i)
  else if bool_decide (- Z.of_nat len ≤ i < 0) then Ok (Z.to_nat (Z.of_nat len + i))
  else Err IndexError.

Definition py_getitem {A} (l : list A) (i : Z) : exc A :=
  k ← py_index (length l) i;
  match l !! k with
  | Some x => Ok x
  | None => Err IndexError
  end.

Definition py_setitem {A} (l : list A) (i : Z) (x : A) : exc (list A) :=
  k ← py_index (length l) i;
  Ok (<[k := x]> l).

(** ** game_logic.py: data *)

Inductive PieceType := ATTACK | DEFENSE | SUPPORT | MAGIC | GENERAL.

Inductive Team := BLUE | RED.

Record Piece := mkPiece { piece_type : PieceType; team : Team }.

Record Move := mkMove { from_pos : Z * Z; to_pos : Z * Z }.

#[global] Instance PieceType_eq_dec : EqDecision PieceType.
Proof. solve_decision. Defined.
#[global] Instance Team_eq_dec : EqDecision Team.
Proof. solve_decision. Defined.
#[global] Instance Piece_eq_dec : EqDecision Piece.
Proof. solve_decision. Defined.
#[global] Instance Move_eq_dec : EqDecision Move.
Proof. solve_decision. Defined.

Abbreviation Pos := (Z * Z)%type.
Abbreviation Board := (list (list (option Piece))).

(** [board[row][col]] *)
Definition board_get (board : Board) (row col : Z) : exc (option Piece) :=
  r ← py_getitem board row; py_getitem r col.

(** [board[row][col] = x]; the rows of a board are distinct list objects
    ([create_initial_board] builds them one by one and [is_checkmate] copies
    each), so that the assignment changes this row only. *)
Definition board_set (board : Board) (row col : Z) (x : option Piece) : exc Board :=
  r ← py_getitem board row;
  r' ← py_setitem r col x;
  py_setitem board row r'.

(** ** game_logic.py: zones and directions *)

Definition is_in_blue_zone (row : Z) : bool := bool_decide (0 ≤ row ≤ 4).

Definition is_in_red_zone (row : Z) : bool := bool_decide (5 ≤ row ≤ 9).

(** [for row in range(r0, r1): for col in range(c0, c1): positions.append((row, col))] *)
Definition zone_positions (r0 r1 c0 c1 : Z) : list Pos :=
  row ← seqZ r0 (r1 - r0); col ← seqZ c0 (c1 - c0); [(row, col)].

Definition get_blue_palace : list Pos := zone_positions 0 3 3 6.
Definition get_red_palace : list Pos := zone_positions 7 10 3 6.
Definition get_blue_magic_zone : list Pos := zone_positions 2 5 3 6.
Definition get_red_magic_zone : list Pos := zone_positions 5 8 3 6.

Definition is_valid_position (row col : Z) : bool :=
  bool_decide (0 ≤ row ≤ 9) && bool_decide (0 ≤ col ≤ 8).

Definition is_diagonal (from_pos to_pos : Pos) : bool :=
  let '(from_row, from_col) := from_pos in
  let '(to_row, to_col) := to_pos in
  bool_decide (Z.abs (from_row - to_row) = Z.abs (from_col - to_col))
  && bool_decide (from_row ≠ to_row).

Definition is_moving_backward (from_pos to_pos : Pos) (team : Team) : bool :=
  let from_row := from_pos.1 in
  let to_row := to_pos.1 in
  match team with
  | BLUE => bool_decide (to_row < from_row)
  | RED => bool_decide (to_row > from_row)
  end.

Definition is_moving_diagonal_backward (from_pos to_pos : Pos) (team : Team) : bool :=
  if negb (is_diagonal from_pos to_pos) then false
  else is_moving_backward from_pos to_pos team.

(** The comprehension that drops the retreating moves, shared by
    [get_valid_moves] and [is_general_in_check]. *)
Definition no_retreat (pos : Pos) (team : Team) (moves : list Pos) : list Pos :=
  List.filter (λ m, negb (is_moving_backward pos m team)
                    && negb (is_moving_diagonal_backward pos m team)) moves.

Definition orthogonal_directions : list (Z * Z) := [(-1, 0); (1, 0); (0, -1); (0, 1)].
Definition diagonal_directions : list (Z * Z) := [(-1, -1); (-1, 1); (1, -1); (1, 1)].

(** ** game_logic.py: the per-piece rules *)

(** The [while is_valid_position(current_row, current_col)] loop of the three
    ray pieces.  [may_capture] says whether an enemy piece met on this ray is
    taken: [is_vertical_move] for Attack, [is_horizontal_move] for Defense,
    always for Support.  The loop leaves the board after at most ten steps;
    [ray_fuel] is one more. *)
Fixpoint ray_moves (fuel : nat) (board : Board) (piece : Piece) (may_capture : bool)
    (d_row d_col current_row current_col : Z) : exc (list Pos) :=
  match fuel with
  | O => Err OutOfFuel
  | S fuel' =>
      if is_valid_position current_row current_col then
        target ← board_get board current_row current_col;
        match target with
        | None =>
            rest ← ray_moves fuel' board piece may_capture d_row d_col
                     (current_row + d_row) (current_col + d_col);
            Ok ((current_row, current_col) :: rest)
        | Some t =>
            if may_capture && bool_decide (team t ≠ team piece)
            then Ok [(current_row, current_col)]
            else Ok []
        end
      else Ok []
  end.

Definition ray_fuel : nat := 11.

Definition _get_attack_moves (board : Board) (pos : Pos) (piece : Piece) : exc (list Pos) :=
  let '(row, col) := pos in
  for_extend orthogonal_directions (λ '(d_row, d_col),
    let is_vertical_move := bool_decide (d_col = 0) in
    ray_moves ray_fuel board piece is_vertical_move d_row d_col (row + d_row) (col + d_col)).

Definition _get_defense_moves (board : Board) (pos : Pos) (piece : Piece) : exc (list Pos) :=
  let '(row, col) := pos in
  for_extend orthogonal_directions (λ '(d_row, d_col),
    let is_horizontal_move := bool_decide (d_row = 0) in
    ray_moves ray_fuel board piece is_horizontal_move d_row d_col (row + d_row) (col + d_col)).

Definition _get_support_moves (board : Board) (pos : Pos) (piece : Piece) : exc (list Pos) :=
  let '(row, col) := pos in
  for_extend diagonal_directions (λ '(d_row, d_col),
    ray_moves ray_fuel board piece true d_row d_col (row + d_row) (col + d_col)).

(** The loop shared by the Magic and the General rule: one orthogonal step
    into an empty cell of the piece's zone. *)
Definition one_step_moves (board : Board) (pos : Pos) (zone : list Pos) : exc (list Pos) :=
  let '(row, col) := pos in
  for_extend orthogonal_directions (λ '(d_row, d_col),
    let new_row := row + d_row in
    let new_col := col + d_col in
    if bool_decide ((new_row, new_col) ∈ zone) then
      target ← board_get board new_row new_col;
      match target with
      | None => Ok [(new_row, new_col)]
      | Some _ => Ok []
      end
    else Ok []).

Definition _get_magic_moves (board : Board) (pos : Pos) (piece : Piece) : exc (list Pos) :=
  let magic_zone :=
    match team piece with
    | BLUE => get_blue_magic_zone
    | RED => get_red_magic_zone
    end in
  one_step_moves board pos magic_zone.

Definition _get_general_moves (board : Board) (pos : Pos) (piece : Piece) : exc (list Pos) :=
  let palace :=
    match team piece with
    | BLUE => get_blue_palace
    | RED => get_red_palace
    end in
  one_step_moves board pos palace.

(** The dispatch on the piece type at the head of [get_valid_moves]. *)
Definition piece_moves (board : Board) (pos : Pos) (piece : Piece) : exc (list Pos) :=
  match piece_type piece with
  | ATTACK => _get_attack_moves board pos piece
  | DEFENSE => _get_defense_moves board pos piece
  | SUPPORT => _get_support_moves board pos piece
  | MAGIC => _get_magic_moves board pos piece
  | GENERAL => _get_general_moves board pos piece
  end.

(** [can_retreat] of [get_valid_moves], [enemy_can_retreat] of
    [is_general_in_check]. *)
Definition can_retreat (t : Team) (blue_magic_alive red_magic_alive : bool) : bool :=
  match t with
  | BLUE => blue_magic_alive
  | RED => red_magic_alive
  end.

Definition get_valid_moves (board : Board) (pos : Pos) (current_team : Team)
    (blue_magic_alive red_magic_alive : bool) (turn_number : Z)
    (is_second_move : bool) (frozen_positions : list Pos) : exc (list Pos) :=
  let '(row, col) := pos in
  cell ← board_get board row col;
  match cell with
  | None => Ok []
  | Some piece =>
      if bool_decide (team piece ≠ current_team) then Ok []
      else if bool_decide (pos ∈ frozen_positions) then Ok []
      else
        valid_moves ← piece_moves board pos piece;
        let valid_moves :=
          if can_retreat (team piece) blue_magic_alive red_magic_alive
          then valid_moves
          else no_retreat pos (team piece) valid_moves in
        if bool_decide (turn_number = 11) && blue_magic_alive
           && bool_decide (current_team = RED) && is_in_blue_zone row
        then Ok []
        else if is_second_move && is_in_blue_zone row && blue_magic_alive
        then Ok []
        else Ok valid_moves
  end.

(** ** game_logic.py: check, checkmate, stalemate *)

(** The first loop of [is_general_in_check]: the first cell, in row-major
    order, that holds the General of [side]. *)
Definition find_general (board : Board) (side : Team) : exc (option Pos) :=
  for_first (range 10) (λ row,
    for_first (range 9) (λ col,
      piece ← board_get board row col;
      match piece with
      | Some p =>
          if bool_decide (team p = side) && bool_decide (piece_type p = GENERAL)
          then Ok (Some (row, col))
          else Ok None
      | None => Ok None
      end)).

Definition enemy_of (side : Team) : Team :=
  match side with
  | BLUE => RED
  | RED => BLUE
  end.

(** The body of the second loop of [is_general_in_check] for one enemy piece
    at [pos]: [Some true] is its [return True], [None] goes on. *)
Definition threatens (board : Board) (pos : Pos) (piece : Piece)
    (enemy_team : Team) (enemy_can_retreat : bool) (general_pos : Pos) : exc (option bool) :=
  let check (moves : list Pos) : exc (option bool) :=
    let moves := if enemy_can_retreat then moves else no_retreat pos enemy_team moves in
    if bool_decide (general_pos ∈ moves) then Ok (Some true) else Ok None in
  match piece_type piece with
  | ATTACK => moves ← _get_attack_moves board pos piece; check moves
  | DEFENSE => moves ← _get_defense_moves board pos piece; check moves
  | SUPPORT => moves ← _get_support_moves board pos piece; check moves
  | _ => Ok None
  end.

Definition is_general_in_check (board : Board) (side : Team)
    (blue_magic_alive red_magic_alive : bool) : exc bool :=
  general_pos ← find_general board side;
  match general_pos with
  | None => Ok true
  | Some general_pos =>
      let enemy_team := enemy_of side in
      let enemy_can_retreat := can_retreat enemy_team blue_magic_alive red_magic_alive in
      hit ← for_first (range 10) (λ row,
               for_first (range 9) (λ col,
                 piece ← board_get board row col;
                 match piece with
                 | Some p =>
                     if bool_decide (team p = enemy_team)
                     then threatens board (row, col) p enemy_team enemy_can_retreat general_pos
                     else Ok None
                 | None => Ok None
                 end));
      match hit with
      | Some b => Ok b
      | None => Ok false
      end
  end.

(** The board [test_board] that [is_checkmate] builds for one candidate move:
    a copy of the board, the destination overwritten with the piece of
    [(r, c)], then [(r, c)] emptied. *)
Definition simulate_move (board : Board) (r c : Z) (move_to : Pos) : exc Board :=
  let test_board := board in
  moved ← board_get test_board r c;
  test_board ← board_set test_board move_to.1 move_to.2 moved;
  board_set test_board r c None.

Definition is_checkmate (board : Board) (side : Team)
    (blue_magic_alive red_magic_alive : bool) (turn_number : Z)
    (frozen_positions : list Pos) : exc bool :=
  in_check ← is_general_in_check board side blue_magic_alive red_magic_alive;
  if negb in_check then Ok false
  else
    relief ← for_first (range 10) (λ r,
                for_first (range 9) (λ c,
                  piece ← board_get board r c;
                  match piece with
                  | Some p =>
                      if bool_decide (team p = side) then
                        moves ← get_valid_moves board (r, c) side
                                  blue_magic_alive red_magic_alive turn_number
                                  false frozen_positions;
                        for_first moves (λ move_to,
                          test_board ← simulate_move board r c move_to;
                          still ← is_general_in_check test_board side
                                    blue_magic_alive red_magic_alive;
                          if negb still then Ok (Some false) else Ok None)
                      else Ok None
                  | None => Ok None
                  end));
    match relief with
    | Some b => Ok b
    | None => Ok true
    end.

Definition is_stalemate (board : Board) (side : Team)
    (blue_magic_alive red_magic_alive : bool) (turn_number : Z)
    (frozen_positions : list Pos) : exc bool :=
  found ← for_first (range 10) (λ row,
             for_first (range 9) (λ col,
               piece ← board_get board row col;
               match piece with
               | Some p =>
                   if bool_decide (team p = side) then
                     moves ← get_valid_moves board (row, col) side
                               blue_magic_alive red_magic_alive turn_number
                               false frozen_positions;
                     match moves with
                     | [] => Ok None
                     | _ :: _ => Ok (Some false)
                     end
                   else Ok None
               | None => Ok None
               end));
  match found with
  | Some b => Ok b
  | None => Ok true
  end.

(** ** game_state.py: data *)

Inductive GameStatus := WAITING | PLAYING | BLUE_WIN | RED_WIN | DRAW.

Inductive GameMode := LOCAL | ONLINE | AI.

#[global] Instance GameStatus_eq_dec : EqDecision GameStatus.
Proof. solve_decision. Defined.
#[global] Instance GameMode_eq_dec : EqDecision GameMode.
Proof. solve_decision. Defined.

(** One entry of [move_history]: the keys "turn", "team", "move", "captured". *)
Record HistoryEntry := mkHistoryEntry {
  h_turn : Z;
  h_team : Team;
  h_move : Move;
  h_captured : option Piece
}.

Record GameState := mkGameState {
  game_id : string;
  mode : GameMode;
  status : GameStatus;
  board : Board;
  current_team : Team;
  turn_number : Z;
  blue_magic_alive : bool;
  red_magic_alive : bool;
  red_double_move_active : bool;
  red_first_move_done : bool;
  red_first_move_pos : option Pos;
  move_history : list HistoryEntry;
  blue_player_id : option string;
  red_player_id : option string
}.

(** Field assignments [game.f = v]. *)
Definition set_status (v : GameStatus) (g : GameState) : GameState :=
  mkGameState (game_id g) (mode g) v (board g) (current_team g) (turn_number g)
    (blue_magic_alive g) (red_magic_alive g) (red_double_move_active g)
    (red_first_move_done g) (red_first_move_pos g) (move_history g)
    (blue_player_id g) (red_player_id g).

Definition set_board (v : Board) (g : GameState) : GameState :=
  mkGameState (game_id g) (mode g) (status g) v (current_team g) (turn_number g)
    (blue_magic_alive g) (red_magic_alive g) (red_double_move_active g)
    (red_first_move_done g) (red_first_move_pos g) (move_history g)
    (blue_player_id g) (red_player_id g).

Definition set_current_team (v : Team) (g : GameState) : GameState :=
  mkGameState (game_id g) (mode g) (status g) (board g) v (turn_number g)
    (blue_magic_alive g) (red_magic_alive g) (red_double_move_active g)
    (red_first_move_done g) (red_first_move_pos g) (move_history g)
    (blue_player_id g) (red_player_id g).

Definition set_turn_number (v : Z) (g : GameState) : GameState :=
  mkGameState (game_id g) (mode g) (status g) (board g) (current_team g) v
    (blue_magic_alive g) (red_magic_alive g) (red_double_move_active g)
    (red_first_move_done g) (red_first_move_pos g) (move_history g)
    (blue_player_id g) (red_player_id g).

Definition set_blue_magic_alive (v : bool) (g : GameState) : GameState :=
  mkGameState (game_id g) (mode g) (status g) (board g) (current_team g) (turn_number g)
    v (red_magic_alive g) (red_double_move_active g)
    (red_first_move_done g) (red_first_move_pos g) (move_history g)
    (blue_player_id g) (red_player_id g).

Definition set_red_magic_alive (v : bool) (g : GameState) : GameState :=
  mkGameState (game_id g) (mode g) (status g) (board g) (current_team g) (turn_number g)
    (blue_magic_alive g) v (red_double_move_active g)
    (red_first_move_done g) (red_first_move_pos g) (move_history g)
    (blue_player_id g) (red_player_id g).

(** The three assignments to the double-move fields, which the source always
    makes together. *)
Definition set_double_move (active done : bool) (p : option Pos) (g : GameState) : GameState :=
  mkGameState (game_id g) (mode g) (status g) (board g) (current_team g) (turn_number g)
    (blue_magic_alive g) (red_magic_alive g) active done p (move_history g)
    (blue_player_id g) (red_player_id g).

Definition set_move_history (v : list HistoryEntry) (g : GameState) : GameState :=
  mkGameState (game_id g) (mode g) (status g) (board g) (current_team g) (turn_number g)
    (blue_magic_alive g) (red_magic_alive g) (red_double_move_active g)
    (red_first_move_done g) (red_first_move_pos g) v
    (blue_player_id g) (red_player_id g).

Definition set_blue_player_id (v : option string) (g : GameState) : GameState :=
  mkGameState (game_id g) (mode g) (status g) (board g) (current_team g) (turn_number g)
    (blue_magic_alive g) (red_magic_alive g) (red_double_move_active g)
    (red_first_move_done g) (red_first_move_pos g) (move_history g)
    v (red_player_id g).

Definition set_red_player_id (v : option string) (g : GameState) : GameState :=
  mkGameState (game_id g) (mode g) (status g) (board g) (current_team g) (turn_number g)
    (blue_magic_alive g) (red_magic_alive g) (red_double_move_active g)
    (red_first_move_done g) (red_first_move_pos g) (move_history g)
    (blue_player_id g) v.

(** ** game_state.py: the initial layout *)

(** [board[row][col] = Piece(...)] at literal indices of the 10 x 9 board. *)
Definition place (row col : nat) (p : Piece) (board : Board) : Board :=
  alter (λ r, <[col := Some p]> r) row board.

(** [for col in cols: board[row][col] = Piece(piece_type, team)] *)
Definition place_all (row : nat) (cols : list nat) (p : Piece) (board : Board) : Board :=
  foldl (λ b col, place row col p b) board cols.

Definition create_initial_board : Board :=
  let board := replicate 10 (replicate 9 None) in
  (* Blue, rows 0-4 *)
  let board := place_all 0 [0; 1; 2; 6; 7; 8]%nat (mkPiece ATTACK BLUE) board in
  let board := place 0 4 (mkPiece GENERAL BLUE) board in
  let board := place 0 3 (mkPiece SUPPORT BLUE) board in
  let board := place 0 5 (mkPiece SUPPORT BLUE) board in
  let board := place_all 2 [0; 1; 2; 3; 5; 6; 7; 8]%nat (mkPiece DEFENSE BLUE) board in
  let board := place 2 4 (mkPiece MAGIC BLUE) board in
  (* Red, rows 5-9 *)
  let board := place_all 9 [0; 1; 2; 6; 7; 8]%nat (mkPiece ATTACK RED) board in
  let board := place 9 4 (mkPiece GENERAL RED) board in
  let board := place 9 3 (mkPiece SUPPORT RED) board in
  let board := place 9 5 (mkPiece SUPPORT RED) board in
  let board := place_all 7 [0; 1; 2; 3; 5; 6; 7; 8]%nat (mkPiece DEFENSE RED) board in
  let board := place 7 4 (mkPiece MAGIC RED) board in
  board.

(** Python's truth value of an [Optional[str]]: [None] and the empty string
    are false. *)
Definition truthy (player_id : option string) : bool :=
  match player_id with
  | Some s => bool_decide (s ≠ "")
  | None => false
  end.

(** [create_game]; [fresh_id] stands for [str(uuid.uuid4())[:8]]. *)
Definition create_game (fresh_id : string) (mode : GameMode) (player_id : option string)
    : GameState :=
  let game :=
    mkGameState fresh_id mode
      (if bool_decide (mode = ONLINE) then WAITING else PLAYING)
      create_initial_board
      RED 1 true true
      false false None [] None None in
  if bool_decide (mode = ONLINE) && truthy player_id
  then set_red_player_id player_id game
  else game.

(** ** game_state.py: results of the operations *)

(** The "error" strings of the failure dictionaries. *)
Inductive MoveError :=
  | GameNotFound          (* "游戏不存在" *)
  | GameNotPlaying        (* "游戏未在进行中" *)
  | NotYourTurn           (* "不是你的回合" *)
  | NoPieceSelected       (* "没有选中棋子" *)
  | NotYourPiece          (* "不是你的棋子" *)
  | SecondMoveSamePiece   (* "第二次移动只能移动同一个棋子" *)
  | IllegalMove           (* "非法移动" *)
  | CannotSkip.           (* "当前不能跳过" *)

Definition error_message (e : MoveError) : string :=
  match e with
  | GameNotFound => "游戏不存在"
  | GameNotPlaying => "游戏未在进行中"
  | NotYourTurn => "不是你的回合"
  | NoPieceSelected => "没有选中棋子"
  | NotYourPiece => "不是你的棋子"
  | SecondMoveSamePiece => "第二次移动只能移动同一个棋子"
  | IllegalMove => "非法移动"
  | CannotSkip => "当前不能跳过"
  end.

(** The dictionary of an accepted move: "captured", "game_status", and the
    keys "double_move" and "waiting_second_move", which are present (and
    [True]) only when a second move is pending. *)
Record MoveResult := mkMoveResult {
  captured : option Piece;
  game_status : GameStatus;
  double_move : bool;
  waiting_second_move : bool
}.

(** [{"success": True, ...}] or [{"success": False, "error": ...}] *)
Inductive Reply (A : Type) :=
  | Success (a : A)
  | Failure (e : MoveError).
Arguments Success {A} a.
Arguments Failure {A} e.

(** What a call leaves behind: the dictionary it returned, or the exception
    it raised, and the game record as it is then. *)
Abbreviation Outcome A := (exc (Reply A) * GameState)%type.

(** ** game_state.py: the operations of GameManager on one game *)

(** [GameManager.get_frozen_positions] *)
Definition get_frozen_positions (game : GameState) : exc (list Pos) :=
  if bool_decide (turn_number game = 11) && blue_magic_alive game
     && bool_decide (current_team game = RED)
  then
    for_extend (range 5) (λ row,
      for_extend (range 9) (λ col,
        piece ← board_get (board game) row col;
        match piece with
        | Some p => if bool_decide (team p = RED) then Ok [(row, col)] else Ok []
        | None => Ok []
        end))
  else Ok [].

(** The online-mode identity check of [make_move]. *)
Definition not_your_turn (game : GameState) (player_id : option string) : bool :=
  bool_decide (mode game = ONLINE) && truthy player_id
  && (bool_decide (current_team game = RED) && bool_decide (player_id ≠ red_player_id game)
      || bool_decide (current_team game = BLUE) && bool_decide (player_id ≠ blue_player_id game)).

(** [make_move], last part (the turn switch, the reset of the double-move
    fields, and the checkmate and stalemate tests for the side to move
    next). *)
Definition switch_turn (game : GameState) (result : MoveResult) : Outcome MoveResult :=
  let game :=
    if bool_decide (current_team game = RED)
    then set_current_team BLUE game
    else set_turn_number (turn_number game + 1) (set_current_team RED game) in
  let game := set_double_move false false None game in
  if bool_decide (status game = PLAYING) then
    match get_frozen_positions game with
    | Err e => (Err e, game)
    | Ok next_frozen_positions =>
        match is_checkmate (board game) (current_team game)
                (blue_magic_alive game) (red_magic_alive game)
                (turn_number game) next_frozen_positions with
        | Err e => (Err e, game)
        | Ok true =>
            let game :=
              if bool_decide (current_team game = BLUE)
              then set_status RED_WIN game
              else set_status BLUE_WIN game in
            (Ok (Success (mkMoveResult (captured result) (status game)
                            (double_move result) (waiting_second_move result))), game)
        | Ok false =>
            match is_stalemate (board game) (current_team game)
                    (blue_magic_alive game) (red_magic_alive game)
                    (turn_number game) next_frozen_positions with
            | Err e => (Err e, game)
            | Ok true =>
                let game := set_status DRAW game in
                (Ok (Success (mkMoveResult (captured result) (status game)
                                (double_move result) (waiting_second_move result))), game)
            | Ok false => (Ok (Success result), game)
            end
        end
    end
  else (Ok (Success result), game).

(** [make_move], middle part: the turn-11 double move of Red. *)
Definition double_move_logic (game : GameState) (move : Move) (result : MoveResult)
    : Outcome MoveResult :=
  let from_row := (from_pos move).1 in
  let to_row := (to_pos move).1 in
  if bool_decide (turn_number game = 11) && bool_decide (current_team game = RED)
     && red_magic_alive game && bool_decide (status game = PLAYING)
  then
    if negb (red_first_move_done game) then
      if is_in_red_zone from_row && is_in_red_zone to_row then
        let game := set_double_move true true (Some (to_pos move)) game in
        (Ok (Success (mkMoveResult (captured result) (game_status result) true true)), game)
      else switch_turn game result
    else
      let game := set_double_move false false None game in
      switch_turn game result
  else switch_turn game result.

(** The side effects of a capture on the flags and on the status. *)
Definition capture_effects (captured_piece : option Piece) (game : GameState) : GameState :=
  match captured_piece with
  | Some cp =>
      let game :=
        if bool_decide (piece_type cp = MAGIC) then
          if bool_decide (team cp = BLUE)
          then set_blue_magic_alive false game
          else set_red_magic_alive false game
        else game in
      if bool_decide (piece_type cp = GENERAL) then
        if bool_decide (team cp = BLUE)
        then set_status RED_WIN game
        else set_status BLUE_WIN game
      else game
  | None => game
  end.

(** [make_move] from "执行移动" on: the board is changed, the capture takes
    effect, the move is logged, and the turn goes on. *)
Definition execute_move (game : GameState) (move : Move) (piece : Piece)
    : Outcome MoveResult :=
  let '(from_row, from_col) := from_pos move in
  let '(to_row, to_col) := to_pos move in
  match board_get (board game) to_row to_col with
  | Err e => (Err e, game)
  | Ok captured_piece =>
      match board_set (board game) to_row to_col (Some piece) with
      | Err e => (Err e, game)
      | Ok b =>
          let game := set_board b game in
          match board_set (board game) from_row from_col None with
          | Err e => (Err e, game)
          | Ok b =>
              let game := set_board b game in
              let game := capture_effects captured_piece game in
              let game :=
                set_move_history
                  (move_history game ++
                   [mkHistoryEntry (turn_number game) (current_team game) move captured_piece])
                  game in
              let result := mkMoveResult captured_piece (status game) false false in
              double_move_logic game move result
          end
      end
  end.

(** [GameManager.make_move] on the game that [self.games.get(game_id)] found. *)
Definition make_move_game (game : GameState) (move : Move) (player_id : option string)
    : Outcome MoveResult :=
  if bool_decide (status game ≠ PLAYING) then (Ok (Failure GameNotPlaying), game)
  else if not_your_turn game player_id then (Ok (Failure NotYourTurn), game)
  else
    let '(from_row, from_col) := from_pos move in
    match board_get (board game) from_row from_col with
    | Err e => (Err e, game)
    | Ok None => (Ok (Failure NoPieceSelected), game)
    | Ok (Some piece) =>
        if bool_decide (team piece ≠ current_team game)
        then (Ok (Failure NotYourPiece), game)
        else
          match get_frozen_positions game with
          | Err e => (Err e, game)
          | Ok frozen_positions =>
              let is_second_move :=
                red_first_move_done game && red_double_move_active game in
              if is_second_move
                 && bool_decide (red_first_move_pos game ≠ Some (from_pos move))
              then (Ok (Failure SecondMoveSamePiece), game)
              else
                match get_valid_moves (board game) (from_pos move) (current_team game)
                        (blue_magic_alive game) (red_magic_alive game)
                        (turn_number game) is_second_move frozen_positions with
                | Err e => (Err e, game)
                | Ok valid_moves =>
                    if bool_decide (to_pos move ∉ valid_moves)
                    then (Ok (Failure IllegalMove), game)
                    else execute_move game move piece
                end
          end
    end.

(** [GameManager.skip_second_move] on the game found; [player_id] is not
    looked at. *)
Definition skip_second_move_game (game : GameState) (player_id : option string)
    : Outcome unit :=
  if negb (red_double_move_active game) || negb (red_first_move_done game)
  then (Ok (Failure CannotSkip), game)
  else
    let game := set_current_team BLUE game in
    let game := set_double_move false false None game in
    (Ok (Success ()), game).

(** [GameManager.join_game] on the game found: the new record, or [None]. *)
Definition join_game_game (game : GameState) (player_id : string) : option GameState :=
  if bool_decide (mode game ≠ ONLINE) then None
  else if bool_decide (status game ≠ WAITING) then None
  else
    match blue_player_id game with
    | None => Some (set_status PLAYING (set_blue_player_id (Some player_id) game))
    | Some _ => None
    end.

(** [GameManager.get_valid_moves_for_piece] on the game found. *)
Definition get_valid_moves_for_piece_game (game : GameState) (pos : Pos) : exc (list Pos) :=
  if bool_decide (status game ≠ PLAYING) then Ok []
  else
    frozen_positions ← get_frozen_positions game;
    let is_second_move := red_first_move_done game && red_double_move_active game in
    if is_second_move && bool_decide (red_first_move_pos game ≠ Some pos) then Ok []
    else
      get_valid_moves (board game) pos (current_team game)
        (blue_magic_alive game) (red_magic_alive game) (turn_number game)
        is_second_move frozen_positions.

(** ** game_state.py: GameManager, the registry of games *)

Module GameManager.

(** [self.games]: the games by id.  A game is one shared object in the
    source, changed in place; here the changed record is stored back. *)
Record t := mk { games : gmap string GameState }.

Definition init : t := mk ∅.

Definition create_game (self : t) (fresh_id : string) (mode : GameMode)
    (player_id : option string) : GameState * t :=
  let game := create_game fresh_id mode player_id in
  (game, mk (<[game_id game := game]> (games self))).

Definition get_game (self : t) (game_id : string) : option GameState :=
  games self !! game_id.

Definition join_game (self : t) (game_id : string) (player_id : string)
    : option GameState * t :=
  match games self !! game_id with
  | None => (None, self)
  | Some game =>
      match join_game_game game player_id with
      | Some game' => (Some game', mk (<[game_id := game']> (games self)))
      | None => (None, self)
      end
  end.

Definition make_move (self : t) (game_id : string) (move : Move)
    (player_id : option string) : exc (Reply MoveResult) * t :=
  match games self !! game_id with
  | None => (Ok (Failure GameNotFound), self)
  | Some game =>
      let '(r, game') := make_move_game game move player_id in
      (r, mk (<[game_id := game']> (games self)))
  end.

Definition skip_second_move (self : t) (game_id : string)
    (player_id : option string) : exc (Reply unit) * t :=
  match games self !! game_id with
  | None => (Ok (Failure GameNotFound), self)
  | Some game =>
      let '(r, game') := skip_second_move_game game player_id in
      (r, mk (<[game_id := game']> (games self)))
  end.

Definition delete_game (self : t) (game_id : string) : t :=
  mk (delete game_id (games self)).

End GameManager.

(** ** game_logic.py: geometry of a move *)

(** [0 if diff == 0 else (1 if diff > 0 else -1)] *)
Definition step_of (diff : Z) : Z :=
  if bool_decide (diff = 0) then 0
  else if bool_decide (diff > 0) then 1 else -1.

(** The loop of [get_path_positions]: [steps] times, advance the current
    cell by the step and append it. *)
Fixpoint path_loop (steps : nat) (row_step col_step current_row current_col : Z)
    : list Pos :=
  match steps with
  | O => []
  | S steps' =>
      let current_row := current_row + row_step in
      let current_col := current_col + col_step in
      (current_row, current_col)
        :: path_loop steps' row_step col_step current_row current_col
  end.

Definition get_path_positions (from_pos to_pos : Pos) : list Pos :=
  let '(from_row, from_col) := from_pos in
  let '(to_row, to_col) := to_pos in
  let row_diff := to_row - from_row in
  let col_diff := to_col - from_col in
  let row_step := step_of row_diff in
  let col_step := step_of col_diff in
  let steps := Z.max (Z.abs row_diff) (Z.abs col_diff) in
  path_loop (Z.to_nat steps) row_step col_step from_row from_col.

Definition is_straight_line (from_pos to_pos : Pos) : bool :=
  let '(from_row, from_col) := from_pos in
  let '(to_row, to_col) := to_pos in
  bool_decide (from_row = to_row) || bool_decide (from_col = to_col).

Definition is_horizontal (from_pos to_pos : Pos) : bool :=
  bool_decide (from_pos.1 = to_pos.1) && bool_decide (from_pos.2 ≠ to_pos.2).

Definition is_vertical (from_pos to_pos : Pos) : bool :=
  bool_decide (from_pos.2 = to_pos.2) && bool_decide (from_pos.1 ≠ to_pos.1).

(** ** game_logic.py: Piece.to_dict and Piece.from_dict *)

(** The values of the two enumerations. *)
Definition PieceType_value (t : PieceType) : string :=
  match t with
  | ATTACK => "attack"
  | DEFENSE => "defense"
  | SUPPORT => "support"
  | MAGIC => "magic"
  | GENERAL => "general"
  end.

Definition Team_value (t : Team) : string :=
  match t with
  | BLUE => "blue"
  | RED => "red"
  end.

(** The values that a dictionary read from JSON holds; the lists and the
    dictionaries among them are not told apart, as the functions below only
    look for strings. *)
Inductive json :=
  | JNull
  | JBool (b : bool)
  | JInt (n : Z)
  | JStr (s : string)
  | JCompound.

(** The exceptions of [from_dict]: [data[key]] on a missing key, and the
    call of an enumeration on what is not one of its values. *)
Inductive dict_error :=
  | KeyError (key : string)
  | ValueError (v : json).

(** [PieceType(v)] and [Team(v)]: the member whose value is [v]. *)
Definition PieceType_of_value (v : json) : dict_error + PieceType :=
  match v with
  | JStr s =>
      if bool_decide (s = "attack") then inr ATTACK
      else if bool_decide (s = "defense") then inr DEFENSE
      else if bool_decide (s = "support") then inr SUPPORT
      else if bool_decide (s = "magic") then inr MAGIC
      else if bool_decide (s = "general") then inr GENERAL
      else inl (ValueError v)
  | _ => inl (ValueError v)
  end.

Definition Team_of_value (v : json) : dict_error + Team :=
  match v with
  | JStr s =>
      if bool_decide (s = "blue") then inr BLUE
      else if bool_decide (s = "red") then inr RED
      else inl (ValueError v)
  | _ => inl (ValueError v)
  end.

(** [data[key]] *)
Definition dict_getitem (data : gmap string json) (key : string) : dict_error + json :=
  match data !! key with
  | Some v => inr v
  | None => inl (KeyError key)
  end.

Definition Piece_to_dict (self : Piece) : gmap string json :=
  <["team" := JStr (Team_value (team self))]>
    (<["type" := JStr (PieceType_value (piece_type self))]> ∅).

(** The keyword arguments are evaluated in the order written: the type
    first. *)
Definition Piece_from_dict (data : gmap string json) : dict_error + Piece :=
  match dict_getitem data "type" with
  | inl e => inl e
  | inr v =>
      match PieceType_of_value v with
      | inl e => inl e
      | inr piece_type =>
          match dict_getitem data "team" with
          | inl e => inl e
          | inr v =>
              match Team_of_value v with
              | inl e => inl e
              | inr team => inr (mkPiece piece_type team)
              end
          end
      end
  end.

(** ** ai_interface.py: RandomAI *)

(** [for x in xs: state = body(x, state)] *)
Fixpoint for_fold {A S} (xs : list A) (body : A → S → exc S) (state : S) : exc S :=
  match xs with
  | [] => Ok state
  | x :: xs' => state' ← body x state; for_fold xs' body state'
  end.

(** The first part of [RandomAI.get_move]: the list [all_moves] of the moves
    of the side to move, collected cell by cell with [get_valid_moves] called
    with its default [is_second_move=False] and [frozen_positions=None]. *)
Definition all_moves (game_state : GameState) : exc (list Move) :=
  let current_team := current_team game_state in
  for_extend (range 10) (λ row,
    for_extend (range 9) (λ col,
      piece ← board_get (board game_state) row col;
      match piece with
      | Some p =>
          if bool_decide (team p = current_team) then
            valid_moves ← get_valid_moves (board game_state) (row, col) current_team
                            (blue_magic_alive game_state) (red_magic_alive game_state)
                            (turn_number game_state) false [];
            for_extend valid_moves (λ to_pos, Ok [mkMove (row, col) to_pos])
          else Ok []
      | None => Ok []
      end)).

(** The move of [RandomAI.get_move]: [None] without a candidate, otherwise
    [random.choice(all_moves)], the candidate at the index [pick] that the
    random generator draws below the number of candidates. *)
Definition get_move (game_state : GameState) (pick : nat) : exc (option Move) :=
  all_moves ← all_moves game_state;
  match all_moves with
  | [] => Ok None
  | _ :: _ => Ok (all_moves !! (pick mod length all_moves)%nat)
  end.

(** [piece_values], a dictionary with an entry for each piece type. *)
Definition piece_values (t : PieceType) : Z :=
  match t with
  | ATTACK => 5
  | DEFENSE => 5
  | SUPPORT => 4
  | MAGIC => 3
  | GENERAL => 100
  end.

(** [RandomAI.evaluate_position]: the material of Red minus that of Blue. *)
Definition evaluate_position (game_state : GameState) : exc Z :=
  for_fold (range 10) (λ row score,
    for_fold (range 9) (λ col score,
      piece ← board_get (board game_state) row col;
      match piece with
      | Some p =>
          let value := piece_values (piece_type p) in
          if bool_decide (team p = RED) then Ok (score + value)
          else Ok (score - value)
      | None => Ok score
      end) score) 0.

(** ** main.py: ConnectionManager, the WebSocket connections by game *)

Module ConnectionManager.
Section connections.
Context {WebSocket : Type}.

(** [self.active_connections]: for each game id, the socket of each player.
    The sockets are opaque; the order in which a dictionary hands out its
    items is not kept. *)
Record t := mk { active_connections : gmap string (gmap string WebSocket) }.

Definition init : t := mk ∅.

(** [connect], once [websocket.accept()] has returned. *)
Definition connect (self : t) (websocket : WebSocket) (game_id player_id : string) : t :=
  let connections :=
    match active_connections self !! game_id with
    | None => <[game_id := ∅]> (active_connections self)
    | Some _ => active_connections self
    end in
  mk (alter (λ players, <[player_id := websocket]> players) game_id connections).

Definition disconnect (self : t) (game_id player_id : string) : t :=
  match active_connections self !! game_id with
  | None => self
  | Some players =>
      let players :=
        match players !! player_id with
        | Some _ => delete player_id players
        | None => players
        end in
      let connections := <[game_id := players]> (active_connections self) in
      if bool_decide (players = ∅) then mk (delete game_id connections)
      else mk connections
  end.

(** The socket on which [send_to_player] sends the message, if there is
    one. *)
Definition send_to_player (self : t) (game_id player_id : string) : option WebSocket :=
  match active_connections self !! game_id with
  | Some players => players !! player_id
  | None => None
  end.

(** The sockets on which [broadcast_to_game] sends the message, by player. *)
Definition broadcast_to_game (self : t) (game_id : string) : gmap string WebSocket :=
  match active_connections self !! game_id with
  | Some players => players
  | None => ∅
  end.

End connections.
Arguments t : clear implicits.
End ConnectionManager.

(** ** Vocabulary of the statements *)

(** A board as [create_initial_board] builds it: ten rows of nine cells. *)
Definition wf_board (b : Board) : Prop :=
  length b = 10%nat ∧ Forall (λ r : list (option Piece), length r = 9%nat) b.

(** The positions [is_valid_position] accepts. *)
Definition on_board (p : Pos) : Prop := 0 ≤ p.1 ≤ 9 ∧ 0 ≤ p.2 ≤ 8.

(** The cell [k] steps from [p] in direction [d]. *)
Definition ray_cell (p d : Pos) (k : Z) : Pos := (p.1 + k * d.1, p.2 + k * d.2).

(** The requests a host can make on one game, and the states a game can be
    in: those that the operations produce from a newly created game. *)
Inductive Op :=
  | OpMove (move : Move) (player_id : option string)
  | OpSkip (player_id : option string)
  | OpJoin (player_id : string).

Definition run_op (g : GameState) (op : Op) : GameState :=
  match op with
  | OpMove move player_id => (make_move_game g move player_id).2
  | OpSkip player_id => (skip_second_move_game g player_id).2
  | OpJoin player_id => default g (join_game_game g player_id)
  end.

Inductive reachable : GameState → Prop :=
  | reachable_new fresh_id mode player_id :
      reachable (create_game fresh_id mode player_id)
  | reachable_op g op :
      reachable g → reachable (run_op g op).

(** [op] is a move that the game accepted, taking [cp]. *)
Definition captures (g : GameState) (op : Op) (cp : Piece) : Prop :=
  match op with
  | OpMove move player_id =>
      ∃ r, (make_move_game g move player_id).1 = Ok (Success r) ∧ captured r = Some cp
  | _ => False
  end.

(** The layout in the words of the specification: for each team six Attack
    pieces on the outer columns of the back rank, two Support pieces on each
    side of the General on its three centre columns, eight Defense pieces on
    the rank two rows inward and the Magic piece at the centre of that rank. *)
Definition layout_cell (row col : Z) : option Piece :=
  let back_rank :=
    if bool_decide (col = 4) then GENERAL
    else if bool_decide (col = 3 ∨ col = 5) then SUPPORT
    else ATTACK in
  let inward_rank := if bool_decide (col = 4) then MAGIC else DEFENSE in
  if bool_decide (row = 0) then Some (mkPiece back_rank BLUE)
  else if bool_decide (row = 2) then Some (mkPiece inward_rank BLUE)
  else if bool_decide (row = 9) then Some (mkPiece back_rank RED)
  else if bool_decide (row = 7) then Some (mkPiece inward_rank RED)
  else None.

Definition layout : Board :=
  (λ row, (λ col, layout_cell row col) <$> range 9) <$> range 10.

(** The number of pieces of one kind on a board. *)
Definition count_pieces (p : Piece) (b : Board) : nat :=
  length (List.filter (λ c : option Piece, bool_decide (c = Some p)) (concat b)).

(** A step of a ray: one of the eight directions. *)
Definition is_direction (d : Pos) : Prop :=
  -1 ≤ d.1 ≤ 1 ∧ -1 ≤ d.2 ≤ 1 ∧ (d.1 ≠ 0 ∨ d.2 ≠ 0).

(** The number of cells from [(r, c)] to the edge of the board along
    [(d_row, d_col)], the cell itself included: what the ray loop can still
    visit. *)
Definition ray_measure (d_row d_col r c : Z) : Z :=
  if bool_decide (d_row = 1) then 10 - r
  else if bool_decide (d_row = -1) then r + 1
  else if bool_decide (d_col = 1) then 9 - c
  else c + 1.

(** The cell that an index pair of Python denotes on a 10 x 9 board. *)
Definition norm_pos (p : Pos) : Pos :=
  (if bool_decide (p.1 < 0) then 10 + p.1 else p.1,
   if bool_decide (p.2 < 0) then 9 + p.2 else p.2).

(** The turn-11 zone freeze and the second-move restriction, which empty the
    answer for a piece standing in Blue's half. *)
Definition frozen_out (pos : Pos) (current_team : Team) (blue_magic_alive : bool)
    (turn_number : Z) (is_second_move : bool) : bool :=
  bool_decide (turn_number = 11) && blue_magic_alive
  && bool_decide (current_team = RED) && is_in_blue_zone pos.1
  || is_second_move && is_in_blue_zone pos.1 && blue_magic_alive.

(** The pieces that can take: Attack, Defense and Support. *)
Definition can_capture (t : PieceType) : bool :=
  match t with
  | ATTACK | DEFENSE | SUPPORT => true
  | MAGIC | GENERAL => false
  end.

(** The piece [p] standing at [pos] threatens the cell [target]: [p] can
    take, and [target] is a destination of its rule that is left once the
    retreat restriction of its own team is applied. *)
Definition threat (b : Board) (blue_magic_alive red_magic_alive : bool)
    (pos : Pos) (p : Piece) (target : Pos) : Prop :=
  can_capture (piece_type p) = true
  ∧ ∃ raw, piece_moves b pos p = Ok raw
      ∧ target ∈ (if can_retreat (team p) blue_magic_alive red_magic_alive
                  then raw else no_retreat pos (team p) raw).

(** [q] comes before [p] in the order of the scans, row by row. *)
Definition row_major_lt (q p : Pos) : Prop := q.1 < p.1 ∨ q.1 = p.1 ∧ q.2 < p.2.

(** A board with the given pieces and nothing else. *)
Definition board_of (pieces : list (Pos * Piece)) : Board :=
  foldl (λ b '((row, col), p), place (Z.to_nat row) (Z.to_nat col) p b)
    (replicate 10 (replicate 9 None)) pieces.

(** [tb] is the board [b] with the source cell [pos] emptied and the
    destination cell [m] overwritten with what stood at [pos]. *)
Definition relocated (b : Board) (pos m : Pos) (tb : Board) : Prop :=
  wf_board tb
  ∧ ∀ q, on_board q →
      board_get tb q.1 q.2 =
        if bool_decide (q = pos) then Ok None
        else if bool_decide (q = m) then board_get b pos.1 pos.2
        else board_get b q.1 q.2.

(** The game after the board change of an accepted move that took
    [captured_piece] and left the board [b]: the capture has had its effects
    and the move is logged; the turn has not moved yet. *)
Definition moved (g : GameState) (move : Move) (captured_piece : option Piece)
    (b : Board) : GameState :=
  let g1 := capture_effects captured_piece (set_board b g) in
  set_move_history
    (move_history g1 ++
     [mkHistoryEntry (turn_number g1) (current_team g1) move captured_piece]) g1.

(** The turn switch of [make_move]: Red hands over to Blue, Blue hands over
    to Red and the turn number goes up; the double-move fields are reset. *)
Definition next_turn (g : GameState) : GameState :=
  set_double_move false false None
    (if bool_decide (current_team g = RED)
     then set_current_team BLUE g
     else set_turn_number (turn_number g + 1) (set_current_team RED g)).

(** The status that wins for a team. *)
Definition win_of (t : Team) : GameStatus :=
  match t with
  | BLUE => BLUE_WIN
  | RED => RED_WIN
  end.

(** The move passes every test of [make_move]: the game is in progress, the
    player is the one to move, the source holds [piece] of the side to move,
    a pending second move is made from the square the first one reached, and
    the destination is among the legal ones. *)
Definition accepted (g : GameState) (move : Move) (player_id : option string)
    (piece : Piece) : Prop :=
  status g = PLAYING
  ∧ not_your_turn g player_id = false
  ∧ board_get (board g) (from_pos move).1 (from_pos move).2 = Ok (Some piece)
  ∧ team piece = current_team g
  ∧ (red_first_move_done g && red_double_move_active g = true →
     red_first_move_pos g = Some (from_pos move))
  ∧ ∃ frozen valid_moves,
      get_frozen_positions g = Ok frozen
      ∧ get_valid_moves (board g) (from_pos move) (current_team g)
          (blue_magic_alive g) (red_magic_alive g) (turn_number g)
          (red_first_move_done g && red_double_move_active g) frozen
        = Ok valid_moves
      ∧ to_pos move ∈ valid_moves.

(** Every General on the board stands in the palace of its team. *)
Definition generals_at_home (b : Board) : Prop :=
  ∀ q t, on_board q → board_get b q.1 q.2 = Ok (Some (mkPiece GENERAL t)) →
    q ∈ (match t with BLUE => get_blue_palace | RED => get_red_palace end).

(** The turn did not move: the side to move, the turn number and the
    double-move fields are what they were. *)
Definition turn_untouched (g g' : GameState) : Prop :=
  current_team g' = current_team g
  ∧ turn_number g' = turn_number g
  ∧ red_double_move_active g' = red_double_move_active g
  ∧ red_first_move_done g' = red_first_move_done g
  ∧ red_first_move_pos g' = red_first_move_pos g.

(** The test of [make_move] that leaves Red a second move: turn 11, Red to
    move with its Magic piece alive, the game in progress, no first move made
    yet, and a move that starts and ends in Red's half. *)
Definition second_move_pending (g : GameState) (move : Move) : bool :=
  bool_decide (turn_number g = 11) && bool_decide (current_team g = RED)
  && red_magic_alive g && bool_decide (status g = PLAYING)
  && negb (red_first_move_done g)
  && is_in_red_zone (from_pos move).1 && is_in_red_zone (to_pos move).1.

(** ** Positions used as examples *)

(** Red's General alone at the edge of its palace, under two Blue Attack
    pieces that hold the two files it can reach. *)
Definition mate_board : Board :=
  board_of [((9, 3), mkPiece GENERAL RED);
            ((5, 3), mkPiece ATTACK BLUE);
            ((5, 4), mkPiece ATTACK BLUE);
            ((0, 4), mkPiece GENERAL BLUE)].

(** A Red Attack piece at (5, 4) with a Blue piece beside it on its rank, a
    Blue piece above it and a Red piece below it on its file. *)
Definition attack_board : Board :=
  board_of [((5, 4), mkPiece ATTACK RED);
            ((5, 6), mkPiece DEFENSE BLUE);
            ((2, 4), mkPiece DEFENSE BLUE);
            ((7, 4), mkPiece DEFENSE RED)].

(** A local game from its first position. *)
Definition new_local_game : GameState := create_game "0a1b2c3d" LOCAL None.

Definition mv (from_pos to_pos : Pos) : Op := OpMove (mkMove from_pos to_pos) None.

(** Ten moves after which a Red Attack piece stands at (2, 4), where it has
    just taken Blue's Magic piece, with Blue's General two cells above it. *)
Definition raid_opening : list Op :=
  [mv (9, 2) (8, 2); mv (0, 0) (1, 0);
   mv (8, 2) (8, 4); mv (1, 0) (0, 0);
   mv (7, 4) (6, 4); mv (0, 0) (1, 0);
   mv (6, 4) (6, 3); mv (1, 0) (0, 0)].

Definition before_magic_capture : GameState := foldl run_op new_local_game raid_opening.

Definition magic_capture : Move := mkMove (8, 4) (2, 4).

Definition before_general_capture : GameState :=
  foldl run_op before_magic_capture [OpMove magic_capture None; mv (0, 0) (1, 0)].

Definition general_capture : Move := mkMove (2, 4) (0, 4).

(** Ten rounds in which each side moves an Attack piece out and back, which
    bring the game to Red's move of turn 11 in the first position. *)
Definition shuffle_round : list Op :=
  [mv (9, 0) (8, 0); mv (0, 0) (1, 0); mv (8, 0) (9, 0); mv (1, 0) (0, 0)].

Definition turn11_game : GameState :=
  foldl run_op new_local_game
    (shuffle_round ++ shuffle_round ++ shuffle_round ++ shuffle_round ++ shuffle_round).

(** A game in which Red has made the first move of its turn 11, with Blue's
    General shut in its corner of the palace by two Red Attack pieces, one of
    which holds its file. *)
Definition cornered_game : GameState :=
  mkGameState "0a1b2c3d" LOCAL PLAYING
    (board_of [((0, 3), mkPiece GENERAL BLUE);
               ((1, 3), mkPiece ATTACK RED);
               ((0, 4), mkPiece ATTACK RED);
               ((8, 4), mkPiece GENERAL RED);
               ((7, 4), mkPiece MAGIC RED)])
    RED 11 false true true true (Some (8, 4)) [] None None.

(** The effect of an accepted move of [piece] that took [cp] and left the
    board [b]: the answer [r] of the call and the game [g'] after it. *)
Definition applied (g : GameState) (move : Move) (piece : Piece)
    (cp : option Piece) (b : Board) (r : MoveResult) (g' : GameState) : Prop :=
  board_get (board g) (to_pos move).1 (to_pos move).2 = Ok cp
  ∧ (cp = None ∨ ∃ t, cp = Some t ∧ team t ≠ team piece)
  ∧ on_board (to_pos move)
  ∧ relocated (board g) (norm_pos (from_pos move)) (to_pos move) b
  ∧ board_get (board g) (norm_pos (from_pos move)).1 (norm_pos (from_pos move)).2
    = Ok (Some piece)
  ∧ let g1 := moved g move cp b in
    if second_move_pending g1 move then
      r = mkMoveResult cp (status g1) true true
      ∧ g' = set_double_move true true (Some (to_pos move)) g1
    else
      ∃ st, r = mkMoveResult cp st false false
        ∧ g' = set_status st (next_turn g1)
        ∧ (status g1 ≠ PLAYING → st = status g1)
        ∧ (st = status g1 ∨ st = RED_WIN ∨ st = BLUE_WIN ∨ st = DRAW).

(** The requests that [make_move] turns down, each with its answer. *)
Inductive rejected (g : GameState) (move : Move) (player_id : option string)
    : MoveError → Prop :=
  | rejected_not_playing :
      status g ≠ PLAYING → rejected g move player_id GameNotPlaying
  | rejected_not_your_turn :
      status g = PLAYING → not_your_turn g player_id = true →
      rejected g move player_id NotYourTurn
  | rejected_no_piece :
      status g = PLAYING → not_your_turn g player_id = false →
      board_get (board g) (from_pos move).1 (from_pos move).2 = Ok None →
      rejected g move player_id NoPieceSelected
  | rejected_wrong_team piece :
      status g = PLAYING → not_your_turn g player_id = false →
      board_get (board g) (from_pos move).1 (from_pos move).2 = Ok (Some piece) →
      team piece ≠ current_team g →
      rejected g move player_id NotYourPiece
  | rejected_second_move piece frozen :
      status g = PLAYING → not_your_turn g player_id = false →
      board_get (board g) (from_pos move).1 (from_pos move).2 = Ok (Some piece) →
      team piece = current_team g →
      get_frozen_positions g = Ok frozen →
      red_first_move_done g && red_double_move_active g = true →
      red_first_move_pos g ≠ Some (from_pos move) →
      rejected g move player_id SecondMoveSamePiece
  | rejected_illegal piece frozen valid_moves :
      status g = PLAYING → not_your_turn g player_id = false →
      board_get (board g) (from_pos move).1 (from_pos move).2 = Ok (Some piece) →
      team piece = current_team g →
      get_frozen_positions g = Ok frozen →
      (red_first_move_done g && red_double_move_active g = true →
       red_first_move_pos g = Some (from_pos move)) →
      get_valid_moves (board g) (from_pos move) (current_team g)
        (blue_magic_alive g) (red_magic_alive g) (turn_number g)
        (red_first_move_done g && red_double_move_active g) frozen
      = Ok valid_moves →
      to_pos move ∉ valid_moves →
      rejected g move player_id IllegalMove.

(** ** Vocabulary of the further properties *)

(** The [k]-th cell of the ray from [pos] in direction [d] is on the board
    and no piece stands between [pos] and it. *)
Definition ray_clear (b : Board) (pos d : Pos) (k : Z) : Prop :=
  1 ≤ k ∧ on_board (ray_cell pos d k)
  ∧ ∀ j, 1 ≤ j < k →
      board_get b (ray_cell pos d j).1 (ray_cell pos d j).2 = Ok None.

(** The cell [m] is empty. *)
Definition empty_at (b : Board) (m : Pos) : Prop := board_get b m.1 m.2 = Ok None.

(** The cell [m] holds a piece of the other team than [side]. *)
Definition enemy_at (b : Board) (side : Team) (m : Pos) : Prop :=
  ∃ t, board_get b m.1 m.2 = Ok (Some t) ∧ team t ≠ side.

(** The zone a Magic piece moves in, the palace a General moves in. *)
Definition magic_zone_of (t : Team) : list Pos :=
  match t with
  | BLUE => get_blue_magic_zone
  | RED => get_red_magic_zone
  end.

Definition palace_of (t : Team) : list Pos :=
  match t with
  | BLUE => get_blue_palace
  | RED => get_red_palace
  end.

(** A Defense piece with an enemy beside it on its rank, a friend further
    along, and an enemy above it on its file. *)
Definition defense_board : Board :=
  board_of [((6, 4), mkPiece DEFENSE RED);
            ((6, 6), mkPiece ATTACK BLUE);
            ((6, 1), mkPiece ATTACK RED);
            ((3, 4), mkPiece ATTACK BLUE)].

(** A Support piece with an enemy on one diagonal and a friend on another. *)
Definition support_board : Board :=
  board_of [((5, 4), mkPiece SUPPORT BLUE);
            ((7, 6), mkPiece DEFENSE RED);
            ((3, 2), mkPiece DEFENSE BLUE)].


(** Rounds in which each side moves an Attack piece back and out again. *)
Definition shuffle_back : list Op :=
  [mv (8, 0) (9, 0); mv (0, 0) (1, 0); mv (9, 0) (8, 0); mv (1, 0) (0, 0)].

(** The game of the example at Red's move of turn 11, with a Red Defense
    piece that went to (3, 0), in Blue's half, on the first move. *)
Definition frozen_game : GameState :=
  foldl run_op new_local_game
    ([mv (7, 0) (3, 0); mv (0, 0) (1, 0); mv (9, 0) (8, 0); mv (1, 0) (0, 0)]
     ++ shuffle_back ++ shuffle_back ++ shuffle_back ++ shuffle_back).

(** A position in which Blue, to move, has no legal move and is not in
    check: its General is shut in by its own Magic piece, which stands
    outside its zone, and by a Red Magic piece, which cannot take. *)
Definition stalemate_board : Board :=
  board_of [((0, 3), mkPiece GENERAL BLUE);
            ((0, 4), mkPiece MAGIC BLUE);
            ((1, 3), mkPiece MAGIC RED);
            ((9, 4), mkPiece GENERAL RED)].

(** The same position with a Red Support piece that attacks Blue's General
    along a diagonal. *)
Definition smothered_board : Board :=
  board_of [((0, 3), mkPiece GENERAL BLUE);
            ((0, 4), mkPiece MAGIC BLUE);
            ((1, 3), mkPiece MAGIC RED);
            ((2, 5), mkPiece SUPPORT RED);
            ((9, 4), mkPiece GENERAL RED)].

(** The status that the checkmate and stalemate tests give a game in
    progress whose side to move has just changed: won by the other side when
    the side to move is checkmated, drawn when it is not checkmated and has
    no legal move, and in progress otherwise. *)
Definition verdict (g : GameState) (st : GameStatus) : Prop :=
  ∃ mate stale,
    is_checkmate (board g) (current_team g) (blue_magic_alive g)
      (red_magic_alive g) (turn_number g) [] = Ok mate
    ∧ is_stalemate (board g) (current_team g) (blue_magic_alive g)
        (red_magic_alive g) (turn_number g) [] = Ok stale
    ∧ st = if mate then win_of (enemy_of (current_team g))
           else if stale then DRAW else PLAYING.

(** ** Vocabulary of the invariants *)

(** The piece [p] stands on the cell [q] of the board. *)
Definition stands (b : Board) (p : Piece) (q : Pos) : Prop :=
  on_board q ∧ board_get b q.1 q.2 = Ok (Some p).

(** The magic-alive flag of a team. *)
Definition magic_alive_of (t : Team) (g : GameState) : bool :=
  match t with
  | BLUE => blue_magic_alive g
  | RED => red_magic_alive g
  end.

(** The number of moves of Blue in a log. *)
Definition blue_moves (log : list HistoryEntry) : nat :=
  length (filter (λ e, h_team e = BLUE) log).

(** The game after an accepted move that took [cp] and left the board [b],
    once its status [st] is settled: with a second move pending, or with the
    turn switched. *)
Definition after_move (g : GameState) (move : Move) (cp : option Piece) (b : Board)
    (st : GameStatus) : GameState :=
  set_status st
    (if second_move_pending (moved g move cp b) move
     then set_double_move true true (Some (to_pos move)) (moved g move cp b)
     else next_turn (moved g move cp b)).

(** The requests a host can make on the registry of games, and the
    registries that they produce from the empty one. *)
Inductive ManagerOp :=
  | MCreate (fresh_id : string) (mode : GameMode) (player_id : option string)
  | MJoin (game_id : string) (player_id : string)
  | MMove (game_id : string) (move : Move) (player_id : option string)
  | MSkip (game_id : string) (player_id : option string)
  | MDelete (game_id : string).

Definition run_manager_op (m : GameManager.t) (op : ManagerOp) : GameManager.t :=
  match op with
  | MCreate fresh_id mode player_id => (GameManager.create_game m fresh_id mode player_id).2
  | MJoin game_id player_id => (GameManager.join_game m game_id player_id).2
  | MMove game_id move player_id => (GameManager.make_move m game_id move player_id).2
  | MSkip game_id player_id => (GameManager.skip_second_move m game_id player_id).2
  | MDelete game_id => GameManager.delete_game m game_id
  end.

Inductive manager_reachable : GameManager.t → Prop :=
  | manager_reachable_init : manager_reachable GameManager.init
  | manager_reachable_op m op :
      manager_reachable m → manager_reachable (run_manager_op m op).

(** The game id that a request names, if it names one. *)
Definition op_game_id (op : ManagerOp) : option string :=
  match op with
  | MCreate fresh_id _ _ => Some fresh_id
  | MJoin game_id _ | MMove game_id _ _ | MSkip game_id _ | MDelete game_id => Some game_id
  end.

(** The game of the example after Red has taken Blue's General. *)
Definition won_game : GameState :=
  foldl run_op before_general_capture [OpMove general_capture None].

(** An online game that waits for its second player, and a registry in which
    three requests were made. *)
Definition new_online_game : GameState := create_game "4e5f6a7b" ONLINE (Some "alice").

Definition busy_manager : GameManager.t :=
  foldl run_manager_op GameManager.init
    [MCreate "0a1b2c3d" LOCAL None;
     MCreate "4e5f6a7b" ONLINE (Some "alice");
     MMove "0a1b2c3d" (mkMove (7, 0) (3, 0)) None].

(** ** Vocabulary of the material count *)

(** The cells of the board, in the order of the scans. *)
Definition cells : list Pos := row ← range 10; col ← range 9; [(row, col)].

(** What a cell adds to the evaluation: the value of a Red piece, minus the
    value of a Blue one. *)
Definition signed_value (cell : option Piece) : Z :=
  match cell with
  | Some p =>
      if bool_decide (team p = RED) then piece_values (piece_type p)
      else - piece_values (piece_type p)
  | None => 0
  end.

(** The sum of [f] over a list. *)
Definition sum_over {A} (f : A → Z) (l : list A) : Z := foldr (λ x acc, f x + acc) 0 l.

(** The content of a cell, nothing outside the board. *)
Definition cell_of (b : Board) (q : Pos) : option Piece :=
  match board_get b q.1 q.2 with
  | Ok cell => cell
  | Err _ => None
  end.

(** The number of cells on which the piece [p] stands, and the number of
    logged moves that took a piece [p]. *)
Definition count_on (p : Piece) (b : Board) : Z :=
  sum_over (λ q, if bool_decide (cell_of b q = Some p) then 1 else 0) cells.

Definition captures_of (p : Piece) (log : list HistoryEntry) : Z :=
  sum_over (λ e, if bool_decide (h_captured e = Some p) then 1 else 0) log.

(** The indices that Python accepts for a cell of the 10 x 9 board: the row
    and the column, or either counted from the end. *)
Definition indexable (p : Pos) : Prop := -10 ≤ p.1 < 10 ∧ -9 ≤ p.2 < 9.

(** The requests on the connections, and the registries of connections that
    they produce from the empty one. *)
Inductive ConnectionOp (WebSocket : Type) :=
  | CConnect (websocket : WebSocket) (game_id player_id : string)
  | CDisconnect (game_id player_id : string).
Arguments CConnect {WebSocket} websocket game_id player_id.
Arguments CDisconnect {WebSocket} game_id player_id.

Definition run_connection_op {WebSocket} (cm : ConnectionManager.t WebSocket)
    (op : ConnectionOp WebSocket) : ConnectionManager.t WebSocket :=
  match op with
  | CConnect websocket game_id player_id =>
      ConnectionManager.connect cm websocket game_id player_id
  | CDisconnect game_id player_id => ConnectionManager.disconnect cm game_id player_id
  end.

Inductive connections_reachable {WebSocket} : ConnectionManager.t WebSocket → Prop :=
  | connections_reachable_init : connections_reachable ConnectionManager.init
  | connections_reachable_op cm op :
      connections_reachable cm → connections_reachable (run_connection_op cm op).

(** * Properties *)

(** ** The exception monad and the loops *)

Lemma bind_Ok {A B} (m : exc A) (f : A → exc B) (b : B) :
  m ≫= f = Ok b ↔ ∃ a, m = Ok a ∧ f a = Ok b.
Proof.
  destruct m as [a|e]; simpl.
  - split; [eauto | intros (a' & [= <-] & ?); done].
  - split; [done | intros (? & ? & ?); done].
Qed.

Lemma bind_Ok_l {A B} (m : exc A) (f : A → exc B) (a : A) :
  m = Ok a → m ≫= f = f a.
Proof. by intros ->. Qed.

(** Splits a hypothesis [x ← m; k = Ok b] into [m = Ok a] and [k a = Ok b]. *)
Ltac inv_bind H :=
  let a := fresh "a" in
  let Ha := fresh "Ha" in
  apply bind_Ok in H as (a & Ha & H).

Lemma for_extend_Ok {A B} (xs : list A) (body : A → exc (list B)) (l : list B) :
  for_extend xs body = Ok l →
  ∀ y, y ∈ l ↔ ∃ x ys, x ∈ xs ∧ body x = Ok ys ∧ y ∈ ys.
Proof.
  revert l. induction xs as [|x xs IH]; intros l H y; simpl in H.
  - injection H as <-. split; [by intros ?%elem_of_nil|].
    by intros (? & ? & ?%elem_of_nil & _).
  - inv_bind H. inv_bind H. injection H as <-.
    rewrite elem_of_app, (IH _ Ha0). split.
    + intros [Hy | (x' & ys & ? & ? & ?)].
      * exists x, a. by rewrite elem_of_cons; eauto.
      * exists x', ys. rewrite elem_of_cons; eauto.
    + intros (x' & ys & [->|Hx]%elem_of_cons & Hb & Hy).
      * left. congruence.
      * right. eauto.
Qed.

Lemma for_extend_body_Ok {A B} (xs : list A) (body : A → exc (list B)) l x :
  for_extend xs body = Ok l → x ∈ xs → ∃ ys, body x = Ok ys.
Proof.
  revert l. induction xs as [|x' xs IH]; intros l H Hx; [by apply elem_of_nil in Hx|].
  simpl in H. inv_bind H. inv_bind H.
  apply elem_of_cons in Hx as [->|Hx]; eauto.
Qed.

Lemma for_extend_Err {A B} (xs : list A) (body : A → exc (list B)) e :
  for_extend xs body = Err e → ∃ x, x ∈ xs ∧ body x = Err e.
Proof.
  induction xs as [|x xs IH]; simpl; [done|].
  destruct (body x) as [l|e'] eqn:Hx; simpl.
  - destruct (for_extend xs body) as [r|e'']; simpl; [done|]. intros [= ->].
    destruct IH as (y & ? & ?); [done|]. exists y. split; [by right|done].
  - intros [= ->]. exists x. split; [by left|done].
Qed.

Lemma for_extend_total {A B} (xs : list A) (body : A → exc (list B)) :
  (∀ x, x ∈ xs → ∃ l, body x = Ok l) → ∃ l, for_extend xs body = Ok l.
Proof.
  induction xs as [|x xs IH]; intros H; simpl; [eauto|].
  destruct (H x) as [l ->]; [by left|].
  destruct IH as [r ->]; [intros; apply H; by right|].
  simpl. eauto.
Qed.

(** The loop ends without a value iff no element yields one. *)
Lemma for_first_None {A R} (xs : list A) (body : A → exc (option R)) :
  for_first xs body = Ok None ↔ ∀ x, x ∈ xs → body x = Ok None.
Proof.
  induction xs as [|x xs IH]; simpl.
  - split; [by intros _ ? ?%elem_of_nil | done].
  - split.
    + intros H. inv_bind H. destruct a; [done|].
      intros y [->|Hy]%elem_of_cons; [done|]. by apply IH.
    + intros H. rewrite (H x) by (by left). simpl.
      apply IH. intros; apply H; by right.
Qed.

(** The value of the loop is that of the first element that yields one. *)
Lemma for_first_Some {A R} (xs : list A) (body : A → exc (option R)) (r : R) :
  for_first xs body = Ok (Some r) ↔
  ∃ l1 x l2, xs = l1 ++ x :: l2 ∧ (∀ y, y ∈ l1 → body y = Ok None)
             ∧ body x = Ok (Some r).
Proof.
  induction xs as [|x xs IH]; simpl.
  - split; [done|]. by intros ([] & ? & ? & ? & _).
  - split.
    + intros H. inv_bind H. destruct a as [r'|].
      * injection H as ->. exists [], x, xs. split_and!; [done| |done].
        by intros ? ?%elem_of_nil.
      * apply IH in H as (l1 & y & l2 & -> & Hl1 & Hy).
        exists (x :: l1), y, l2. split_and!; [done| |done].
        intros z [->|?]%elem_of_cons; auto.
    + intros (l1 & y & l2 & Heq & Hl1 & Hy). destruct l1 as [|z l1].
      * injection Heq as -> ->. by rewrite Hy.
      * injection Heq as -> ->. rewrite (Hl1 z) by (by left). simpl.
        apply IH. exists l1, y, l2. split_and!; [done| |done].
        intros; apply Hl1; by right.
Qed.

Lemma for_first_Some_elem {A R} (xs : list A) (body : A → exc (option R)) (r : R) :
  for_first xs body = Ok (Some r) → ∃ x, x ∈ xs ∧ body x = Ok (Some r).
Proof.
  intros (l1 & x & l2 & -> & _ & Hx)%for_first_Some.
  exists x. split; [|done]. rewrite elem_of_app, elem_of_cons. auto.
Qed.

Lemma for_first_total {A R} (xs : list A) (body : A → exc (option R)) :
  (∀ x, x ∈ xs → ∃ o, body x = Ok o) → ∃ o, for_first xs body = Ok o.
Proof.
  induction xs as [|x xs IH]; intros H; simpl; [eauto|].
  destruct (H x) as [[r|] ->]; [by left| |]; simpl; [eauto|].
  apply IH. intros; apply H; by right.
Qed.

(** A loop all of whose values are [v] yields [v] iff some element does. *)
Lemma for_first_const {A R} (xs : list A) (body : A → exc (option R)) (v : R) :
  (∀ x, x ∈ xs → body x = Ok None ∨ body x = Ok (Some v)) →
  (for_first xs body = Ok (Some v) ↔ ∃ x, x ∈ xs ∧ body x = Ok (Some v))
  ∧ (for_first xs body = Ok None ∨ for_first xs body = Ok (Some v)).
Proof.
  induction xs as [|x xs IH]; intros H; simpl.
  - split; [|auto]. split; [done|]. by intros (? & ?%elem_of_nil & _).
  - destruct IH as [IH1 IH2]; [intros; apply H; by right|].
    destruct (H x) as [Hx|Hx]; [by left| |]; rewrite Hx; simpl.
    + split; [|done]. rewrite IH1. split.
      * intros (y & ? & ?). exists y. rewrite elem_of_cons; auto.
      * intros (y & [->|?]%elem_of_cons & Hy); [congruence|eauto].
    + split; [|auto]. split; [|done]. intros _. exists x. split; [by left|done].
Qed.

#[global] Arguments range : simpl never.

Lemma elem_of_range (n : nat) (i : Z) : i ∈ range n ↔ 0 ≤ i < Z.of_nat n.
Proof. unfold range. rewrite elem_of_seqZ. lia. Qed.

(** ** Indexing a well-formed board *)

Lemma is_valid_position_true r c :
  is_valid_position r c = true ↔ 0 ≤ r ≤ 9 ∧ 0 ≤ c ≤ 8.
Proof.
  unfold is_valid_position. rewrite andb_true_iff, !bool_decide_eq_true. done.
Qed.

Lemma is_valid_position_false r c :
  is_valid_position r c = false ↔ ¬ (0 ≤ r ≤ 9 ∧ 0 ≤ c ≤ 8).
Proof. rewrite <-is_valid_position_true. by destruct (is_valid_position r c). Qed.

Lemma py_index_Ok len i k :
  py_index len i = Ok k ↔
  (0 ≤ i < Z.of_nat len ∧ k = Z.to_nat i)
  ∨ (- Z.of_nat len ≤ i < 0 ∧ k = Z.to_nat (Z.of_nat len + i)).
Proof.
  unfold py_index. repeat case_bool_decide; split; try (intros [= <-]); try lia;
    intros [[? ->]|[? ->]]; try done; lia.
Qed.

Lemma py_index_lt len i k : py_index len i = Ok k → (k < len)%nat.
Proof. rewrite py_index_Ok. lia. Qed.

Lemma py_getitem_Ok {A} (l : list A) i x :
  py_getitem l i = Ok x ↔ ∃ k, py_index (length l) i = Ok k ∧ l !! k = Some x.
Proof.
  unfold py_getitem. rewrite bind_Ok. split.
  - intros (k & Hk & H). exists k. by destruct (l !! k) as [y|]; simplify_eq.
  - intros (k & Hk & H). exists k. by rewrite H.
Qed.

Lemma py_getitem_total {A} (l : list A) i :
  - Z.of_nat (length l) ≤ i < Z.of_nat (length l) → ∃ x, py_getitem l i = Ok x.
Proof.
  intros Hi.
  assert (∃ k, py_index (length l) i = Ok k) as [k Hk].
  { destruct (decide (0 ≤ i)).
    - exists (Z.to_nat i). apply py_index_Ok. lia.
    - exists (Z.to_nat (Z.of_nat (length l) + i)). apply py_index_Ok. lia. }
  destruct (lookup_lt_is_Some_2 l k) as [x Hx]; [by eapply py_index_lt|].
  exists x. apply py_getitem_Ok. eauto.
Qed.

Lemma py_setitem_Ok {A} (l : list A) i x l' :
  py_setitem l i x = Ok l' ↔ ∃ k, py_index (length l) i = Ok k ∧ l' = <[k := x]> l.
Proof.
  unfold py_setitem. rewrite bind_Ok. split.
  - intros (k & Hk & [= <-]). eauto.
  - intros (k & Hk & ->). eauto.
Qed.

Lemma wf_board_lookup b k row :
  wf_board b → b !! k = Some row → length row = 9%nat.
Proof. intros [_ H] Hk. by eapply (Forall_lookup_1 _ _ _ _ H Hk). Qed.

(** On a well-formed board, [board[row][col]] is the cell that the indices
    denote, and raises exactly when one of them is out of range. *)
Lemma board_get_Ok b row col x :
  wf_board b →
  board_get b row col = Ok x ↔
  -10 ≤ row < 10 ∧ -9 ≤ col < 9
  ∧ ∃ r, b !! Z.to_nat (norm_pos (row, col)).1 = Some r
         ∧ r !! Z.to_nat (norm_pos (row, col)).2 = Some x.
Proof.
  intros Hwf. pose proof Hwf as [Hlen _].
  unfold board_get. rewrite bind_Ok. unfold norm_pos; simpl. split.
  - intros (r & (k & Hk & Hr)%py_getitem_Ok & (k' & Hk' & Hx)%py_getitem_Ok).
    rewrite (wf_board_lookup _ _ _ Hwf Hr) in Hk'. rewrite Hlen in Hk.
    apply py_index_Ok in Hk, Hk'.
    split; [lia|]. split; [lia|]. exists r.
    repeat case_bool_decide; (split; [rewrite <-Hr|rewrite <-Hx]); f_equal; lia.
  - intros (Hrow & Hcol & r & Hr & Hx). exists r. split.
    + apply py_getitem_Ok. eexists. split; [|exact Hr].
      rewrite Hlen. apply py_index_Ok. repeat case_bool_decide; lia.
    + apply py_getitem_Ok. eexists. split; [|exact Hx].
      rewrite (wf_board_lookup _ _ _ Hwf Hr). apply py_index_Ok.
      repeat case_bool_decide; lia.
Qed.

Lemma board_get_total b row col :
  wf_board b → -10 ≤ row < 10 → -9 ≤ col < 9 → ∃ x, board_get b row col = Ok x.
Proof.
  intros Hwf Hrow Hcol. pose proof Hwf as [Hlen _].
  destruct (lookup_lt_is_Some_2 b (Z.to_nat (norm_pos (row, col)).1)) as [r Hr].
  { unfold norm_pos; simpl. case_bool_decide; lia. }
  destruct (lookup_lt_is_Some_2 r (Z.to_nat (norm_pos (row, col)).2)) as [x Hx].
  { rewrite (wf_board_lookup _ _ _ Hwf Hr). unfold norm_pos; simpl.
    case_bool_decide; lia. }
  exists x. apply board_get_Ok; eauto.
Qed.

Lemma board_get_on_board b p :
  wf_board b → on_board p → ∃ x, board_get b p.1 p.2 = Ok x.
Proof. intros ? [? ?]. apply board_get_total; [done|lia..]. Qed.

Lemma norm_pos_on_board p : on_board p → norm_pos p = p.
Proof.
  destruct p as [r c]. intros [? ?]; simpl in *. unfold norm_pos; simpl.
  repeat case_bool_decide; try lia; done.
Qed.

Lemma board_get_norm b row col :
  wf_board b → -10 ≤ row < 10 → -9 ≤ col < 9 →
  board_get b row col = board_get b (norm_pos (row, col)).1 (norm_pos (row, col)).2.
Proof.
  intros Hwf Hrow Hcol.
  destruct (board_get_total b row col) as [x Hx]; [done..|].
  rewrite Hx. symmetry. apply board_get_Ok; [done|].
  apply board_get_Ok in Hx as (_ & _ & r & Hr & Hx); [|done].
  assert (on_board (norm_pos (row, col))).
  { unfold norm_pos, on_board; simpl. repeat case_bool_decide; lia. }
  destruct (norm_pos (row, col)) as [r' c'] eqn:E.
  unfold on_board in *; simpl in *.
  split; [lia|]. split; [lia|]. repeat case_bool_decide; try lia. eauto.
Qed.

(** [board[row][col] = x] keeps the shape of the board and changes the one
    cell that the indices denote. *)
Lemma board_set_Ok b row col x b' :
  wf_board b → board_set b row col x = Ok b' →
  -10 ≤ row < 10 ∧ -9 ≤ col < 9 ∧ wf_board b'
  ∧ ∀ p, on_board p →
      board_get b' p.1 p.2 =
        if bool_decide (p = norm_pos (row, col)) then Ok x else board_get b p.1 p.2.
Proof.
  intros Hwf H. pose proof Hwf as [Hlen Hrows]. unfold board_set in H.
  inv_bind H. inv_bind H.
  apply py_getitem_Ok in Ha as (k & Hk & Hr).
  apply py_setitem_Ok in Ha0 as (k' & Hk' & ->).
  apply py_setitem_Ok in H as (k2 & Hk2 & ->).
  assert (k2 = k) as -> by congruence.
  pose proof (wf_board_lookup _ _ _ Hwf Hr) as Hlr. rewrite Hlr in Hk'.
  rewrite Hlen in Hk. apply py_index_Ok in Hk as Hk3. apply py_index_Ok in Hk' as Hk4.
  assert (wf_board (<[k:=<[k':=x]> a]> b)) as Hwf'.
  { split; [by rewrite length_insert|].
    apply Forall_insert; [done|]. by rewrite length_insert. }
  split; [lia|]. split; [lia|]. split; [done|].
  intros [r c] [Hr1 Hc1]; simpl in *.
  assert (norm_pos (row, col) = (Z.of_nat k, Z.of_nat k')) as ->.
  { unfold norm_pos; simpl. repeat case_bool_decide; f_equal; lia. }
  destruct (board_get_total b r c) as [y Hy]; [done|lia..|].
  rewrite Hy. pose proof Hy as Hy'.
  apply board_get_Ok in Hy' as (_ & _ & r0 & Hr0 & Hy'); [|done].
  rewrite (norm_pos_on_board (r, c)) in Hr0, Hy' by done. simpl in *.
  case_bool_decide as Heq.
  - injection Heq as -> ->. rewrite Nat2Z.id in Hr0, Hy'.
    apply board_get_Ok; [done|]. rewrite (norm_pos_on_board (_, _)) by done.
    simpl. split; [lia|]. split; [lia|]. rewrite !Nat2Z.id.
    exists (<[k':=x]> a). split.
    + apply list_lookup_insert_eq. by eapply lookup_lt_Some.
    + apply list_lookup_insert_eq. lia.
  - apply board_get_Ok; [done|]. rewrite (norm_pos_on_board (_, _)) by done.
    simpl. split; [lia|]. split; [lia|].
    destruct (decide (Z.to_nat r = k)) as [<-|Hne].
    + exists (<[k':=x]> a). split.
      * apply list_lookup_insert_eq. by eapply lookup_lt_Some.
      * assert (r0 = a) as -> by congruence.
        rewrite list_lookup_insert_ne; [done|]. intros E. apply Heq. f_equal; lia.
    + exists r0. split; [|done]. by rewrite list_lookup_insert_ne.
Qed.

Lemma board_set_total b row col x :
  wf_board b → -10 ≤ row < 10 → -9 ≤ col < 9 → ∃ b', board_set b row col x = Ok b'.
Proof.
  intros Hwf Hrow Hcol. pose proof Hwf as [Hlen _].
  destruct (py_getitem_total b row) as [r Hr]; [lia|].
  pose proof Hr as (k & Hk & Hr')%py_getitem_Ok.
  pose proof (wf_board_lookup _ _ _ Hwf Hr') as Hlr.
  assert (∃ k', py_index (length r) col = Ok k') as [k' Hk'].
  { rewrite Hlr. destruct (decide (0 ≤ col)).
    - exists (Z.to_nat col). apply py_index_Ok. lia.
    - exists (Z.to_nat (9 + col)). apply py_index_Ok. lia. }
  exists (<[k := <[k' := x]> r]> b). unfold board_set.
  apply bind_Ok. exists r. split; [done|].
  apply bind_Ok. exists (<[k' := x]> r). split; apply py_setitem_Ok; eauto.
Qed.

(** Indexing raises nothing but [IndexError]. *)
Lemma board_get_Err b row col e : board_get b row col = Err e → e = IndexError.
Proof.
  unfold board_get, py_getitem, py_index.
  repeat (case_bool_decide || case_match || simpl); congruence.
Qed.

(** ** The ray loop *)

Lemma ray_moves_S n b piece cap d_row d_col r c :
  ray_moves (S n) b piece cap d_row d_col r c =
    if is_valid_position r c then
      target ← board_get b r c;
      match target with
      | None =>
          rest ← ray_moves n b piece cap d_row d_col (r + d_row) (c + d_col);
          Ok ((r, c) :: rest)
      | Some t =>
          if cap && bool_decide (team t ≠ team piece) then Ok [(r, c)] else Ok []
      end
    else Ok [].
Proof. done. Qed.

#[global] Arguments ray_moves : simpl never.

Lemma ray_measure_bounds d_row d_col r c :
  is_direction (d_row, d_col) → on_board (r, c) →
  1 ≤ ray_measure d_row d_col r c ≤ 10.
Proof.
  unfold is_direction, on_board, ray_measure; simpl. intros ? ?.
  repeat case_bool_decide; lia.
Qed.

Lemma ray_measure_step d_row d_col r c :
  is_direction (d_row, d_col) →
  ray_measure d_row d_col (r + d_row) (c + d_col) = ray_measure d_row d_col r c - 1.
Proof.
  unfold is_direction, ray_measure; simpl. intros ?.
  repeat case_bool_decide; lia.
Qed.

(** The result of the loop does not depend on the fuel, once there is more
    of it than cells left on the ray. *)
Lemma ray_moves_fuel b piece cap d_row d_col :
  is_direction (d_row, d_col) →
  ∀ n n' r c,
    (0 < n)%nat → (0 < n')%nat →
    (on_board (r, c) →
       ray_measure d_row d_col r c < Z.of_nat n
       ∧ ray_measure d_row d_col r c < Z.of_nat n') →
    ray_moves n b piece cap d_row d_col r c = ray_moves n' b piece cap d_row d_col r c.
Proof.
  intros Hd. induction n as [|n IH]; intros [|n'] r c Hn Hn' Hm; try lia.
  rewrite !ray_moves_S.
  destruct (is_valid_position r c) eqn:Hv; [|done].
  apply is_valid_position_true in Hv. destruct (Hm Hv) as [Hm1 Hm2].
  pose proof (ray_measure_bounds _ _ _ _ Hd Hv).
  destruct (board_get b r c) as [[t|]|e]; simpl; [done| |done].
  rewrite (IH n'); [done|lia|lia|].
  intros _. rewrite ray_measure_step by done. lia.
Qed.

Lemma ray_moves_unfold b piece cap d_row d_col r c :
  is_direction (d_row, d_col) →
  ray_moves ray_fuel b piece cap d_row d_col r c =
    if is_valid_position r c then
      target ← board_get b r c;
      match target with
      | None =>
          rest ← ray_moves ray_fuel b piece cap d_row d_col (r + d_row) (c + d_col);
          Ok ((r, c) :: rest)
      | Some t =>
          if cap && bool_decide (team t ≠ team piece) then Ok [(r, c)] else Ok []
      end
    else Ok [].
Proof.
  intros Hd. unfold ray_fuel at 1. rewrite ray_moves_S.
  destruct (is_valid_position r c) eqn:Hv; [|done].
  apply is_valid_position_true in Hv.
  pose proof (ray_measure_bounds _ _ _ _ Hd Hv).
  rewrite (ray_moves_fuel b piece cap d_row d_col Hd 10 ray_fuel); [done| |..].
  - lia.
  - unfold ray_fuel. lia.
  - intros _. rewrite ray_measure_step by done. unfold ray_fuel. lia.
Qed.

(** On a well-formed board the loop returns: it neither raises nor runs out
    of fuel. *)
Lemma ray_moves_total b piece cap d_row d_col :
  wf_board b → is_direction (d_row, d_col) →
  ∀ n r c,
    (0 < n)%nat → (on_board (r, c) → ray_measure d_row d_col r c < Z.of_nat n) →
    ∃ l, ray_moves n b piece cap d_row d_col r c = Ok l.
Proof.
  intros Hwf Hd. induction n as [|n IH]; intros r c Hn Hm; [lia|].
  rewrite ray_moves_S.
  destruct (is_valid_position r c) eqn:Hv; [|eauto].
  apply is_valid_position_true in Hv. specialize (Hm Hv).
  pose proof (ray_measure_bounds _ _ _ _ Hd Hv).
  destruct (board_get_total b r c) as [x ->]; [done|lia..|]. simpl.
  destruct x as [t|]; [destruct (_ && _); eauto|].
  destruct (IH (r + d_row) (c + d_col)) as [l ->]; [lia| |simpl; eauto].
  intros _. rewrite ray_measure_step by done. lia.
Qed.

(** Every cell that the loop yields lies on the ray, on the board, behind
    empty cells only, and is empty or holds an enemy piece that this ray may
    take. *)
Lemma ray_moves_elem b piece cap d_row d_col n :
  ∀ r c l m,
    ray_moves n b piece cap d_row d_col r c = Ok l → m ∈ l →
    ∃ k, 0 ≤ k ∧ m = ray_cell (r, c) (d_row, d_col) k ∧ on_board m
         ∧ (∀ j, 0 ≤ j < k →
              board_get b (r + j * d_row) (c + j * d_col) = Ok None)
         ∧ (board_get b m.1 m.2 = Ok None
            ∨ cap = true
              ∧ ∃ t, board_get b m.1 m.2 = Ok (Some t) ∧ team t ≠ team piece).
Proof.
  induction n as [|n IH]; intros r c l m H Hm; [done|]. rewrite ray_moves_S in H.
  destruct (is_valid_position r c) eqn:Hv.
  2:{ injection H as <-. by apply elem_of_nil in Hm. }
  apply is_valid_position_true in Hv. inv_bind H. destruct a as [t|].
  - destruct cap; simpl in H; [case_bool_decide|]; injection H as <-;
      try (by apply elem_of_nil in Hm).
    apply list_elem_of_singleton in Hm as ->.
    exists 0. unfold ray_cell; simpl. rewrite !Z.add_0_r.
    split_and!; [lia|done|done|intros; lia|right; eauto].
  - inv_bind H. injection H as <-. apply elem_of_cons in Hm as [->|Hm].
    + exists 0. unfold ray_cell; simpl. rewrite !Z.add_0_r.
      split_and!; [lia|done|done|intros; lia|by left].
    + destruct (IH _ _ _ _ Ha0 Hm) as (k & Hk & -> & Hon & Hbefore & Hcell).
      exists (k + 1). unfold ray_cell in *; simpl in *.
      split_and!; [lia|f_equal; lia| | |].
      * unfold on_board in *; simpl in *. lia.
      * intros j Hj. destruct (decide (j = 0)) as [->|].
        { by rewrite !Z.mul_0_l, !Z.add_0_r. }
        specialize (Hbefore (j - 1)).
        replace (r + d_row + (j - 1) * d_row) with (r + j * d_row) in Hbefore by lia.
        replace (c + d_col + (j - 1) * d_col) with (c + j * d_col) in Hbefore by lia.
        apply Hbefore. lia.
      * done.
Qed.

(** Conversely the loop yields every cell of the ray that lies behind empty
    cells only and is empty, or holds an enemy piece that this ray may
    take. *)
Lemma ray_moves_reach b piece cap d_row d_col :
  is_direction (d_row, d_col) →
  ∀ (k : nat) r c l,
    ray_moves ray_fuel b piece cap d_row d_col r c = Ok l →
    (∀ j, 0 ≤ j < Z.of_nat k →
       on_board (ray_cell (r, c) (d_row, d_col) j)
       ∧ board_get b (r + j * d_row) (c + j * d_col) = Ok None) →
    on_board (ray_cell (r, c) (d_row, d_col) (Z.of_nat k)) →
    (board_get b (r + Z.of_nat k * d_row) (c + Z.of_nat k * d_col) = Ok None
     ∨ cap = true
       ∧ ∃ t, board_get b (r + Z.of_nat k * d_row) (c + Z.of_nat k * d_col) = Ok (Some t)
              ∧ team t ≠ team piece) →
    ray_cell (r, c) (d_row, d_col) (Z.of_nat k) ∈ l.
Proof.
  intros Hd. induction k as [|k IH]; intros r c l H Hbefore Hon Hcell.
  - rewrite ray_moves_unfold in H by done.
    unfold ray_cell, on_board in *; cbn [fst snd Z.of_nat] in *.
    rewrite ?Z.mul_0_l, ?Z.add_0_r in *.
    rewrite (proj2 (is_valid_position_true r c)) in H by done.
    destruct Hcell as [Hc|(-> & t & Hc & Ht)]; rewrite Hc in H; simpl in H.
    + inv_bind H. injection H as <-. by left.
    + rewrite bool_decide_true in H by done. injection H as <-. by left.
  - rewrite ray_moves_unfold in H by done.
    destruct (Hbefore 0) as [Hon0 Hc0]; [lia|].
    unfold ray_cell, on_board in Hon0; cbn [fst snd] in Hon0.
    rewrite !Z.mul_0_l, !Z.add_0_r in Hon0, Hc0.
    rewrite (proj2 (is_valid_position_true r c)) in H by done.
    rewrite Hc0 in H. simpl in H. inv_bind H. injection H as <-. right.
    assert (∀ j, ray_cell (r + d_row, c + d_col) (d_row, d_col) j
                 = ray_cell (r, c) (d_row, d_col) (j + 1)) as Hshift.
    { intros j. unfold ray_cell; simpl. f_equal; lia. }
    replace (Z.of_nat (S k)) with (Z.of_nat k + 1) in * by lia.
    rewrite <-Hshift. apply IH; [done| | |].
    + intros j Hj. rewrite Hshift. destruct (Hbefore (j + 1)) as [? Hb]; [lia|].
      split; [done|]. rewrite <-Hb. f_equal; lia.
    + by rewrite Hshift.
    + replace (r + d_row + Z.of_nat k * d_row) with (r + (Z.of_nat k + 1) * d_row) by lia.
      replace (c + d_col + Z.of_nat k * d_col) with (c + (Z.of_nat k + 1) * d_col) by lia.
      done.
Qed.

(** ** The per-piece rules *)

Lemma orthogonal_is_direction d : d ∈ orthogonal_directions → is_direction d.
Proof.
  unfold orthogonal_directions. rewrite !elem_of_cons, elem_of_nil.
  intros [->|[->|[->|[->|[]]]]]; unfold is_direction; simpl; lia.
Qed.

Lemma diagonal_is_direction d : d ∈ diagonal_directions → is_direction d.
Proof.
  unfold diagonal_directions. rewrite !elem_of_cons, elem_of_nil.
  intros [->|[->|[->|[->|[]]]]]; unfold is_direction; simpl; lia.
Qed.

Section rays.
Context (b : Board) (piece : Piece) (cap : Z → Z → bool) (dirs : list Pos).
Context (row col : Z).

(** The loop over the directions, as the three ray pieces run it. *)
Let rays : exc (list Pos) :=
  for_extend dirs (λ '(d_row, d_col),
    ray_moves ray_fuel b piece (cap d_row d_col) d_row d_col
      (row + d_row) (col + d_col)).

Lemma rays_total :
  wf_board b → (∀ d, d ∈ dirs → is_direction d) → ∃ l, rays = Ok l.
Proof using Type.
  intros Hwf Hd. apply for_extend_total. intros [d_row d_col] Hin.
  apply ray_moves_total; [done|by apply Hd|unfold ray_fuel; lia|].
  intros Hon. pose proof (ray_measure_bounds _ _ _ _ (Hd _ Hin) Hon).
  unfold ray_fuel. lia.
Qed.

Lemma rays_elem l m :
  rays = Ok l → m ∈ l →
  ∃ d k, d ∈ dirs ∧ 1 ≤ k ∧ m = ray_cell (row, col) d k ∧ on_board m
    ∧ (∀ j, 1 ≤ j < k → board_get b (row + j * d.1) (col + j * d.2) = Ok None)
    ∧ (board_get b m.1 m.2 = Ok None
       ∨ cap d.1 d.2 = true
         ∧ ∃ t, board_get b m.1 m.2 = Ok (Some t) ∧ team t ≠ team piece).
Proof using Type.
  intros H Hm.
  apply (for_extend_Ok _ _ _ H) in Hm as ([d_row d_col] & ys & Hd & Hys & Hm).
  apply (ray_moves_elem _ _ _ _ _ _ _ _ _ _ Hys) in Hm
    as (k & Hk & -> & Hon & Hbefore & Hcell).
  exists (d_row, d_col), (k + 1). unfold ray_cell in *; simpl in *.
  split_and!; [done|lia|f_equal; lia|done| |done].
  intros j Hj. specialize (Hbefore (j - 1)).
  replace (row + d_row + (j - 1) * d_row) with (row + j * d_row) in Hbefore by lia.
  replace (col + d_col + (j - 1) * d_col) with (col + j * d_col) in Hbefore by lia.
  apply Hbefore. lia.
Qed.

Lemma rays_reach l d k :
  (∀ d, d ∈ dirs → is_direction d) →
  rays = Ok l → d ∈ dirs → 1 ≤ k →
  (∀ j, 1 ≤ j < k →
     on_board (ray_cell (row, col) d j)
     ∧ board_get b (row + j * d.1) (col + j * d.2) = Ok None) →
  on_board (ray_cell (row, col) d k) →
  (board_get b (row + k * d.1) (col + k * d.2) = Ok None
   ∨ cap d.1 d.2 = true
     ∧ ∃ t, board_get b (row + k * d.1) (col + k * d.2) = Ok (Some t)
            ∧ team t ≠ team piece) →
  ray_cell (row, col) d k ∈ l.
Proof using Type.
  intros Hdirs H Hd Hk Hbefore Hon Hcell. destruct d as [d_row d_col].
  destruct (for_extend_body_Ok _ _ _ _ H Hd) as [ys Hys].
  assert (∀ y, y ∈ ys → y ∈ l) as Hsub.
  { intros y Hy. apply (for_extend_Ok _ _ _ H). exists (d_row, d_col), ys. eauto. }
  apply Hsub.
  assert (∀ j, ray_cell (row + d_row, col + d_col) (d_row, d_col) j
               = ray_cell (row, col) (d_row, d_col) (j + 1)) as Hshift.
  { intros j. unfold ray_cell; simpl. f_equal; lia. }
  replace k with (Z.of_nat (Z.to_nat (k - 1)) + 1) in * by lia.
  set (n := Z.to_nat (k - 1)) in *. rewrite <-Hshift.
  simpl in *. apply (ray_moves_reach _ _ _ _ _ (Hdirs _ Hd) n _ _ _ Hys).
  - intros j Hj. rewrite Hshift. destruct (Hbefore (j + 1)) as [? Hb]; [lia|].
    split; [done|]. rewrite <-Hb. f_equal; lia.
  - by rewrite Hshift.
  - replace (row + d_row + Z.of_nat n * d_row)
      with (row + (Z.of_nat n + 1) * d_row) by lia.
    replace (col + d_col + Z.of_nat n * d_col)
      with (col + (Z.of_nat n + 1) * d_col) by lia.
    done.
Qed.
End rays.

Lemma elem_of_zone_positions r0 r1 c0 c1 p :
  p ∈ zone_positions r0 r1 c0 c1 ↔ r0 ≤ p.1 < r1 ∧ c0 ≤ p.2 < c1.
Proof.
  unfold zone_positions. rewrite list_elem_of_bind. split.
  - intros (r & (c & ->%list_elem_of_singleton & Hc%elem_of_seqZ)%list_elem_of_bind
              & Hr%elem_of_seqZ).
    simpl. lia.
  - intros [Hr Hc]. exists p.1. rewrite elem_of_seqZ. split; [|lia].
    apply list_elem_of_bind. exists p.2. rewrite elem_of_seqZ.
    split; [|lia]. destruct p. by apply list_elem_of_singleton.
Qed.

Lemma one_step_moves_elem b pos zone l m :
  one_step_moves b pos zone = Ok l → m ∈ l →
  m ∈ zone ∧ board_get b m.1 m.2 = Ok None
  ∧ ∃ d, d ∈ orthogonal_directions ∧ m = ray_cell pos d 1.
Proof.
  destruct pos as [row col]. unfold one_step_moves. intros H Hm.
  apply (for_extend_Ok _ _ _ H) in Hm as ([d_row d_col] & ys & Hd & Hys & Hm).
  simpl in Hys. case_bool_decide as Hz.
  2:{ injection Hys as <-. by apply elem_of_nil in Hm. }
  inv_bind Hys. destruct a; injection Hys as <-; [by apply elem_of_nil in Hm|].
  apply list_elem_of_singleton in Hm as ->. simpl.
  split_and!; [done..|]. exists (d_row, d_col). split; [done|].
  unfold ray_cell; simpl. f_equal; lia.
Qed.

Lemma one_step_moves_total b pos zone :
  wf_board b → (∀ p, p ∈ zone → on_board p) →
  ∃ l, one_step_moves b pos zone = Ok l.
Proof.
  intros Hwf Hzone. destruct pos as [row col]. unfold one_step_moves.
  apply for_extend_total. intros [d_row d_col] _. simpl.
  case_bool_decide as Hz; [|eauto].
  destruct (board_get_on_board b _ Hwf (Hzone _ Hz)) as [x Hx]. simpl in Hx.
  rewrite Hx. simpl. destruct x; eauto.
Qed.

Lemma zones_on_board p :
  p ∈ get_blue_palace ∨ p ∈ get_red_palace
  ∨ p ∈ get_blue_magic_zone ∨ p ∈ get_red_magic_zone → on_board p.
Proof.
  unfold get_blue_palace, get_red_palace, get_blue_magic_zone, get_red_magic_zone.
  rewrite !elem_of_zone_positions. unfold on_board. lia.
Qed.

(** On a well-formed board every rule returns, from any position. *)
Lemma piece_moves_total b pos piece :
  wf_board b → ∃ l, piece_moves b pos piece = Ok l.
Proof.
  intros Hwf. unfold piece_moves. destruct pos as [row col].
  destruct (piece_type piece).
  - apply (rays_total b piece (λ _ d_col, bool_decide (d_col = 0))); [done|].
    apply orthogonal_is_direction.
  - apply (rays_total b piece (λ d_row _, bool_decide (d_row = 0))); [done|].
    apply orthogonal_is_direction.
  - apply (rays_total b piece (λ _ _, true)); [done|].
    apply diagonal_is_direction.
  - apply one_step_moves_total; [done|]. intros p Hp. apply zones_on_board.
    destruct (team piece); auto.
  - apply one_step_moves_total; [done|]. intros p Hp. apply zones_on_board.
    destruct (team piece); auto.
Qed.

(** Every destination of a rule is a cell of the board other than the
    source, empty or held by a piece of the other team. *)
Lemma piece_moves_elem b pos piece l m :
  piece_moves b pos piece = Ok l → m ∈ l →
  on_board m ∧ m ≠ pos
  ∧ (board_get b m.1 m.2 = Ok None
     ∨ ∃ t, board_get b m.1 m.2 = Ok (Some t) ∧ team t ≠ team piece).
Proof.
  intros H Hm. unfold piece_moves in H. destruct pos as [row col].
  assert (∀ d k, is_direction d → 1 ≤ k → ray_cell (row, col) d k ≠ (row, col))
    as Hne.
  { intros [d_row d_col] k (? & ? & ?) ? [= ? ?]. simpl in *. nia. }
  destruct (piece_type piece).
  - apply (rays_elem b piece (λ _ d_col, bool_decide (d_col = 0)) _ _ _ _ _ H) in Hm
      as (d & k & Hd & Hk & -> & ? & _ & Hc).
    split_and!; [done|by apply Hne; [apply orthogonal_is_direction|]|].
    destruct Hc as [?|[_ ?]]; auto.
  - apply (rays_elem b piece (λ d_row _, bool_decide (d_row = 0)) _ _ _ _ _ H) in Hm
      as (d & k & Hd & Hk & -> & ? & _ & Hc).
    split_and!; [done|by apply Hne; [apply orthogonal_is_direction|]|].
    destruct Hc as [?|[_ ?]]; auto.
  - apply (rays_elem b piece (λ _ _, true) _ _ _ _ _ H) in Hm
      as (d & k & Hd & Hk & -> & ? & _ & Hc).
    split_and!; [done|by apply Hne; [apply diagonal_is_direction|]|].
    destruct Hc as [?|[_ ?]]; auto.
  - apply (one_step_moves_elem _ _ _ _ _ H) in Hm as (Hz & Hc & d & Hd & ->).
    split_and!; [|by apply Hne; [apply orthogonal_is_direction|]|by left].
    apply zones_on_board. destruct (team piece); auto.
  - apply (one_step_moves_elem _ _ _ _ _ H) in Hm as (Hz & Hc & d & Hd & ->).
    split_and!; [|by apply Hne; [apply orthogonal_is_direction|]|by left].
    apply zones_on_board. destruct (team piece); auto.
Qed.

(** A General only ever moves inside the palace of its team. *)
Lemma general_moves_in_palace b pos piece l m :
  piece_type piece = GENERAL → piece_moves b pos piece = Ok l → m ∈ l →
  m ∈ (match team piece with BLUE => get_blue_palace | RED => get_red_palace end).
Proof.
  intros Ht H Hm. unfold piece_moves in H. rewrite Ht in H.
  by apply (one_step_moves_elem _ _ _ _ _ H) in Hm as (Hz & _).
Qed.

(** The rules never run out of fuel, on any board: the fuel of the ray loop
    is enough, and the only exception that a rule can raise is Python's. *)
Lemma ray_moves_enough_fuel b piece cap d_row d_col :
  is_direction (d_row, d_col) →
  ∀ n r c,
    (0 < n)%nat → (on_board (r, c) → ray_measure d_row d_col r c < Z.of_nat n) →
    ray_moves n b piece cap d_row d_col r c ≠ Err OutOfFuel.
Proof.
  intros Hd. induction n as [|n IH]; intros r c Hn Hm; [lia|].
  rewrite ray_moves_S. destruct (is_valid_position r c) eqn:Hv; [|done].
  apply is_valid_position_true in Hv. specialize (Hm Hv).
  pose proof (ray_measure_bounds _ _ _ _ Hd Hv).
  destruct (board_get b r c) as [[t|]|e] eqn:Hc; cbn [mbind exc_bind].
  - by destruct (_ && _).
  - specialize (IH (r + d_row) (c + d_col)).
    destruct (ray_moves n b piece cap d_row d_col (r + d_row) (c + d_col)) as [l|e];
      [done|]. cbn [mbind exc_bind]. intros [= ->]. apply IH; [lia| |done].
    intros _. rewrite ray_measure_step by done. lia.
  - apply board_get_Err in Hc as ->. done.
Qed.

Lemma piece_moves_enough_fuel b pos piece : piece_moves b pos piece ≠ Err OutOfFuel.
Proof.
  assert (∀ cap dirs row col,
            (∀ d, d ∈ dirs → is_direction d) →
            for_extend dirs (λ '(d_row, d_col),
              ray_moves ray_fuel b piece (cap d_row d_col) d_row d_col
                (row + d_row) (col + d_col)) ≠ Err OutOfFuel) as Hrays.
  { intros cap dirs row col Hdirs ([d_row d_col] & Hd & H)%for_extend_Err.
    revert H. apply ray_moves_enough_fuel; [by apply Hdirs|unfold ray_fuel; lia|].
    intros Hon. pose proof (ray_measure_bounds _ _ _ _ (Hdirs _ Hd) Hon).
    unfold ray_fuel. lia. }
  assert (∀ zone, one_step_moves b pos zone ≠ Err OutOfFuel) as Hstep.
  { intros zone. destruct pos as [row col]. unfold one_step_moves.
    intros ([d_row d_col] & _ & H)%for_extend_Err. cbn in H.
    case_bool_decide; [|done].
    destruct (board_get b (row + d_row) (col + d_col)) as [[?|]|e] eqn:Hc;
      cbn in H; [done..|].
    apply board_get_Err in Hc. congruence. }
  unfold piece_moves. destruct pos as [row col]. destruct (piece_type piece).
  - apply (Hrays (λ _ d_col, bool_decide (d_col = 0))), orthogonal_is_direction.
  - apply (Hrays (λ d_row _, bool_decide (d_row = 0))), orthogonal_is_direction.
  - apply (Hrays (λ _ _, true)), diagonal_is_direction.
  - apply Hstep.
  - apply Hstep.
Qed.

(** ** get_valid_moves *)

Lemma no_retreat_elem pos side moves m :
  m ∈ no_retreat pos side moves ↔
  m ∈ moves ∧ is_moving_backward pos m side = false
  ∧ is_moving_diagonal_backward pos m side = false.
Proof.
  unfold no_retreat. rewrite !list_elem_of_In, filter_In, andb_true_iff, !negb_true_iff.
  done.
Qed.

Lemma is_moving_backward_false pos m side :
  is_moving_backward pos m side = false ↔
  match side with BLUE => ¬ m.1 < pos.1 | RED => ¬ m.1 > pos.1 end.
Proof. unfold is_moving_backward. destruct side; apply bool_decide_eq_false. Qed.

(** The answer of [get_valid_moves] for a piece of the side to move that is
    not in the frozen list: the rule of the piece, then the retreat filter,
    then the two turn-11 restrictions. *)
Lemma get_valid_moves_piece b pos piece side bma rma turn second frozen :
  board_get b pos.1 pos.2 = Ok (Some piece) → team piece = side → pos ∉ frozen →
  get_valid_moves b pos side bma rma turn second frozen =
    raw ← piece_moves b pos piece;
    Ok (if frozen_out pos side bma turn second then []
        else if can_retreat side bma rma then raw
        else no_retreat pos side raw).
Proof.
  intros Hc <- Hf. unfold get_valid_moves, frozen_out. destruct pos as [row col].
  simpl in *. rewrite Hc. simpl.
  rewrite bool_decide_false by (by intros []).
  rewrite bool_decide_false by done.
  destruct (piece_moves b (row, col) piece) as [raw|e]; simpl; [|done].
  destruct (_ && _ && _ && _); simpl; [done|].
  by destruct (_ && _ && _).
Qed.

Lemma get_valid_moves_Ok b pos side bma rma turn second frozen moves :
  get_valid_moves b pos side bma rma turn second frozen = Ok moves →
  ∃ cell, board_get b pos.1 pos.2 = Ok cell
    ∧ (moves = []
       ∨ ∃ piece raw, cell = Some piece ∧ team piece = side ∧ (pos ∉ frozen)
           ∧ piece_moves b pos piece = Ok raw
           ∧ frozen_out pos side bma turn second = false
           ∧ moves = if can_retreat side bma rma then raw
                     else no_retreat pos side raw).
Proof.
  intros H. destruct (board_get b pos.1 pos.2) as [cell|e] eqn:Hc.
  2:{ unfold get_valid_moves in H. destruct pos. simpl in Hc. by rewrite Hc in H. }
  exists cell. split; [done|]. destruct cell as [piece|].
  2:{ left. unfold get_valid_moves in H. destruct pos. simpl in Hc.
      rewrite Hc in H. by injection H. }
  destruct (decide (team piece = side)) as [Ht|Ht].
  2:{ left. unfold get_valid_moves in H. destruct pos. simpl in Hc.
      rewrite Hc in H. simpl in H. rewrite bool_decide_true in H by done.
      by injection H. }
  destruct (decide (pos ∈ frozen)) as [Hf|Hf].
  { left. unfold get_valid_moves in H. destruct pos. simpl in Hc.
    rewrite Hc in H. simpl in H. rewrite bool_decide_false in H by (by intros []).
    rewrite bool_decide_true in H by done. by injection H. }
  rewrite (get_valid_moves_piece _ _ _ _ _ _ _ _ _ Hc Ht Hf) in H.
  inv_bind H. injection H as <-.
  destruct (frozen_out pos side bma turn second) eqn:E; [by left|].
  right. exists piece, a. done.
Qed.

(** A legal destination is a destination of the rule of the piece. *)
Lemma get_valid_moves_elem b pos side bma rma turn second frozen moves m :
  get_valid_moves b pos side bma rma turn second frozen = Ok moves → m ∈ moves →
  ∃ piece raw, board_get b pos.1 pos.2 = Ok (Some piece) ∧ team piece = side
    ∧ piece_moves b pos piece = Ok raw ∧ m ∈ raw.
Proof.
  intros H Hm. apply get_valid_moves_Ok in H as (cell & Hc & [->|H]).
  { by apply elem_of_nil in Hm. }
  destruct H as (piece & raw & -> & Ht & _ & Hraw & _ & ->).
  exists piece, raw. split_and!; [done..|].
  destruct (can_retreat side bma rma); [done|]. by apply no_retreat_elem in Hm as [? _].
Qed.

Lemma get_valid_moves_total b pos side bma rma turn second frozen :
  wf_board b → -10 ≤ pos.1 < 10 → -9 ≤ pos.2 < 9 →
  ∃ moves, get_valid_moves b pos side bma rma turn second frozen = Ok moves.
Proof.
  intros Hwf Hr Hc. destruct (board_get_total b pos.1 pos.2) as [cell Hcell]; [done..|].
  destruct cell as [piece|].
  2:{ exists []. unfold get_valid_moves. destruct pos. simpl in *. by rewrite Hcell. }
  destruct (decide (team piece = side)) as [Ht|Ht].
  2:{ exists []. unfold get_valid_moves. destruct pos. simpl in *. rewrite Hcell.
      simpl. by rewrite bool_decide_true. }
  destruct (decide (pos ∈ frozen)) as [Hf|Hf].
  { exists []. unfold get_valid_moves. destruct pos. simpl in *. rewrite Hcell.
    simpl. rewrite bool_decide_false by (by intros []). by rewrite bool_decide_true. }
  rewrite (get_valid_moves_piece _ _ _ _ _ _ _ _ _ Hcell Ht Hf).
  destruct (piece_moves_total b pos piece Hwf) as [raw ->]. simpl. eauto.
Qed.

(** C6.  When the Magic piece of a team is dead, no legal destination of a
    piece of that team lies backward of its source (a smaller row for Blue,
    a larger row for Red), straight or diagonal; and the answer is the rule
    of the piece, filtered for retreats first, then emptied by the turn-11
    zone freeze or by the second-move restriction. *)
Theorem get_valid_moves_no_retreat b pos side bma rma turn second frozen moves :
  can_retreat side bma rma = false →
  get_valid_moves b pos side bma rma turn second frozen = Ok moves →
  (∀ m, m ∈ moves →
     match side with BLUE => ¬ m.1 < pos.1 | RED => ¬ m.1 > pos.1 end
     ∧ is_moving_backward pos m side = false
     ∧ is_moving_diagonal_backward pos m side = false)
  ∧ (∀ piece, board_get b pos.1 pos.2 = Ok (Some piece) → team piece = side →
       pos ∉ frozen →
       ∃ raw, piece_moves b pos piece = Ok raw
         ∧ moves = if frozen_out pos side bma turn second then []
                   else no_retreat pos side raw).
Proof.
  intros Hdead H. split.
  - intros m Hm. apply get_valid_moves_Ok in H as (cell & Hc & [->|H]).
    { by apply elem_of_nil in Hm. }
    destruct H as (piece & raw & -> & Ht & _ & Hraw & _ & ->).
    rewrite Hdead in Hm. apply no_retreat_elem in Hm as (_ & Hb & Hd).
    split_and!; [|done..]. by apply is_moving_backward_false.
  - intros piece Hc Ht Hf.
    rewrite (get_valid_moves_piece _ _ _ _ _ _ _ _ _ Hc Ht Hf) in H.
    inv_bind H. injection H as <-. exists a. split; [done|]. by rewrite Hdead.
Qed.

Lemma get_valid_moves_no_retreat_witness :
  (∀ m, m ∈ [(6, 0); (5, 0); (4, 0); (3, 0)] →
     ¬ m.1 > (7, 0).1
     ∧ is_moving_backward (7, 0) m RED = false
     ∧ is_moving_diagonal_backward (7, 0) m RED = false)
  ∧ (∀ piece, board_get create_initial_board (7, 0).1 (7, 0).2 = Ok (Some piece) →
       team piece = RED → (7, 0) ∉ [] →
       ∃ raw, piece_moves create_initial_board (7, 0) piece = Ok raw
         ∧ [(6, 0); (5, 0); (4, 0); (3, 0)] =
             if frozen_out (7, 0) RED true 1 false then []
             else no_retreat (7, 0) RED raw).
Proof.
  apply (get_valid_moves_no_retreat create_initial_board (7, 0) RED true false 1 false []).
  - reflexivity.
  - vm_compute. reflexivity.
Defined.

(** ** Scanning the board: [for row in range(10): for col in range(9)] *)

Lemma range_split n l1 x l2 :
  range n = l1 ++ x :: l2 → 0 ≤ x < Z.of_nat n ∧ ∀ y, y ∈ l1 ↔ 0 ≤ y < x.
Proof.
  unfold range. intros H.
  assert (seqZ 0 (Z.of_nat n) !! length l1 = Some x) as Hx.
  { rewrite H. by apply list_lookup_middle. }
  apply lookup_seqZ in Hx as [Hx Hlen]. split; [lia|]. intros y. split.
  - intros (i & Hi)%list_elem_of_lookup. pose proof (lookup_lt_Some _ _ _ Hi).
    assert (seqZ 0 (Z.of_nat n) !! i = Some y) as Hy.
    { rewrite H. by rewrite lookup_app_l. }
    apply lookup_seqZ in Hy. lia.
  - intros Hy. apply list_elem_of_lookup. exists (Z.to_nat y).
    assert (seqZ 0 (Z.of_nat n) !! Z.to_nat y = Some y) as Hy'.
    { apply lookup_seqZ. lia. }
    rewrite H, lookup_app_l in Hy' by lia. done.
Qed.

Section scan.
Context {R : Type} (body : Z → Z → exc (option R)).

Let scan : exc (option R) :=
  for_first (range 10) (λ row, for_first (range 9) (λ col, body row col)).

Lemma scan_None :
  scan = Ok None ↔ ∀ p, on_board p → body p.1 p.2 = Ok None.
Proof using Type.
  subst scan. rewrite for_first_None. split.
  - intros H [r c] [Hr Hc]; cbn [fst snd] in *.
    assert (r ∈ range 10) as Hr' by (apply elem_of_range; lia).
    specialize (H r Hr'). cbv beta in H. rewrite for_first_None in H.
    apply H, elem_of_range. lia.
  - intros H r Hr%elem_of_range. apply for_first_None.
    intros c Hc%elem_of_range. apply (H (r, c)). unfold on_board; simpl. lia.
Qed.

(** The value of the scan comes from the first cell, in row-major order,
    that yields one. *)
Lemma scan_Some v :
  scan = Ok (Some v) →
  ∃ p, on_board p ∧ body p.1 p.2 = Ok (Some v)
    ∧ ∀ q, on_board q → q.1 < p.1 ∨ q.1 = p.1 ∧ q.2 < p.2 →
           body q.1 q.2 = Ok None.
Proof using Type.
  subst scan. intros (l1 & r & l2 & Hsplit & Hl1 & Hr)%for_first_Some.
  apply for_first_Some in Hr as (k1 & c & k2 & Hsplit' & Hk1 & Hc).
  apply range_split in Hsplit as [Hr Hbefore].
  apply range_split in Hsplit' as [Hc' Hbefore'].
  exists (r, c). unfold on_board; simpl. split; [lia|]. split; [done|].
  intros [r' c'] [? ?] [Hlt|[-> Hlt]]; cbn [fst snd] in *.
  - assert (r' ∈ l1) as Hr' by (apply Hbefore; lia).
    specialize (Hl1 r' Hr'). cbv beta in Hl1. rewrite for_first_None in Hl1.
    apply Hl1, elem_of_range. lia.
  - apply Hk1, Hbefore'. lia.
Qed.

Lemma scan_total :
  (∀ p, on_board p → ∃ o, body p.1 p.2 = Ok o) → ∃ o, scan = Ok o.
Proof using Type.
  intros H. subst scan. apply for_first_total. intros r Hr%elem_of_range.
  apply for_first_total. intros c Hc%elem_of_range.
  apply (H (r, c)). unfold on_board; simpl. lia.
Qed.

(** A scan whose only value is [v] yields it iff some cell does. *)
Lemma scan_const v :
  (∀ p, on_board p → body p.1 p.2 = Ok None ∨ body p.1 p.2 = Ok (Some v)) →
  (scan = Ok (Some v) ↔ ∃ p, on_board p ∧ body p.1 p.2 = Ok (Some v))
  ∧ (scan = Ok None ∨ scan = Ok (Some v)).
Proof using Type.
  intros H.
  assert (scan = Ok None ∨ scan = Ok (Some v)) as Hcases.
  { destruct scan_total as [[w|] Ho]; [by intros p Hp; destruct (H p Hp); eauto| |by left].
    right. pose proof Ho as (p & Hp & Hv & _)%scan_Some.
    destruct (H p Hp); congruence. }
  split; [|done]. split.
  - intros (p & ? & ? & _)%scan_Some. eauto.
  - intros (p & Hp & Hv). destruct Hcases as [Hn|]; [|done].
    rewrite scan_None in Hn. rewrite (Hn p Hp) in Hv. done.
Qed.
End scan.

(** ** is_general_in_check *)

Lemma find_general_spec b side :
  wf_board b →
  ∃ o, find_general b side = Ok o
    ∧ match o with
      | Some gp =>
          on_board gp
          ∧ board_get b gp.1 gp.2 = Ok (Some (mkPiece GENERAL side))
          ∧ ∀ q, on_board q → row_major_lt q gp →
                 board_get b q.1 q.2 ≠ Ok (Some (mkPiece GENERAL side))
      | None =>
          ∀ q, on_board q → board_get b q.1 q.2 ≠ Ok (Some (mkPiece GENERAL side))
      end.
Proof.
  intros Hwf. unfold find_general.
  set (body := λ row col : Z,
         piece ← board_get b row col;
         match piece with
         | Some p =>
             if bool_decide (team p = side) && bool_decide (piece_type p = GENERAL)
             then Ok (Some (row, col)) else Ok None
         | None => Ok None
         end).
  assert (∀ q, on_board q →
            (body q.1 q.2 = Ok (Some q)
             ∧ board_get b q.1 q.2 = Ok (Some (mkPiece GENERAL side)))
            ∨ (body q.1 q.2 = Ok None
               ∧ board_get b q.1 q.2 ≠ Ok (Some (mkPiece GENERAL side)))) as Hbody.
  { intros [r c] Hq. destruct (board_get_on_board b _ Hwf Hq) as [x Hx].
    unfold body. simpl in *. rewrite Hx. simpl. destruct x as [[t s]|]; simpl.
    - repeat case_bool_decide; simpl; subst; [by left|right..]; split; congruence.
    - right. split; [done|congruence]. }
  destruct (scan_total body) as [o Ho].
  { intros q Hq. destruct (Hbody q Hq) as [[-> _]|[-> _]]; eauto. }
  exists o. split; [done|]. destruct o as [gp|].
  - apply scan_Some in Ho as (p & Hp & Hv & Hfirst).
    destruct (Hbody p Hp) as [[Hs Hg]|[Hn _]]; [|congruence].
    assert (gp = p) as -> by congruence. split_and!; [done..|].
    intros q Hq Hlt. specialize (Hfirst q Hq Hlt).
    destruct (Hbody q Hq) as [[Hs' _]|[_ ?]]; [congruence|done].
  - intros q Hq. rewrite scan_None in Ho. specialize (Ho q Hq).
    destruct (Hbody q Hq) as [[Hs' _]|[_ ?]]; [congruence|done].
Qed.

Lemma threatens_spec b pos p ecr gp :
  wf_board b →
  ∃ raw, piece_moves b pos p = Ok raw
    ∧ threatens b pos p (team p) ecr gp =
        Ok (if can_capture (piece_type p)
               && bool_decide (gp ∈ (if ecr then raw else no_retreat pos (team p) raw))
            then Some true else None).
Proof.
  intros Hwf. destruct (piece_moves_total b pos p Hwf) as [raw Hraw].
  exists raw. split; [done|]. unfold threatens, piece_moves in *.
  destruct (piece_type p); simpl; try done; rewrite Hraw; simpl;
    by case_bool_decide.
Qed.

(** With the General found at [gp], the answer is that of the second loop:
    true iff some piece of the other team threatens [gp]. *)
Lemma is_general_in_check_found b side bma rma gp :
  wf_board b → find_general b side = Ok (Some gp) →
  ∃ v, is_general_in_check b side bma rma = Ok v
    ∧ (v = true ↔
       ∃ pos p, on_board pos
         ∧ board_get b pos.1 pos.2 = Ok (Some p)
         ∧ team p = enemy_of side
         ∧ threat b bma rma pos p gp).
Proof.
  intros Hwf Ho. unfold is_general_in_check. rewrite Ho.
  cbn [mbind exc_bind].
  set (ecr := can_retreat (enemy_of side) bma rma).
  set (body := λ row col : Z,
         piece ← board_get b row col;
         match piece with
         | Some p =>
             if bool_decide (team p = enemy_of side)
             then threatens b (row, col) p (enemy_of side) ecr gp
             else Ok None
         | None => Ok None
         end).
  assert (∀ q, on_board q →
            (body q.1 q.2 = Ok (Some true)
             ∧ ∃ p, board_get b q.1 q.2 = Ok (Some p) ∧ team p = enemy_of side
                    ∧ threat b bma rma q p gp)
            ∨ (body q.1 q.2 = Ok None
               ∧ ∀ p, board_get b q.1 q.2 = Ok (Some p) → team p = enemy_of side →
                      ¬ threat b bma rma q p gp)) as Hbody.
  { intros [r c] Hq. destruct (board_get_on_board b _ Hwf Hq) as [x Hx].
    unfold body. simpl in *. rewrite Hx. simpl. destruct x as [p|].
    2:{ right. split; [done|]. by intros p [=]. }
    case_bool_decide as Ht.
    2:{ right. split; [done|]. intros p' [= <-]. done. }
    destruct (threatens_spec b (r, c) p ecr gp Hwf) as (raw & Hraw & Hthr).
    rewrite <-Ht. rewrite Hthr.
    destruct (can_capture (piece_type p)) eqn:Hcap; simpl.
    - case_bool_decide as Hin.
      + left. split; [done|]. exists p. split_and!; [done..|].
        split; [done|]. exists raw. split; [done|]. unfold ecr in Hin.
        by rewrite <-Ht in Hin.
      + right. split; [done|]. intros p' [= <-] _ (_ & raw' & Hraw' & Hin').
        apply Hin. unfold ecr. rewrite <-Ht.
        assert (raw' = raw) as -> by congruence. done.
    - right. split; [done|]. intros p' [= <-] _ (Hcap' & _). congruence. }
  destruct (scan_const body true) as [Hiff Hcases].
  { intros q Hq. destruct (Hbody q Hq) as [[-> _]|[-> _]]; auto. }
  fold body in Hiff, Hcases |- *.
  match goal with |- context [for_first ?l ?f] => change (for_first l f) with
    (for_first (range 10) (λ row, for_first (range 9) (λ col, body row col))) end.
  destruct Hcases as [Hn|Hs].
  - rewrite Hn. cbn [mbind exc_bind]. eexists. split; [done|]. split; [done|].
    intros (pos & p & Hpos & Hc & Ht & Hthr). exfalso.
    rewrite scan_None in Hn.
    destruct (Hbody pos Hpos) as [[Hs _]|[_ Hno]].
    + specialize (Hn pos Hpos). congruence.
    + by eapply Hno.
  - rewrite Hs. cbn [mbind exc_bind]. eexists. split; [done|]. split; [|done]. intros _.
    apply Hiff in Hs as (pos & Hpos & Hv).
    destruct (Hbody pos Hpos) as [[_ (p & ? & ? & ?)]|[Hn _]]; [|congruence].
    exists pos, p. done.
Qed.

Lemma is_general_in_check_absent b side bma rma :
  find_general b side = Ok None → is_general_in_check b side bma rma = Ok true.
Proof. intros Ho. unfold is_general_in_check. by rewrite Ho. Qed.

Lemma is_general_in_check_total b side bma rma :
  wf_board b → ∃ v, is_general_in_check b side bma rma = Ok v.
Proof.
  intros Hwf. destruct (find_general_spec b side Hwf) as ([gp|] & Ho & _).
  - destruct (is_general_in_check_found b side bma rma gp Hwf Ho) as (v & Hv & _).
    eauto.
  - exists true. by apply is_general_in_check_absent.
Qed.

(** C5.  On a board without the General of [side], [is_general_in_check]
    answers true.  Otherwise, with the General found at [gp], it answers
    true iff some piece of the other team that is an Attack, a Defense or a
    Support piece has [gp] among the destinations of its rule, once these
    are filtered by the retreat restriction of that other team; a Magic
    piece or a General never counts. *)
Theorem is_general_in_check_spec b side bma rma :
  wf_board b →
  ∃ o, find_general b side = Ok o
    ∧ match o with
      | None =>
          (∀ q, on_board q →
             board_get b q.1 q.2 ≠ Ok (Some (mkPiece GENERAL side)))
          ∧ is_general_in_check b side bma rma = Ok true
      | Some gp =>
          on_board gp
          ∧ board_get b gp.1 gp.2 = Ok (Some (mkPiece GENERAL side))
          ∧ ∃ v, is_general_in_check b side bma rma = Ok v
              ∧ (v = true ↔
                 ∃ pos p, on_board pos
                   ∧ board_get b pos.1 pos.2 = Ok (Some p)
                   ∧ team p = enemy_of side
                   ∧ threat b bma rma pos p gp)
      end.
Proof.
  intros Hwf. destruct (find_general_spec b side Hwf) as (o & Ho & Hspec).
  exists o. split; [done|]. destruct o as [gp|].
  - destruct Hspec as (Hgp & Hg & _). split_and!; [done..|].
    by apply is_general_in_check_found.
  - split; [done|]. by apply is_general_in_check_absent.
Qed.

(** ** is_checkmate and is_stalemate *)

Lemma simulate_move_spec b pos m :
  wf_board b → on_board pos → on_board m →
  ∃ tb, simulate_move b pos.1 pos.2 m = Ok tb ∧ relocated b pos m tb.
Proof.
  intros Hwf Hpos Hm. unfold simulate_move.
  destruct (board_get_on_board b pos Hwf Hpos) as [cell Hcell]. rewrite Hcell.
  cbn [mbind exc_bind].
  destruct (board_set_total b m.1 m.2 cell Hwf) as [b1 Hb1];
    [destruct Hm; lia..|].
  rewrite Hb1. cbn [mbind exc_bind].
  apply board_set_Ok in Hb1 as (_ & _ & Hwf1 & Hget1); [|done].
  destruct (board_set_total b1 pos.1 pos.2 None Hwf1) as [tb Htb];
    [destruct Hpos; lia..|].
  exists tb. split; [done|].
  apply board_set_Ok in Htb as (_ & _ & Hwf2 & Hget2); [|done].
  split; [done|]. intros q Hq. rewrite (Hget2 q Hq).
  rewrite <-surjective_pairing, (norm_pos_on_board pos) by done.
  case_bool_decide; [done|]. rewrite (Hget1 q Hq).
  rewrite <-surjective_pairing, (norm_pos_on_board m) by done.
  by case_bool_decide.
Qed.

Lemma get_valid_moves_on_board b pos side bma rma turn second frozen moves m :
  get_valid_moves b pos side bma rma turn second frozen = Ok moves → m ∈ moves →
  on_board m.
Proof.
  intros H Hm.
  destruct (get_valid_moves_elem _ _ _ _ _ _ _ _ _ _ H Hm) as (p & raw & _ & _ & Hraw & Hin).
  by apply (piece_moves_elem _ _ _ _ _ Hraw) in Hin as [? _].
Qed.

(** [is_checkmate] for a side that is not in check. *)
Lemma is_checkmate_not_in_check b side bma rma turn frozen :
  is_general_in_check b side bma rma = Ok false →
  is_checkmate b side bma rma turn frozen = Ok false.
Proof. intros Hchk. unfold is_checkmate. by rewrite Hchk. Qed.

(** [is_checkmate] for a side that is in check: the loops try every legal
    move of every piece of the side and look for one that lifts the check. *)
Lemma is_checkmate_in_check b side bma rma turn frozen :
  wf_board b → is_general_in_check b side bma rma = Ok true →
  ∃ v, is_checkmate b side bma rma turn frozen = Ok v
    ∧ (v = true ↔
       ∀ pos p moves m,
         on_board pos → board_get b pos.1 pos.2 = Ok (Some p) → team p = side →
         get_valid_moves b pos side bma rma turn false frozen = Ok moves →
         m ∈ moves →
         ∃ tb, simulate_move b pos.1 pos.2 m = Ok tb ∧ relocated b pos m tb
               ∧ is_general_in_check tb side bma rma = Ok true).
Proof.
  intros Hwf Hchk. unfold is_checkmate. rewrite Hchk. cbn [mbind exc_bind].
  simpl negb; cbv iota.
  set (try_move := λ (r c : Z) (move_to : Pos),
         test_board ← simulate_move b r c move_to;
         still ← is_general_in_check test_board side bma rma;
         if negb still then Ok (Some false) else Ok None).
  set (body := λ r c : Z,
         piece ← board_get b r c;
         match piece with
         | Some p =>
             if bool_decide (team p = side) then
               moves ← get_valid_moves b (r, c) side bma rma turn false frozen;
               for_first moves (try_move r c)
             else Ok None
         | None => Ok None
         end).
  change (for_first (range 10) _) with
    (for_first (range 10) (λ r, for_first (range 9) (λ c, body r c))).
  (* one candidate move *)
  assert (∀ pos m, on_board pos → on_board m →
            ∃ tb still, simulate_move b pos.1 pos.2 m = Ok tb ∧ relocated b pos m tb
              ∧ is_general_in_check tb side bma rma = Ok still
              ∧ try_move pos.1 pos.2 m = Ok (if still then None else Some false))
    as Htry.
  { intros pos m Hpos Hm.
    destruct (simulate_move_spec b pos m Hwf Hpos Hm) as (tb & Htb & Hrel).
    destruct (is_general_in_check_total tb side bma rma (proj1 Hrel)) as [still Hstill].
    exists tb, still. split_and!; [done..|]. unfold try_move.
    rewrite Htb. cbn [mbind exc_bind]. rewrite Hstill. cbn [mbind exc_bind].
    by destruct still. }
  (* one cell *)
  assert (∀ q, on_board q →
            (body q.1 q.2 = Ok None
             ∧ ∀ p moves m,
                 board_get b q.1 q.2 = Ok (Some p) → team p = side →
                 get_valid_moves b q side bma rma turn false frozen = Ok moves →
                 m ∈ moves →
                 ∃ tb, simulate_move b q.1 q.2 m = Ok tb ∧ relocated b q m tb
                       ∧ is_general_in_check tb side bma rma = Ok true)
            ∨ (body q.1 q.2 = Ok (Some false)
               ∧ ∃ p moves m tb,
                   board_get b q.1 q.2 = Ok (Some p) ∧ team p = side
                   ∧ get_valid_moves b q side bma rma turn false frozen = Ok moves
                   ∧ m ∈ moves ∧ simulate_move b q.1 q.2 m = Ok tb
                   ∧ is_general_in_check tb side bma rma = Ok false)) as Hbody.
  { intros q Hq. destruct (board_get_on_board b q Hwf Hq) as [cell Hcell].
    unfold body. rewrite Hcell. cbn [mbind exc_bind].
    destruct cell as [p|]; [|left; split; [done|]; by intros ? ? ? [=]].
    case_bool_decide as Ht;
      [|left; split; [done|]; intros ? ? ? [= <-]; done].
    destruct (get_valid_moves_total b q side bma rma turn false frozen Hwf)
      as [moves Hmoves]; [destruct Hq; lia..|].
    rewrite <-surjective_pairing, Hmoves. cbn [mbind exc_bind].
    destruct (for_first_const moves (try_move q.1 q.2) false) as [Hiff Hcases].
    { intros m Hm.
      destruct (Htry q m Hq) as (tb & still & _ & _ & _ & ->).
      - by eapply get_valid_moves_on_board.
      - destruct still; auto. }
    destruct Hcases as [Hn|Hs].
    - left. split; [done|]. intros p' moves' m [= <-] _ Hmoves' Hm.
      assert (moves' = moves) as -> by congruence.
      destruct (Htry q m Hq) as (tb & still & Htb & Hrel & Hstill & Hbody).
      { by eapply get_valid_moves_on_board. }
      exists tb. split_and!; [done..|].
      rewrite for_first_None in Hn. rewrite (Hn m Hm) in Hbody.
      by destruct still.
    - right. split; [done|]. apply Hiff in Hs as (m & Hm & Hbody).
      destruct (Htry q m Hq) as (tb & still & Htb & Hrel & Hstill & Hbody').
      { by eapply get_valid_moves_on_board. }
      rewrite Hbody in Hbody'. destruct still; [done|].
      exists p, moves, m, tb. done. }
  destruct (scan_const body false) as [Hiff Hcases].
  { intros q Hq. destruct (Hbody q Hq) as [[-> _]|[-> _]]; auto. }
  destruct Hcases as [Hn|Hs].
  - rewrite Hn. cbn [mbind exc_bind]. exists true. split; [done|].
    split; [|done]. intros _ pos p moves m Hpos Hc Ht Hmoves Hm.
    rewrite scan_None in Hn.
    destruct (Hbody pos Hpos) as [[_ Hall]|[Hs _]].
    + by eapply Hall.
    + specialize (Hn pos Hpos). congruence.
  - rewrite Hs. cbn [mbind exc_bind]. exists false. split; [done|].
    split; [done|]. intros Hall. exfalso.
    apply Hiff in Hs as (pos & Hpos & Hv).
    destruct (Hbody pos Hpos) as [[Hn _]|[_ (p & moves & m & tb & Hc & Ht & Hmoves & Hm & Htb & Hstill)]];
      [congruence|].
    destruct (Hall pos p moves m Hpos Hc Ht Hmoves Hm) as (tb' & Htb' & _ & Hstill').
    congruence.
Qed.

Lemma is_checkmate_total b side bma rma turn frozen :
  wf_board b → ∃ v, is_checkmate b side bma rma turn frozen = Ok v.
Proof.
  intros Hwf. destruct (is_general_in_check_total b side bma rma Hwf) as [[|] Hchk].
  - destruct (is_checkmate_in_check b side bma rma turn frozen Hwf Hchk) as (v & Hv & _).
    eauto.
  - exists false. by apply is_checkmate_not_in_check.
Qed.

(** C1.  [is_checkmate] answers false when [side] is not in check.  When it
    is, the answer is true iff for every piece of [side] and every legal
    destination of it (computed with [is_second_move] false), the board with
    the source emptied and the destination overwritten by the moved piece
    still has the General of [side] in check, under the same magic-alive
    flags. *)
Theorem is_checkmate_spec b side bma rma turn frozen :
  wf_board b →
  ∃ chk v,
    is_general_in_check b side bma rma = Ok chk
    ∧ is_checkmate b side bma rma turn frozen = Ok v
    ∧ (chk = false → v = false)
    ∧ (chk = true →
       (v = true ↔
        ∀ pos p moves m,
          on_board pos → board_get b pos.1 pos.2 = Ok (Some p) → team p = side →
          get_valid_moves b pos side bma rma turn false frozen = Ok moves →
          m ∈ moves →
          ∃ tb, simulate_move b pos.1 pos.2 m = Ok tb ∧ relocated b pos m tb
                ∧ is_general_in_check tb side bma rma = Ok true)).
Proof.
  intros Hwf. destruct (is_general_in_check_total b side bma rma Hwf) as [chk Hchk].
  exists chk. destruct chk.
  - destruct (is_checkmate_in_check b side bma rma turn frozen Hwf Hchk) as (v & Hv & Hiff).
    exists v. split_and!; [done..|]. by intros _.
  - exists false. split_and!; [done| |done..].
    by apply is_checkmate_not_in_check.
Qed.

Lemma is_stalemate_total b side bma rma turn frozen :
  wf_board b → ∃ v, is_stalemate b side bma rma turn frozen = Ok v.
Proof.
  intros Hwf. unfold is_stalemate.
  set (body := λ row col : Z,
         piece ← board_get b row col;
         match piece with
         | Some p =>
             if bool_decide (team p = side) then
               moves ← get_valid_moves b (row, col) side bma rma turn false frozen;
               match moves with
               | [] => Ok None
               | _ :: _ => Ok (Some false)
               end
             else Ok None
         | None => Ok None
         end).
  destruct (scan_total body) as [o Ho].
  { intros q Hq. destruct (board_get_on_board b q Hwf Hq) as [cell Hcell].
    unfold body. rewrite Hcell. cbn [mbind exc_bind].
    destruct cell as [p|]; [|eauto]. case_bool_decide; [|eauto].
    destruct (get_valid_moves_total b q side bma rma turn false frozen Hwf)
      as [moves Hmoves]; [destruct Hq; lia..|].
    rewrite <-surjective_pairing, Hmoves. cbn [mbind exc_bind].
    destruct moves; eauto. }
  change (for_first (range 10) _) with
    (for_first (range 10) (λ r, for_first (range 9) (λ c, body r c))).
  rewrite Ho. cbn [mbind exc_bind]. destruct o; eauto.
Qed.

(** ** make_move *)

Lemma get_frozen_positions_total g :
  wf_board (board g) → ∃ l, get_frozen_positions g = Ok l.
Proof.
  intros Hwf. unfold get_frozen_positions. destruct (_ && _ && _); [|eauto].
  apply for_extend_total. intros r Hr%elem_of_range.
  apply for_extend_total. intros c Hc%elem_of_range.
  destruct (board_get_total (board g) r c) as [x ->]; [done|lia..|].
  cbn [mbind exc_bind]. destruct x as [p|]; [case_bool_decide|]; eauto.
Qed.

(** The last part of [make_move] on a well-formed board: the turn is
    switched and, if the game is still in progress, the status may become
    final; nothing else changes, and the call returns its dictionary. *)
Lemma switch_turn_spec g result :
  wf_board (board g) →
  ∃ st,
    switch_turn g result =
      (Ok (Success (mkMoveResult (captured result)
                      (if bool_decide (st = status g) then game_status result else st)
                      (double_move result) (waiting_second_move result))),
       set_status st (next_turn g))
    ∧ (status g ≠ PLAYING → st = status g)
    ∧ (st = status g ∨ st = RED_WIN ∨ st = BLUE_WIN ∨ st = DRAW).
Proof.
  intros Hwf. unfold switch_turn. fold (next_turn g).
  assert (wf_board (board (next_turn g))) as Hwf'.
  { unfold next_turn. by case_bool_decide. }
  assert (status (next_turn g) = status g) as Hst.
  { unfold next_turn. by case_bool_decide. }
  assert (∀ h, set_status (status h) h = h) as Heta by (by intros []).
  assert (∀ r, mkMoveResult (captured r) (game_status r) (double_move r)
                 (waiting_second_move r) = r) as Heta' by (by intros []).
  case_bool_decide as Hp.
  2:{ exists (status g). rewrite bool_decide_true by done.
      replace (set_status (status g) (next_turn g)) with (next_turn g)
        by (by rewrite <-Hst, Heta).
      rewrite Heta'. split_and!; auto. }
  destruct (get_frozen_positions_total _ Hwf') as [fr ->].
  destruct (is_checkmate_total (board (next_turn g)) (current_team (next_turn g))
              (blue_magic_alive (next_turn g)) (red_magic_alive (next_turn g))
              (turn_number (next_turn g)) fr Hwf') as [[|] ->].
  - case_bool_decide.
    + exists RED_WIN. rewrite bool_decide_false by congruence.
      split_and!; [done|congruence|auto].
    + exists BLUE_WIN. rewrite bool_decide_false by congruence.
      split_and!; [done|congruence|auto].
  - destruct (is_stalemate_total (board (next_turn g)) (current_team (next_turn g))
                (blue_magic_alive (next_turn g)) (red_magic_alive (next_turn g))
                (turn_number (next_turn g)) fr Hwf') as [[|] ->].
    + exists DRAW. rewrite bool_decide_false by congruence.
      split_and!; [done|congruence|auto].
    + exists (status g). rewrite bool_decide_true by done.
      replace (set_status (status g) (next_turn g)) with (next_turn g)
        by (by rewrite <-Hst, Heta).
      rewrite Heta'. split_and!; auto.
Qed.

(** Without the shape of the board, the same part of [make_move] for a game
    that has just ended: there is nothing left to evaluate. *)
Lemma switch_turn_over g result :
  status g ≠ PLAYING → switch_turn g result = (Ok (Success result), next_turn g).
Proof.
  intros Hst. unfold switch_turn. fold (next_turn g).
  assert (status (next_turn g) = status g) as ->.
  { unfold next_turn. by case_bool_decide. }
  by rewrite bool_decide_false.
Qed.

(** The requests that [make_move] turns down, and what it answers. *)
Lemma make_move_game_cases g move player_id :
  (∃ e, make_move_game g move player_id = (Ok (Failure e), g)
        ∧ ∀ piece, ¬ accepted g move player_id piece)
  ∨ (∃ e, make_move_game g move player_id = (Err e, g)
          ∧ ∀ piece, ¬ accepted g move player_id piece)
  ∨ (∃ piece, accepted g move player_id piece
       ∧ make_move_game g move player_id = execute_move g move piece).
Proof.
  unfold make_move_game, accepted. destruct move as [[from_row from_col] to].
  cbn [from_pos to_pos fst snd].
  case_bool_decide as Hst; [left; eexists; split; [done|]; by intros ? (? & _)|].
  try apply dec_stable in Hst.
  destruct (not_your_turn g player_id) eqn:Hturn;
    [left; eexists; split; [done|]; by intros ? (_ & ? & _)|].
  destruct (board_get (board g) from_row from_col) as [[piece|]|e] eqn:Hpiece;
    [|left; eexists; split; [done|]; by intros ? (_ & _ & ? & _)
     |right; left; eexists; split; [done|]; by intros ? (_ & _ & ? & _)].
  case_bool_decide as Hteam.
  { left; eexists; split; [done|]. intros ? (_ & _ & [= <-] & ? & _). done. }
  try apply dec_stable in Hteam.
  destruct (get_frozen_positions g) as [frozen|e] eqn:Hfrozen.
  2:{ right; left; eexists; split; [done|].
      intros ? (_ & _ & _ & _ & _ & ? & ? & ? & _). done. }
  destruct (red_first_move_done g && red_double_move_active g) eqn:Hsecond;
    cbn [andb].
  - case_bool_decide as Hsame.
    { left; eexists; split; [done|]. intros ? (_ & _ & _ & _ & Hs & _). auto. }
    try apply dec_stable in Hsame.
    destruct (get_valid_moves _ _ _ _ _ _ _ _) as [valid_moves|e] eqn:Hvalid.
    2:{ right; left; eexists; split; [done|].
        intros ? (_ & _ & _ & _ & _ & ? & ? & [= <-] & ? & _). congruence. }
    case_bool_decide as Hin.
    { left; eexists; split; [done|].
      intros ? (_ & _ & _ & _ & _ & ? & ? & [= <-] & ? & ?). congruence. }
    try apply dec_stable in Hin. right; right. exists piece.
    split; [|done]. split_and!; [done..|]. eauto.
  - destruct (get_valid_moves _ _ _ _ _ _ _ _) as [valid_moves|e] eqn:Hvalid.
    2:{ right; left; eexists; split; [done|].
        intros ? (_ & _ & _ & _ & _ & ? & ? & [= <-] & ? & _). congruence. }
    case_bool_decide as Hin.
    { left; eexists; split; [done|].
      intros ? (_ & _ & _ & _ & _ & ? & ? & [= <-] & ? & ?). congruence. }
    try apply dec_stable in Hin. right; right. exists piece.
    split; [|done]. split_and!; [done..|]. eauto.
Qed.

Lemma next_turn_set_double_move a d p g :
  next_turn (set_double_move a d p g) = next_turn g.
Proof. unfold next_turn. simpl. by case_bool_decide. Qed.

(** The turn-11 logic of [make_move] on a well-formed board: either a second
    move is left pending and nothing else happens, or the turn is switched. *)
Lemma double_move_logic_spec g move result :
  wf_board (board g) →
  if second_move_pending g move then
    double_move_logic g move result =
      (Ok (Success (mkMoveResult (captured result) (game_status result) true true)),
       set_double_move true true (Some (to_pos move)) g)
  else
    ∃ st,
      double_move_logic g move result =
        (Ok (Success (mkMoveResult (captured result)
                        (if bool_decide (st = status g) then game_status result else st)
                        (double_move result) (waiting_second_move result))),
         set_status st (next_turn g))
      ∧ (status g ≠ PLAYING → st = status g)
      ∧ (st = status g ∨ st = RED_WIN ∨ st = BLUE_WIN ∨ st = DRAW).
Proof.
  intros Hwf. unfold second_move_pending, double_move_logic.
  destruct (bool_decide (turn_number g = 11) && bool_decide (current_team g = RED)
            && red_magic_alive g && bool_decide (status g = PLAYING));
    cbn [andb].
  - destruct (red_first_move_done g); cbn [negb andb].
    + rewrite <-(next_turn_set_double_move false false None g).
      apply (switch_turn_spec (set_double_move false false None g)). done.
    + destruct (_ && _); [done|]. by apply switch_turn_spec.
  - by apply switch_turn_spec.
Qed.

Lemma switch_turn_not_Failure g result e g' :
  switch_turn g result ≠ (Ok (Failure e), g').
Proof.
  unfold switch_turn. repeat case_match; congruence.
Qed.

Lemma double_move_logic_not_Failure g move result e g' :
  double_move_logic g move result ≠ (Ok (Failure e), g').
Proof.
  unfold double_move_logic.
  repeat case_match; try congruence; apply switch_turn_not_Failure.
Qed.

Lemma execute_move_not_Failure g move piece e g' :
  execute_move g move piece ≠ (Ok (Failure e), g').
Proof.
  unfold execute_move. destruct move as [[? ?] [? ?]]. cbn [from_pos to_pos].
  repeat case_match; try congruence; apply double_move_logic_not_Failure.
Qed.

(** What an accepted move does on a well-formed board: the piece goes to
    the destination, which was empty or held a piece of the other team; the
    capture has its effects and the move is logged; then either a second move
    is left pending, or the turn is switched and the status settled. *)
Lemma make_move_game_accepted g move player_id piece :
  wf_board (board g) → accepted g move player_id piece →
  ∃ cp b,
    board_get (board g) (to_pos move).1 (to_pos move).2 = Ok cp
    ∧ (cp = None ∨ ∃ t, cp = Some t ∧ team t ≠ team piece)
    ∧ on_board (to_pos move)
    ∧ (piece_type piece = GENERAL →
       to_pos move ∈ match team piece with
                     | BLUE => get_blue_palace
                     | RED => get_red_palace
                     end)
    ∧ relocated (board g) (norm_pos (from_pos move)) (to_pos move) b
    ∧ board_get (board g) (norm_pos (from_pos move)).1 (norm_pos (from_pos move)).2
      = Ok (Some piece)
    ∧ let g1 := moved g move cp b in
      if second_move_pending g1 move then
        make_move_game g move player_id =
          (Ok (Success (mkMoveResult cp (status g1) true true)),
           set_double_move true true (Some (to_pos move)) g1)
      else
        ∃ st,
          make_move_game g move player_id =
            (Ok (Success (mkMoveResult cp st false false)), set_status st (next_turn g1))
          ∧ (status g1 ≠ PLAYING → st = status g1)
          ∧ (st = status g1 ∨ st = RED_WIN ∨ st = BLUE_WIN ∨ st = DRAW).
Proof.
  intros Hwf Hacc.
  destruct (make_move_game_cases g move player_id)
    as [(e & _ & Hno)|[(e & _ & Hno)|(piece' & Hacc' & ->)]];
    [by destruct (Hno piece)..|].
  assert (piece' = piece) as ->.
  { destruct Hacc as (_ & _ & H1 & _), Hacc' as (_ & _ & H2 & _). congruence. }
  clear Hacc'.
  destruct Hacc as (Hst & Hturn & Hpiece & Hteam & Hsecond & fr & vm & Hfr & Hvm & Hin).
  destruct (get_valid_moves_elem _ _ _ _ _ _ _ _ _ _ Hvm Hin)
    as (piece' & raw & Hpiece' & _ & Hraw & Hin').
  assert (piece' = piece) as -> by congruence.
  destruct (piece_moves_elem _ _ _ _ _ Hraw Hin') as (Hon & _ & Htarget).
  pose proof (λ Hg, general_moves_in_palace _ _ _ _ _ Hg Hraw Hin') as Hpalace.
  destruct move as [[from_row from_col] [to_row to_col]].
  cbn [from_pos to_pos fst snd] in *.
  pose proof Hpiece as (Hr & Hc & _)%board_get_Ok; [|done].
  pose proof (board_get_norm _ _ _ Hwf Hr Hc) as Hnorm. rewrite Hpiece in Hnorm.
  assert (on_board (norm_pos (from_row, from_col))) as Hfrom.
  { unfold norm_pos, on_board; simpl. repeat case_bool_decide; lia. }
  destruct (board_get_on_board _ _ Hwf Hon) as [cp Hcp]. cbn [fst snd] in Hcp.
  destruct (board_set_total (board g) to_row to_col (Some piece) Hwf) as [b1 Hb1];
    [destruct Hon; simpl in *; lia..|].
  pose proof Hb1 as (_ & _ & Hwf1 & Hget1)%board_set_Ok; [|done].
  destruct (board_set_total b1 from_row from_col None Hwf1) as [b Hb]; [lia..|].
  pose proof Hb as (_ & _ & Hwf2 & Hget2)%board_set_Ok; [|done].
  exists cp, b. split_and!; [done| |done|done| |done|].
  - destruct Htarget as [?|(t & ? & ?)]; [left|right]; [congruence|].
    exists t. split; [congruence|done].
  - split; [done|]. intros q Hq. rewrite (Hget2 q Hq).
    case_bool_decide; [done|]. rewrite (Hget1 q Hq).
    rewrite (norm_pos_on_board (to_row, to_col)) by done.
    case_bool_decide; [|done]. by rewrite <-Hnorm.
  - cbn zeta.
    assert (execute_move g (mkMove (from_row, from_col) (to_row, to_col)) piece
            = double_move_logic (moved g (mkMove (from_row, from_col) (to_row, to_col)) cp b)
                (mkMove (from_row, from_col) (to_row, to_col))
                (mkMoveResult cp
                   (status (moved g (mkMove (from_row, from_col) (to_row, to_col)) cp b))
                   false false)) as ->.
    { unfold execute_move. cbn [from_pos to_pos]. rewrite Hcp, Hb1.
      cbn [board set_board]. rewrite Hb. done. }
    set (g1 := moved g _ cp b).
    assert (wf_board (board g1)) as Hwfg1.
    { unfold g1, moved, capture_effects. simpl. by repeat case_match. }
    pose proof (double_move_logic_spec g1 (mkMove (from_row, from_col) (to_row, to_col))
                  (mkMoveResult cp (status g1) false false) Hwfg1) as Hdm.
    destruct (second_move_pending g1 _); [done|].
    destruct Hdm as (st & -> & Hst1 & Hst2). exists st. split_and!; [|done..].
    simpl. by case_bool_decide; subst.
Qed.

(** ** The Attack rule *)

Lemma ray_cell_between pos d j k :
  is_direction d → on_board pos → on_board (ray_cell pos d k) → 0 ≤ j ≤ k →
  on_board (ray_cell pos d j).
Proof.
  destruct pos as [r c], d as [d_row d_col].
  unfold is_direction, on_board, ray_cell; simpl. intros (? & ? & _) ? ? ?.
  assert (d_row = -1 ∨ d_row = 0 ∨ d_row = 1) as [-> | [-> | ->]] by lia;
    assert (d_col = -1 ∨ d_col = 0 ∨ d_col = 1) as [-> | [-> | ->]] by lia; lia.
Qed.

(** The cells that the loop over the directions yields, for a piece that
    stands on the board: those of its rays that lie behind empty cells only
    and are empty, or hold an enemy piece that the ray may take. *)
Lemma rays_iff b piece cap dirs pos l :
  on_board pos → (∀ d, d ∈ dirs → is_direction d) →
  for_extend dirs (λ '(d_row, d_col),
    ray_moves ray_fuel b piece (cap d_row d_col) d_row d_col
      (pos.1 + d_row) (pos.2 + d_col)) = Ok l →
  ∀ m, m ∈ l ↔
    ∃ d k, d ∈ dirs ∧ m = ray_cell pos d k ∧ ray_clear b pos d k
      ∧ (empty_at b m ∨ cap d.1 d.2 = true ∧ enemy_at b (team piece) m).
Proof.
  intros Hpos Hdirs H m. destruct pos as [row col]. cbn [fst snd] in H. split.
  - intros Hm.
    destruct (rays_elem b piece cap dirs row col l m H Hm)
      as (d & k & Hd & Hk & -> & Hon & Hbefore & Hcell).
    exists d, k. split_and!; [done..| |done].
    split_and!; [done..|]. intros j Hj. by apply Hbefore.
  - intros (d & k & Hd & -> & (Hk & Hon & Hbefore) & Hcell).
    apply (rays_reach b piece cap dirs row col l d k Hdirs H Hd Hk); [|done..].
    intros j Hj. split; [|by apply Hbefore].
    apply (ray_cell_between _ _ j k); [by apply Hdirs|done..|lia].
Qed.

(** C7.  An Attack piece on the board reaches exactly the cells of its rank
    and file that have only empty cells between the piece and them and that
    are empty or, on its file only, hold a piece of the other team: each ray
    stops at its first occupied cell, which is a destination only on a file
    ray and only when it holds an enemy piece.  So the destinations never
    include an occupied cell of the piece's own rank, always include the
    first occupied cell of a file ray when it holds an enemy piece, and
    include every empty cell of a ray that lies before the first occupied
    cell or the edge of the board. *)
Theorem attack_moves_spec b pos piece :
  wf_board b → on_board pos →
  ∃ moves, _get_attack_moves b pos piece = Ok moves
    ∧ (∀ m, m ∈ moves ↔
         ∃ d k, d ∈ orthogonal_directions ∧ m = ray_cell pos d k
           ∧ ray_clear b pos d k
           ∧ (empty_at b m ∨ d.2 = 0 ∧ enemy_at b (team piece) m))
    ∧ (∀ m, m ∈ moves → m.1 = pos.1 → board_get b m.1 m.2 = Ok None)
    ∧ (∀ d k t,
         d = (-1, 0) ∨ d = (1, 0) → 1 ≤ k → on_board (ray_cell pos d k) →
         (∀ j, 1 ≤ j < k →
            board_get b (ray_cell pos d j).1 (ray_cell pos d j).2 = Ok None) →
         board_get b (ray_cell pos d k).1 (ray_cell pos d k).2 = Ok (Some t) →
         team t ≠ team piece →
         ray_cell pos d k ∈ moves)
    ∧ (∀ d k,
         d ∈ orthogonal_directions → 1 ≤ k → on_board (ray_cell pos d k) →
         (∀ j, 1 ≤ j ≤ k →
            board_get b (ray_cell pos d j).1 (ray_cell pos d j).2 = Ok None) →
         ray_cell pos d k ∈ moves).
Proof.
  intros Hwf Hpos.
  destruct (rays_total b piece (λ _ d_col, bool_decide (d_col = 0))
              orthogonal_directions pos.1 pos.2 Hwf orthogonal_is_direction)
    as [moves Hmoves].
  pose proof (rays_iff b piece (λ _ d_col, bool_decide (d_col = 0)) _ pos moves
                Hpos orthogonal_is_direction Hmoves) as Hiff.
  assert (∀ m, m ∈ moves ↔
            ∃ d k, d ∈ orthogonal_directions ∧ m = ray_cell pos d k
              ∧ ray_clear b pos d k
              ∧ (empty_at b m ∨ d.2 = 0 ∧ enemy_at b (team piece) m)) as Hiff'.
  { intros m. rewrite Hiff. by setoid_rewrite bool_decide_eq_true. }
  exists moves. split; [by destruct pos|]. split_and!.
  - done.
  - intros m (d & k & Hd & -> & (Hk & _) & [Hc|[Hcap _]])%Hiff' Hrow; [done|].
    apply orthogonal_is_direction in Hd as (_ & _ & Hd).
    unfold ray_cell in Hrow; simpl in Hrow. nia.
  - intros d k t Hd Hk Hon Hbefore Hc Ht. apply Hiff'.
    exists d, k. split_and!; [|done| |].
    + unfold orthogonal_directions. destruct Hd as [-> | ->]; [by left|by right; left].
    + split_and!; done.
    + right. split; [by destruct Hd as [-> | ->]|]. exists t. done.
  - intros d k Hd Hk Hon Hempty. apply Hiff'.
    exists d, k. split_and!; [done..| |].
    + split_and!; [done..|]. intros j Hj. apply Hempty. lia.
    + left. apply Hempty. lia.
Qed.

(** ** The states a game goes through *)

#[global] Arguments moved : simpl never.
#[global] Arguments next_turn : simpl never.

Lemma moved_fields g move cp b :
  let g1 := moved g move cp b in
  board g1 = b
  ∧ turn_untouched g g1
  ∧ game_id g1 = game_id g ∧ mode g1 = mode g
  ∧ blue_player_id g1 = blue_player_id g ∧ red_player_id g1 = red_player_id g
  ∧ move_history g1 =
      move_history g ++ [mkHistoryEntry (turn_number g) (current_team g) move cp]
  ∧ blue_magic_alive g1 =
      blue_magic_alive g && negb (bool_decide (cp = Some (mkPiece MAGIC BLUE)))
  ∧ red_magic_alive g1 =
      red_magic_alive g && negb (bool_decide (cp = Some (mkPiece MAGIC RED)))
  ∧ status g1 =
      match cp with
      | Some (mkPiece GENERAL t) => win_of (enemy_of t)
      | _ => status g
      end.
Proof.
  unfold moved, turn_untouched.
  destruct cp as [[[] []]|]; simpl; rewrite ?andb_true_r, ?andb_false_r; done.
Qed.

Lemma next_turn_fields g :
  current_team (next_turn g) = enemy_of (current_team g)
  ∧ turn_number (next_turn g)
    = (if bool_decide (current_team g = BLUE) then turn_number g + 1 else turn_number g)
  ∧ red_double_move_active (next_turn g) = false
  ∧ red_first_move_done (next_turn g) = false
  ∧ red_first_move_pos (next_turn g) = None
  ∧ board (next_turn g) = board g ∧ status (next_turn g) = status g
  ∧ blue_magic_alive (next_turn g) = blue_magic_alive g
  ∧ red_magic_alive (next_turn g) = red_magic_alive g
  ∧ move_history (next_turn g) = move_history g.
Proof. unfold next_turn. destruct (current_team g) eqn:E; simpl; rewrite ?E; done. Qed.

Lemma set_status_same g : set_status (status g) g = g.
Proof. by destruct g. Qed.

Lemma create_initial_board_layout : create_initial_board = layout.
Proof. reflexivity. Qed.

Lemma layout_get q :
  on_board q → board_get layout q.1 q.2 = Ok (layout_cell q.1 q.2).
Proof.
  destruct q as [r c]. intros [Hr Hc]; simpl in *.
  assert (wf_board layout) as Hwf by (split; [reflexivity|repeat constructor]).
  apply board_get_Ok; [done|]. rewrite (norm_pos_on_board (r, c)) by done. simpl.
  split; [lia|]. split; [lia|].
  exists ((λ col, layout_cell r col) <$> range 9). unfold layout, range. split.
  - rewrite list_lookup_fmap.
    rewrite (proj2 (lookup_seqZ 0 (Z.of_nat 10) (Z.to_nat r) r)) by lia. done.
  - rewrite list_lookup_fmap.
    rewrite (proj2 (lookup_seqZ 0 (Z.of_nat 9) (Z.to_nat c) c)) by lia. done.
Qed.

Lemma create_initial_board_wf : wf_board create_initial_board.
Proof. split; [reflexivity|repeat constructor]. Qed.

Lemma create_initial_board_generals : generals_at_home create_initial_board.
Proof.
  intros q t Hq. rewrite create_initial_board_layout, layout_get by done.
  unfold layout_cell. destruct Hq as [Hr Hc].
  repeat case_bool_decide; intros [= <-]; try done;
    apply elem_of_zone_positions; lia.
Qed.

Lemma create_game_board fresh_id mode player_id :
  board (create_game fresh_id mode player_id) = create_initial_board.
Proof. unfold create_game. by destruct (_ && _). Qed.

(** What a call of [make_move] does to the game, on a well-formed board:
    nothing, when the request is turned down or raises; otherwise what
    [make_move_game_accepted] says. *)
Lemma make_move_game_turned_down g move player_id :
  (∀ piece, ¬ accepted g move player_id piece) →
  (make_move_game g move player_id).2 = g
  ∧ ∀ r, (make_move_game g move player_id).1 ≠ Ok (Success r).
Proof.
  intros Hno.
  destruct (make_move_game_cases g move player_id)
    as [(e & -> & _)|[(e & -> & _)|(piece & Hacc & _)]]; [done..|].
  by destruct (Hno piece).
Qed.

Lemma accepted_dec g move player_id :
  (∃ piece, accepted g move player_id piece)
  ∨ (∀ piece, ¬ accepted g move player_id piece).
Proof.
  destruct (make_move_game_cases g move player_id)
    as [(e & _ & ?)|[(e & _ & ?)|(piece & Hacc & _)]]; eauto.
Qed.

Lemma make_move_game_inv g move player_id :
  wf_board (board g) → generals_at_home (board g) →
  wf_board (board (make_move_game g move player_id).2)
  ∧ generals_at_home (board (make_move_game g move player_id).2).
Proof.
  intros Hwf Hhome.
  destruct (accepted_dec g move player_id) as [[piece Hacc]|Hno].
  2:{ by rewrite (proj1 (make_move_game_turned_down _ _ _ Hno)). }
  destruct (make_move_game_accepted g move player_id piece Hwf Hacc)
    as (cp & b & Hcp & Htarget & Hon & Hpalace & [Hwfb Hrel] & Hpiece & Hres).
  cbn zeta in Hres.
  pose proof (moved_fields g move cp b) as (Hb & _). cbn zeta in Hb.
  assert (board (make_move_game g move player_id).2 = b) as ->.
  { destruct (second_move_pending _ _).
    - rewrite Hres. done.
    - destruct Hres as (st & -> & _). simpl. unfold next_turn.
      by case_bool_decide. }
  split; [done|]. intros q t Hq. rewrite (Hrel q Hq).
  case_bool_decide; [done|]. case_bool_decide as Hto; [|by apply Hhome].
  rewrite Hpiece. intros [= ->]. subst q. by apply Hpalace.
Qed.

Lemma run_op_inv g op :
  wf_board (board g) → generals_at_home (board g) →
  wf_board (board (run_op g op)) ∧ generals_at_home (board (run_op g op)).
Proof.
  intros Hwf Hhome. destruct op as [move player_id|player_id|player_id]; simpl.
  - by apply make_move_game_inv.
  - unfold skip_second_move_game. by destruct (_ || _).
  - unfold join_game_game. by repeat case_match.
Qed.

Lemma reachable_inv g :
  reachable g → wf_board (board g) ∧ generals_at_home (board g).
Proof.
  induction 1 as [fresh_id mode player_id|g op _ [IH1 IH2]].
  - rewrite create_game_board.
    split; [apply create_initial_board_wf|apply create_initial_board_generals].
  - by apply run_op_inv.
Qed.

Lemma reachable_foldl g ops : reachable g → reachable (foldl run_op g ops).
Proof.
  revert g. induction ops as [|op ops IH]; intros g Hg; [done|].
  simpl. apply IH. by constructor.
Qed.

(** On a well-formed board an accepted move goes through, and a call that
    went through was an accepted move. *)
Lemma make_move_game_accepted_Success g move player_id piece :
  wf_board (board g) → accepted g move player_id piece →
  ∃ cp b r g',
    make_move_game g move player_id = (Ok (Success r), g')
    ∧ applied g move piece cp b r g'.
Proof.
  intros Hwf Hacc.
  destruct (make_move_game_accepted g move player_id piece Hwf Hacc)
    as (cp & b & Hcp & Htarget & Hon & _ & Hrel & Hpiece & Hres).
  cbn zeta in Hres. exists cp, b. unfold applied. cbn zeta.
  destruct (second_move_pending _ _).
  - do 2 eexists. split; [exact Hres|]. split_and!; done.
  - destruct Hres as (st & Hres & ? & ?). do 2 eexists. split; [exact Hres|].
    split_and!; [done..|]. exists st. done.
Qed.

Lemma make_move_game_Success g move player_id r g' :
  wf_board (board g) →
  make_move_game g move player_id = (Ok (Success r), g') →
  ∃ piece cp b, accepted g move player_id piece ∧ applied g move piece cp b r g'.
Proof.
  intros Hwf Hmove.
  destruct (accepted_dec g move player_id) as [[piece Hacc]|Hno].
  - destruct (make_move_game_accepted_Success g move player_id piece Hwf Hacc)
      as (cp & b & r' & g'' & Hmove' & Happ).
    rewrite Hmove in Hmove'. injection Hmove' as <- <-. eauto.
  - destruct (make_move_game_turned_down _ _ _ Hno) as [_ H].
    rewrite Hmove in H. by destruct (H r).
Qed.

(** A call that did not go through left the game as it was. *)
Lemma make_move_game_no_Success g move player_id :
  wf_board (board g) →
  (∀ r, (make_move_game g move player_id).1 ≠ Ok (Success r)) →
  (make_move_game g move player_id).2 = g.
Proof.
  intros Hwf Hno.
  destruct (accepted_dec g move player_id) as [[piece Hacc]|Hno'].
  - destruct (make_move_game_accepted_Success g move player_id piece Hwf Hacc)
      as (cp & b & r' & g'' & Hmove' & _).
    rewrite Hmove' in Hno. by destruct (Hno r').
  - by apply make_move_game_turned_down.
Qed.

(** A first move is recorded only in a game in progress, at Red's turn 11. *)
Lemma reachable_pending g :
  reachable g → red_first_move_done g = true →
  status g = PLAYING ∧ red_double_move_active g = true
  ∧ current_team g = RED ∧ turn_number g = 11.
Proof.
  induction 1 as [fresh_id mode player_id|g op Hreach IH].
  { unfold create_game. by destruct (_ && _). }
  destruct (reachable_inv g Hreach) as [Hwf _].
  destruct op as [move player_id|player_id|player_id]; cbn.
  - destruct (accepted_dec g move player_id) as [[piece Hacc]|Hno].
    2:{ by rewrite (proj1 (make_move_game_turned_down _ _ _ Hno)). }
    destruct (make_move_game_accepted_Success g move player_id piece Hwf Hacc)
      as (cp & b & r & g' & -> & _ & _ & _ & _ & _ & Hres).
    cbn zeta in Hres. cbn.
    destruct (second_move_pending (moved g move cp b) move) eqn:Hpend.
    + destruct Hres as [_ ->]. cbn. intros _.
      unfold second_move_pending in Hpend.
      repeat (apply andb_prop in Hpend as [Hpend ?]).
      repeat match goal with H : bool_decide _ = true |- _ =>
        apply bool_decide_eq_true in H end.
      done.
    + destruct Hres as (st & _ & -> & _). cbn.
      by rewrite (proj1 (proj2 (proj2 (proj2 (next_turn_fields _))))).
  - unfold skip_second_move_game. by destruct (_ || _).
  - unfold join_game_game. repeat case_match; try done. cbn.
    intros Hdone. by destruct (IH Hdone) as (_ & ? & ? & ?).
Qed.

(** ** The initial match *)

(** C9 as stated fails for an online game, which waits for its second
    player. *)
Lemma create_game_online_not_playing :
  status (create_game "0a1b2c3d" ONLINE (Some "alice")) ≠ PLAYING.
Proof. vm_compute. discriminate. Qed.

(** C9, amended.  Every game that [create_game] makes starts from the fixed
    layout (for each team six Attack pieces on the outer columns of the back
    rank, two Support pieces on each side of the General on its centre
    columns, eight Defense pieces two rows inward and the Magic piece at the
    centre of that rank), with Red to move, turn number 1, both magic-alive
    flags true, nothing pending and an empty log; its status is Playing in
    the local and AI modes and Waiting in the online mode. *)
Theorem create_game_initial fresh_id mode player_id :
  let g := create_game fresh_id mode player_id in
  board g = layout
  ∧ (∀ t, count_pieces (mkPiece ATTACK t) (board g) = 6%nat
          ∧ count_pieces (mkPiece SUPPORT t) (board g) = 2%nat
          ∧ count_pieces (mkPiece GENERAL t) (board g) = 1%nat
          ∧ count_pieces (mkPiece DEFENSE t) (board g) = 8%nat
          ∧ count_pieces (mkPiece MAGIC t) (board g) = 1%nat)
  ∧ current_team g = RED
  ∧ turn_number g = 1
  ∧ blue_magic_alive g = true
  ∧ red_magic_alive g = true
  ∧ red_double_move_active g = false
  ∧ red_first_move_done g = false
  ∧ red_first_move_pos g = None
  ∧ move_history g = []
  ∧ status g = (if bool_decide (mode = ONLINE) then WAITING else PLAYING).
Proof.
  cbn zeta. rewrite create_game_board, create_initial_board_layout.
  split; [done|]. split; [by intros []; vm_compute|].
  unfold create_game. by destruct (_ && _).
Qed.

(** ** Requests that are turned down *)

Lemma rejected_Failure g move player_id e :
  rejected g move player_id e →
  make_move_game g move player_id = (Ok (Failure e), g).
Proof.
  intros Hrej. unfold make_move_game. destruct move as [[from_row from_col] to].
  cbn [from_pos to_pos fst snd] in *.
  destruct Hrej as [Hst|Hst Hturn|Hst Hturn Hnone|piece Hst Hturn Hpiece Hteam
                   |piece frozen Hst Hturn Hpiece Hteam Hfrozen Hsecond Hpos
                   |piece frozen valid_moves Hst Hturn Hpiece Hteam Hfrozen Hsecond
                      Hvalid Hin];
    cbn [from_pos to_pos fst snd] in *.
  - by rewrite bool_decide_true.
  - rewrite bool_decide_false by (by intros []). by rewrite Hturn.
  - rewrite bool_decide_false by (by intros []). by rewrite Hturn, Hnone.
  - rewrite bool_decide_false by (by intros []). rewrite Hturn, Hpiece.
    by rewrite bool_decide_true.
  - rewrite bool_decide_false by (by intros []). rewrite Hturn, Hpiece.
    rewrite bool_decide_false by (by intros []). rewrite Hfrozen, Hsecond.
    by rewrite bool_decide_true.
  - rewrite bool_decide_false by (by intros []). rewrite Hturn, Hpiece.
    rewrite bool_decide_false by (by intros []). rewrite Hfrozen.
    destruct (red_first_move_done g && red_double_move_active g) eqn:Hs; cbn [andb].
    + rewrite bool_decide_false by (by intros []; apply Hsecond).
      rewrite Hvalid. by rewrite bool_decide_true.
    + rewrite Hvalid. by rewrite bool_decide_true.
Qed.

Lemma make_move_game_Failure g move player_id e g' :
  make_move_game g move player_id = (Ok (Failure e), g') → g' = g.
Proof.
  intros H.
  destruct (make_move_game_cases g move player_id)
    as [(e' & He & _)|[(e' & He & _)|(piece & _ & He)]];
    rewrite He in H; [congruence..|].
  by apply execute_move_not_Failure in H.
Qed.

(** Conversely every failure that [make_move] answers is one of the list. *)
Lemma Failure_rejected g move player_id e g' :
  make_move_game g move player_id = (Ok (Failure e), g') →
  rejected g move player_id e.
Proof.
  unfold make_move_game. destruct move as [[from_row from_col] to].
  cbn [from_pos to_pos fst snd].
  case_bool_decide as Hst; [intros [= <- <-]; by constructor|].
  destruct (not_your_turn g player_id) eqn:Hturn;
    [intros [= <- <-]; by apply rejected_not_your_turn|].
  destruct (board_get (board g) from_row from_col) as [[piece|]|e0] eqn:Hpiece;
    [|intros [= <- <-]; by apply rejected_no_piece|done].
  case_bool_decide as Hteam;
    [intros [= <- <-]; by eapply rejected_wrong_team|].
  destruct (get_frozen_positions g) as [frozen|e0] eqn:Hfrozen; [|done].
  destruct (red_first_move_done g && red_double_move_active g) eqn:Hsecond;
    cbn [andb].
  - case_bool_decide as Hsame;
      [intros [= <- <-]; by eapply rejected_second_move|].
    destruct (get_valid_moves _ _ _ _ _ _ _ _) as [valid_moves|e0] eqn:Hvalid;
      [|done].
    case_bool_decide as Hin.
    + intros [= <- <-].
      eapply (rejected_illegal _ _ _ piece frozen valid_moves);
        rewrite ?Hsecond; done.
    + intros H. by apply execute_move_not_Failure in H.
  - destruct (get_valid_moves _ _ _ _ _ _ _ _) as [valid_moves|e0] eqn:Hvalid;
      [|done].
    case_bool_decide as Hin.
    + intros [= <- <-].
      eapply (rejected_illegal _ _ _ piece frozen valid_moves);
        rewrite ?Hsecond; done.
    + intros H. by apply execute_move_not_Failure in H.
Qed.

(** C2.  A request that [make_move] or [skip_second_move] answers with a
    failure leaves the whole game record as it was.  The requests of the
    list (game not in progress, no piece at the source, piece of the wrong
    team, second move from another square than the first move reached,
    destination not legal; and the wrong player of an online game) are
    answered with a failure, and so is a skip with no second move pending;
    [make_move] answers no other failure. *)
Theorem rejections_leave_state_unchanged g move player_id :
  (∀ e g', make_move_game g move player_id = (Ok (Failure e), g') → g' = g)
  ∧ (∀ e g', skip_second_move_game g player_id = (Ok (Failure e), g') → g' = g)
  ∧ (∀ e, rejected g move player_id e ↔
          make_move_game g move player_id = (Ok (Failure e), g))
  ∧ (red_double_move_active g && red_first_move_done g = false ↔
     skip_second_move_game g player_id = (Ok (Failure CannotSkip), g)).
Proof.
  split_and!.
  - intros e g'. apply make_move_game_Failure.
  - intros e g'. unfold skip_second_move_game.
    destruct (_ || _); congruence.
  - intros e. split; [apply rejected_Failure|apply Failure_rejected].
  - unfold skip_second_move_game.
    destruct (red_double_move_active g), (red_first_move_done g); done.
Qed.

(** The same at the level of the registry: a request that is turned down,
    unknown game included, leaves every game as it was. *)
Lemma GameManager_make_move_Failure self game_id move player_id e self' :
  GameManager.make_move self game_id move player_id = (Ok (Failure e), self') →
  self' = self.
Proof.
  unfold GameManager.make_move. destruct self as [games]. simpl.
  destruct (games !! game_id) as [game|] eqn:Hgame; [|congruence].
  destruct (make_move_game game move player_id) as [r game'] eqn:Hmove.
  intros [= -> <-].
  apply make_move_game_Failure in Hmove as ->.
  by rewrite insert_id.
Qed.

(** ** skip_second_move *)

(** C10.  When [skip_second_move] succeeds, a second move was pending, and
    the call hands the move to Blue and resets the three double-move fields;
    the board, the turn number, the magic-alive flags, the status and the log
    (and the identity of the game and of its players) stay as they were: no
    checkmate or stalemate test is made.  In a game that play has reached,
    the status that stays is Playing. *)
Theorem skip_second_move_frame g player_id g' :
  skip_second_move_game g player_id = (Ok (Success ()), g') →
  (reachable g → status g' = PLAYING) ∧
  red_double_move_active g = true ∧ red_first_move_done g = true
  ∧ g' = set_double_move false false None (set_current_team BLUE g)
  ∧ current_team g' = BLUE
  ∧ red_double_move_active g' = false
  ∧ red_first_move_done g' = false
  ∧ red_first_move_pos g' = None
  ∧ board g' = board g
  ∧ turn_number g' = turn_number g
  ∧ blue_magic_alive g' = blue_magic_alive g
  ∧ red_magic_alive g' = red_magic_alive g
  ∧ status g' = status g
  ∧ move_history g' = move_history g
  ∧ game_id g' = game_id g ∧ mode g' = mode g
  ∧ blue_player_id g' = blue_player_id g ∧ red_player_id g' = red_player_id g.
Proof.
  unfold skip_second_move_game.
  destruct (red_double_move_active g) eqn:Hactive,
    (red_first_move_done g) eqn:Hdone; simpl; intros [= <-]; [|done..].
  split; [|done]. intros Hreach. simpl.
  by destruct (reachable_pending g Hreach Hdone).
Qed.

Lemma skip_second_move_frame_witness :
  (reachable cornered_game → status (skip_second_move_game cornered_game None).2 = PLAYING)
  ∧ red_double_move_active cornered_game = true
  ∧ red_first_move_done cornered_game = true
  ∧ (skip_second_move_game cornered_game None).2
    = set_double_move false false None (set_current_team BLUE cornered_game)
  ∧ current_team (skip_second_move_game cornered_game None).2 = BLUE
  ∧ red_double_move_active (skip_second_move_game cornered_game None).2 = false
  ∧ red_first_move_done (skip_second_move_game cornered_game None).2 = false
  ∧ red_first_move_pos (skip_second_move_game cornered_game None).2 = None
  ∧ board (skip_second_move_game cornered_game None).2 = board cornered_game
  ∧ turn_number (skip_second_move_game cornered_game None).2 = turn_number cornered_game
  ∧ blue_magic_alive (skip_second_move_game cornered_game None).2
    = blue_magic_alive cornered_game
  ∧ red_magic_alive (skip_second_move_game cornered_game None).2
    = red_magic_alive cornered_game
  ∧ status (skip_second_move_game cornered_game None).2 = status cornered_game
  ∧ move_history (skip_second_move_game cornered_game None).2
    = move_history cornered_game
  ∧ game_id (skip_second_move_game cornered_game None).2 = game_id cornered_game
  ∧ mode (skip_second_move_game cornered_game None).2 = mode cornered_game
  ∧ blue_player_id (skip_second_move_game cornered_game None).2
    = blue_player_id cornered_game
  ∧ red_player_id (skip_second_move_game cornered_game None).2
    = red_player_id cornered_game.
Proof.
  apply (skip_second_move_frame cornered_game None). reflexivity.
Defined.

(** The skip hands the move to a Blue side that is checkmated, and has no
    legal move either, and the game stays in progress. *)
Example skip_second_move_ignores_mate :
  let g' := (skip_second_move_game cornered_game None).2 in
  (skip_second_move_game cornered_game None).1 = Ok (Success ())
  ∧ is_checkmate (board g') (current_team g') (blue_magic_alive g')
      (red_magic_alive g') (turn_number g') [] = Ok true
  ∧ is_stalemate (board g') (current_team g') (blue_magic_alive g')
      (red_magic_alive g') (turn_number g') [] = Ok true
  ∧ get_frozen_positions g' = Ok []
  ∧ status g' = PLAYING.
Proof. vm_compute. done. Qed.

(** ** Capturing a General *)

(** The game of the example before the capture: it is Red's move at turn 6,
    a Red Attack piece stands at (2, 4), the cell above it is empty and
    Blue's General stands at (0, 4). *)
Example before_general_capture_position :
  status before_general_capture = PLAYING
  ∧ current_team before_general_capture = RED
  ∧ turn_number before_general_capture = 6
  ∧ board_get (board before_general_capture) 2 4 = Ok (Some (mkPiece ATTACK RED))
  ∧ board_get (board before_general_capture) 1 4 = Ok None
  ∧ board_get (board before_general_capture) 0 4 = Ok (Some (mkPiece GENERAL BLUE)).
Proof. by vm_compute. Qed.

(** C3 as stated fails: Red takes Blue's General, the game is won, and the
    turn still goes over to Blue. *)
Lemma general_capture_advances_turn :
  ∃ r g',
    make_move_game before_general_capture general_capture None = (Ok (Success r), g')
    ∧ captured r = Some (mkPiece GENERAL BLUE)
    ∧ status g' = RED_WIN
    ∧ ¬ turn_untouched before_general_capture g'.
Proof.
  do 2 eexists. split; [vm_compute; reflexivity|].
  split; [reflexivity|]. split; [reflexivity|].
  intros (H & _). vm_compute in H. discriminate.
Qed.

(** C3, amended.  When an accepted move takes a General, the General is of
    the other team, the status becomes the win of the side that moved, and
    the call answers with that status and with no second move pending: the
    turn-11 double-move test and the checkmate and stalemate tests have no
    part in the outcome.  The turn switch itself is still made: the game is
    left as the turn switch leaves the game with the move made and logged,
    the other side to move, the turn number one up when Blue moved and the
    double-move fields reset. *)
Theorem general_capture_ends_game g move player_id r g' t :
  wf_board (board g) →
  make_move_game g move player_id = (Ok (Success r), g') →
  captured r = Some (mkPiece GENERAL t) →
  t = enemy_of (current_team g)
  ∧ status g' = win_of (current_team g)
  ∧ game_status r = win_of (current_team g)
  ∧ double_move r = false ∧ waiting_second_move r = false
  ∧ (∃ b, relocated (board g) (norm_pos (from_pos move)) (to_pos move) b
          ∧ g' = next_turn (moved g move (Some (mkPiece GENERAL t)) b))
  ∧ current_team g' = enemy_of (current_team g)
  ∧ turn_number g'
    = (if bool_decide (current_team g = BLUE) then turn_number g + 1 else turn_number g)
  ∧ red_double_move_active g' = false
  ∧ red_first_move_done g' = false
  ∧ red_first_move_pos g' = None.
Proof.
  intros Hwf Hmove Hcap.
  destruct (make_move_game_Success g move player_id r g' Hwf Hmove)
    as (piece & cp & b & Hacc & Hcp & Htarget & Hon & Hrel & Hpiece & Hres).
  cbn zeta in Hres.
  destruct Hacc as (_ & _ & _ & Hteam & _).
  pose proof (moved_fields g move cp b)
    as (Hb & (Hct & Htn & _) & _ & _ & _ & _ & _ & _ & _ & Hst).
  cbn zeta in *. set (g1 := moved g move cp b) in *.
  assert (cp = Some (mkPiece GENERAL t)) as ->.
  { destruct (second_move_pending g1 move).
    - destruct Hres as [-> _]. done.
    - destruct Hres as (st & -> & _). done. }
  assert (t = enemy_of (current_team g)) as Ht.
  { destruct Htarget as [?|(t' & [= <-] & Hne)]; [done|]. simpl in Hne.
    rewrite Hteam in Hne. by destruct t, (current_team g). }
  assert (status g1 = win_of (current_team g)) as Hwin.
  { rewrite Hst, Ht. by destruct (current_team g). }
  assert (second_move_pending g1 move = false) as Hpend.
  { unfold second_move_pending. rewrite Hwin.
    rewrite (bool_decide_false (_ = PLAYING)) by (by destruct (current_team g)).
    by rewrite andb_false_r. }
  rewrite Hpend in Hres. destruct Hres as (st & -> & -> & Hst1 & _).
  rewrite Hst1 by (rewrite Hwin; by destruct (current_team g)).
  rewrite <-(proj1 (proj2 (proj2 (proj2 (proj2 (proj2 (proj2 (next_turn_fields g1)))))))).
  rewrite set_status_same.
  pose proof (next_turn_fields g1) as (H1 & H2 & H3 & H4 & H5 & _ & H7 & _).
  rewrite H1, H2, H3, H4, H5, H7, Hct, Htn, Hwin. simpl.
  split_and!; try done. exists b. done.
Qed.

Lemma general_capture_ends_game_witness :
  BLUE = enemy_of (current_team before_general_capture)
  ∧ status (make_move_game before_general_capture general_capture None).2
    = win_of (current_team before_general_capture)
  ∧ game_status (mkMoveResult (Some (mkPiece GENERAL BLUE)) RED_WIN false false)
    = win_of (current_team before_general_capture)
  ∧ double_move (mkMoveResult (Some (mkPiece GENERAL BLUE)) RED_WIN false false) = false
  ∧ waiting_second_move (mkMoveResult (Some (mkPiece GENERAL BLUE)) RED_WIN false false)
    = false
  ∧ (∃ b, relocated (board before_general_capture)
            (norm_pos (from_pos general_capture)) (to_pos general_capture) b
          ∧ (make_move_game before_general_capture general_capture None).2
            = next_turn (moved before_general_capture general_capture
                           (Some (mkPiece GENERAL BLUE)) b))
  ∧ current_team (make_move_game before_general_capture general_capture None).2
    = enemy_of (current_team before_general_capture)
  ∧ turn_number (make_move_game before_general_capture general_capture None).2
    = (if bool_decide (current_team before_general_capture = BLUE)
       then turn_number before_general_capture + 1
       else turn_number before_general_capture)
  ∧ red_double_move_active (make_move_game before_general_capture general_capture None).2
    = false
  ∧ red_first_move_done (make_move_game before_general_capture general_capture None).2
    = false
  ∧ red_first_move_pos (make_move_game before_general_capture general_capture None).2
    = None.
Proof.
  apply (general_capture_ends_game before_general_capture general_capture None
           (mkMoveResult (Some (mkPiece GENERAL BLUE)) RED_WIN false false)).
  - split; [reflexivity|]. vm_compute. repeat constructor.
  - vm_compute. reflexivity.
  - reflexivity.
Defined.

(** ** The double move of turn 11 *)

(** C4.  In a game that play has reached, at turn 11 with Red's Magic piece
    alive and no first move made yet, an accepted move of a Red piece that
    starts and ends in rows 5 to 9 is answered with a second move pending and
    leaves Red to move at turn 11, the reached square recorded.  From there
    a move is accepted only from that square; once it is, Blue is to move
    and the turn number is still 11; and it stays so until a move of Blue is
    accepted, which hands the move to Red at turn 12. *)
Theorem turn11_double_move g move player_id piece r g1 :
  reachable g →
  turn_number g = 11 → red_magic_alive g = true → red_first_move_done g = false →
  board_get (board g) (from_pos move).1 (from_pos move).2 = Ok (Some piece) →
  team piece = RED →
  is_in_red_zone (from_pos move).1 = true → is_in_red_zone (to_pos move).1 = true →
  make_move_game g move player_id = (Ok (Success r), g1) →
  (double_move r = true ∧ waiting_second_move r = true
   ∧ current_team g1 = RED ∧ turn_number g1 = 11
   ∧ red_double_move_active g1 = true ∧ red_first_move_done g1 = true
   ∧ red_first_move_pos g1 = Some (to_pos move)
   ∧ board_get (board g1) (to_pos move).1 (to_pos move).2 = Ok (Some piece))
  ∧ ∀ move2 player_id2 r2 g2,
      make_move_game g1 move2 player_id2 = (Ok (Success r2), g2) →
      from_pos move2 = to_pos move
      ∧ waiting_second_move r2 = false
      ∧ current_team g2 = BLUE ∧ turn_number g2 = 11
      ∧ ∀ move3 player_id3,
          let out3 := make_move_game g2 move3 player_id3 in
          (out3.2 = g2 ∧ ∀ r3, out3.1 ≠ Ok (Success r3))
          ∨ ((∃ r3, out3.1 = Ok (Success r3))
             ∧ current_team out3.2 = RED ∧ turn_number out3.2 = 12).
Proof.
  intros Hreach Hturn Hmagic Hfirst Hpiece Hteam Hfrom Hto Hmove.
  destruct (reachable_inv g Hreach) as [Hwf Hhome].
  destruct (make_move_game_Success g move player_id r g1 Hwf Hmove)
    as (piece' & cp & b & Hacc & Hcp & Htarget & Hon & Hrel & Hpiece' & Hres).
  cbn zeta in Hres.
  assert (piece' = piece) as ->.
  { destruct Hacc as (_ & _ & ? & _). congruence. }
  assert (current_team g = RED) as Hred.
  { destruct Hacc as (_ & _ & _ & <- & _). done. }
  assert (status g = PLAYING) as Hplaying by (by destruct Hacc).
  pose proof (moved_fields g move cp b)
    as (Hb & (Hct & Htn & Hactive & Hdone & Hpos) & _ & _ & _ & _ & _ & _ & Hrm & Hst).
  cbn zeta in *. remember (moved g move cp b) as g0 eqn:Hg0. clear Hg0.
  (* the capture neither kills Red's Magic piece nor ends the game *)
  assert (red_magic_alive g0 = true ∧ status g0 = PLAYING) as [Hrm0 Hst0].
  { rewrite Hrm, Hst, Hmagic, Hplaying.
    destruct Htarget as [->|(t & -> & Hne)]; [done|].
    rewrite Hteam in Hne. destruct t as [ty []]; [|done]. split.
    - by rewrite bool_decide_false.
    - destruct ty; try done. exfalso.
      specialize (Hhome (to_pos move) BLUE Hon Hcp).
      apply elem_of_zone_positions in Hhome.
      apply bool_decide_eq_true in Hto. lia. }
  assert (second_move_pending g0 move = true) as Hpend.
  { unfold second_move_pending.
    rewrite Htn, Hct, Hdone, Hrm0, Hst0, Hturn, Hred, Hfirst, Hfrom, Hto.
    by rewrite !bool_decide_true. }
  rewrite Hpend in Hres. destruct Hres as [-> ->]. cbn.
  assert (board_get b (to_pos move).1 (to_pos move).2 = Ok (Some piece)) as Hlanded.
  { destruct Hrel as [_ Hrel]. rewrite (Hrel _ Hon).
    rewrite bool_decide_false; [by rewrite bool_decide_true|].
    intros Heq. rewrite <-Heq, Hcp in Hpiece'.
    destruct Htarget as [->|(t & -> & Hne)]; [done|]. congruence. }
  split; [rewrite Hb; split_and!; congruence|].
  (* the second move *)
  intros move2 player_id2 r2 g2 Hmove2.
  set (g1 := set_double_move true true (Some (to_pos move)) g0) in *.
  assert (wf_board (board g1)) as Hwf1 by (cbn; rewrite Hb; apply Hrel).
  destruct (make_move_game_Success g1 move2 player_id2 r2 g2 Hwf1 Hmove2)
    as (piece2 & cp2 & b2 & Hacc2 & _ & _ & _ & Hrel2 & _ & Hres2).
  cbn zeta in Hres2.
  assert (from_pos move2 = to_pos move) as Hsame.
  { destruct Hacc2 as (_ & _ & _ & _ & Hs & _). cbn in Hs.
    specialize (Hs eq_refl). congruence. }
  pose proof (moved_fields g1 move2 cp2 b2)
    as (Hb2 & (Hct2 & Htn2 & _ & Hdone2 & _) & _).
  cbn zeta in *. remember (moved g1 move2 cp2 b2) as g1' eqn:Hg1'. clear Hg1'.
  assert (second_move_pending g1' move2 = false) as Hpend2.
  { unfold second_move_pending. rewrite Hdone2. cbn.
    by rewrite !andb_false_r. }
  rewrite Hpend2 in Hres2. destruct Hres2 as (st & -> & -> & _).
  pose proof (next_turn_fields g1') as (H1 & H2 & H3 & H4 & H5 & H6 & _).
  assert (current_team g1' = RED) as Hred1 by (rewrite Hct2; cbn; congruence).
  assert (turn_number g1' = 11) as Hturn1 by (rewrite Htn2; cbn; congruence).
  split_and!; [done|done|cbn; by rewrite H1, Hred1
              |cbn; by rewrite H2, Hred1, Hturn1|].
  (* Blue's move *)
  intros move3 player_id3. cbn zeta.
  set (g2 := set_status st (next_turn g1')).
  assert (wf_board (board g2)) as Hwf2.
  { cbn. rewrite H6, Hb2. apply Hrel2. }
  destruct (accepted_dec g2 move3 player_id3) as [[piece3 Hacc3]|Hno].
  2:{ left. by apply make_move_game_turned_down. }
  right.
  destruct (make_move_game_accepted_Success g2 move3 player_id3 piece3 Hwf2 Hacc3)
    as (cp3 & b3 & r3 & g3 & -> & _ & _ & _ & _ & _ & Hres3).
  cbn zeta in Hres3. cbn. split; [eauto|].
  pose proof (moved_fields g2 move3 cp3 b3) as (_ & (Hct3 & Htn3 & _) & _).
  cbn zeta in *. remember (moved g2 move3 cp3 b3) as g2' eqn:Hg2'. clear Hg2'.
  assert (current_team g2' = BLUE) as Hblue.
  { rewrite Hct3. cbn. by rewrite H1, Hred1. }
  assert (turn_number g2' = 11) as Hturn2.
  { rewrite Htn3. cbn. by rewrite H2, Hred1, Hturn1. }
  assert (second_move_pending g2' move3 = false) as Hpend3.
  { unfold second_move_pending. rewrite Hblue. cbn. by rewrite !andb_false_r. }
  rewrite Hpend3 in Hres3. destruct Hres3 as (st3 & _ & -> & _).
  pose proof (next_turn_fields g2') as (K1 & K2 & _).
  cbn. rewrite K1, K2, Hblue, Hturn2. done.
Qed.

Lemma turn11_double_move_witness :
  let piece := mkPiece ATTACK RED in
  let move := mkMove (9, 0) (8, 0) in
  let r := mkMoveResult None PLAYING true true in
  let g1 := (make_move_game turn11_game move None).2 in
  (double_move r = true ∧ waiting_second_move r = true
   ∧ current_team g1 = RED ∧ turn_number g1 = 11
   ∧ red_double_move_active g1 = true ∧ red_first_move_done g1 = true
   ∧ red_first_move_pos g1 = Some (to_pos move)
   ∧ board_get (board g1) (to_pos move).1 (to_pos move).2 = Ok (Some piece))
  ∧ ∀ move2 player_id2 r2 g2,
      make_move_game g1 move2 player_id2 = (Ok (Success r2), g2) →
      from_pos move2 = to_pos move
      ∧ waiting_second_move r2 = false
      ∧ current_team g2 = BLUE ∧ turn_number g2 = 11
      ∧ ∀ move3 player_id3,
          let out3 := make_move_game g2 move3 player_id3 in
          (out3.2 = g2 ∧ ∀ r3, out3.1 ≠ Ok (Success r3))
          ∨ ((∃ r3, out3.1 = Ok (Success r3))
             ∧ current_team out3.2 = RED ∧ turn_number out3.2 = 12).
Proof.
  apply (turn11_double_move turn11_game (mkMove (9, 0) (8, 0)) None
           (mkPiece ATTACK RED) (mkMoveResult None PLAYING true true)).
  - apply reachable_foldl. constructor.
  - vm_compute. reflexivity.
  - vm_compute. reflexivity.
  - vm_compute. reflexivity.
  - vm_compute. reflexivity.
  - reflexivity.
  - reflexivity.
  - reflexivity.
  - vm_compute. reflexivity.
Defined.

(** ** The magic-alive flags *)

(** One request changes the flags only by what it takes. *)
Lemma run_op_flags g op :
  wf_board (board g) →
  ∃ cp,
    blue_magic_alive (run_op g op)
    = blue_magic_alive g && negb (bool_decide (cp = Some (mkPiece MAGIC BLUE)))
    ∧ red_magic_alive (run_op g op)
      = red_magic_alive g && negb (bool_decide (cp = Some (mkPiece MAGIC RED)))
    ∧ ∀ p, captures g op p ↔ cp = Some p.
Proof.
  intros Hwf. destruct op as [move player_id|player_id|player_id]; cbn.
  - destruct (accepted_dec g move player_id) as [[piece Hacc]|Hno].
    + destruct (make_move_game_accepted_Success g move player_id piece Hwf Hacc)
        as (cp & b & r & g' & Hmove & _ & _ & _ & _ & _ & Hres).
      cbn zeta in Hres. rewrite Hmove. cbn. exists cp.
      pose proof (moved_fields g move cp b)
        as (_ & _ & _ & _ & _ & _ & _ & Hbm & Hrm & _).
      cbn zeta in *. remember (moved g move cp b) as g1 eqn:Hg1. clear Hg1.
      pose proof (next_turn_fields g1) as (_ & _ & _ & _ & _ & _ & _ & Kb & Kr & _).
      assert (captured r = cp ∧ blue_magic_alive g' = blue_magic_alive g1
              ∧ red_magic_alive g' = red_magic_alive g1) as (Hcap & -> & ->).
      { destruct (second_move_pending g1 move).
        - destruct Hres as [-> ->]. done.
        - destruct Hres as (st & -> & -> & _). cbn. done. }
      split_and!; [done..|]. intros p. split.
      * intros (r' & [= <-] & ?). congruence.
      * intros ->. exists r. done.
    + destruct (make_move_game_turned_down _ _ _ Hno) as [-> Hns].
      exists None. rewrite !andb_true_r. split_and!; [done..|].
      intros p. split; [|done]. intros (r & Hr & _). by destruct (Hns r).
  - exists None. rewrite !andb_true_r.
    unfold skip_second_move_game. by destruct (_ || _).
  - exists None. rewrite !andb_true_r.
    unfold join_game_game. by repeat case_match.
Qed.

(** C8.  In a game that play has reached, a request clears the magic-alive
    flag of a team exactly when it is an accepted move that takes the Magic
    piece of that team; no request clears both flags; and a flag that is
    false stays false whatever requests follow. *)
Theorem magic_flags_monotone g op :
  reachable g →
  (blue_magic_alive g = true →
   (blue_magic_alive (run_op g op) = false ↔ captures g op (mkPiece MAGIC BLUE)))
  ∧ (red_magic_alive g = true →
     (red_magic_alive (run_op g op) = false ↔ captures g op (mkPiece MAGIC RED)))
  ∧ (blue_magic_alive (run_op g op) = blue_magic_alive g
     ∨ red_magic_alive (run_op g op) = red_magic_alive g)
  ∧ (blue_magic_alive g = false → blue_magic_alive (run_op g op) = false)
  ∧ (red_magic_alive g = false → red_magic_alive (run_op g op) = false)
  ∧ ∀ ops,
      (blue_magic_alive g = false → blue_magic_alive (foldl run_op g ops) = false)
      ∧ (red_magic_alive g = false → red_magic_alive (foldl run_op g ops) = false).
Proof.
  intros Hreach.
  assert (∀ g op, reachable g →
            (blue_magic_alive g = false → blue_magic_alive (run_op g op) = false)
            ∧ (red_magic_alive g = false → red_magic_alive (run_op g op) = false))
    as Hstep.
  { intros g0 op0 [Hwf0 _]%reachable_inv.
    destruct (run_op_flags g0 op0 Hwf0) as (cp & -> & -> & _).
    split; by intros ->. }
  destruct (reachable_inv g Hreach) as [Hwf _].
  destruct (run_op_flags g op Hwf) as (cp & Hb & Hr & Hcap).
  split_and!.
  - intros Hb1. rewrite Hb, Hb1, Hcap. cbn. rewrite negb_false_iff.
    apply bool_decide_eq_true.
  - intros Hr1. rewrite Hr, Hr1, Hcap. cbn. rewrite negb_false_iff.
    apply bool_decide_eq_true.
  - rewrite Hb, Hr. destruct (decide (cp = Some (mkPiece MAGIC BLUE))) as [->|].
    + right. rewrite (bool_decide_false (_ = Some (mkPiece MAGIC RED))) by done.
      by rewrite andb_true_r.
    + left. rewrite bool_decide_false by done. by rewrite andb_true_r.
  - by apply Hstep.
  - by apply Hstep.
  - intros ops. clear Hwf Hb Hr Hcap cp. revert g Hreach.
    induction ops as [|op' ops IH]; intros g Hreach; [done|]. cbn [foldl].
    destruct (IH (run_op g op') (reachable_op _ _ Hreach)) as [IHb IHr].
    destruct (Hstep g op' Hreach) as [Hb Hr]. split; auto.
Qed.

Lemma magic_flags_monotone_witness :
  let g := before_magic_capture in
  let op := OpMove magic_capture None in
  (blue_magic_alive g = true →
   (blue_magic_alive (run_op g op) = false ↔ captures g op (mkPiece MAGIC BLUE)))
  ∧ (red_magic_alive g = true →
     (red_magic_alive (run_op g op) = false ↔ captures g op (mkPiece MAGIC RED)))
  ∧ (blue_magic_alive (run_op g op) = blue_magic_alive g
     ∨ red_magic_alive (run_op g op) = red_magic_alive g)
  ∧ (blue_magic_alive g = false → blue_magic_alive (run_op g op) = false)
  ∧ (red_magic_alive g = false → red_magic_alive (run_op g op) = false)
  ∧ ∀ ops,
      (blue_magic_alive g = false → blue_magic_alive (foldl run_op g ops) = false)
      ∧ (red_magic_alive g = false → red_magic_alive (foldl run_op g ops) = false).
Proof.
  apply (magic_flags_monotone before_magic_capture (OpMove magic_capture None)).
  apply reachable_foldl. constructor.
Defined.

(** The move of the example takes Blue's Magic piece and clears Blue's flag,
    and Blue's flag only. *)
Example magic_capture_clears_flag :
  let g' := run_op before_magic_capture (OpMove magic_capture None) in
  captures before_magic_capture (OpMove magic_capture None) (mkPiece MAGIC BLUE)
  ∧ blue_magic_alive before_magic_capture = true
  ∧ blue_magic_alive g' = false
  ∧ red_magic_alive g' = true.
Proof.
  split; [|by vm_compute]. eexists. split; [vm_compute; reflexivity|reflexivity].
Qed.

(** ** The theorems at work on the example positions *)

Lemma mate_board_wf : wf_board mate_board.
Proof. split; [reflexivity|repeat constructor]. Qed.

Lemma is_checkmate_spec_witness :
  ∃ chk v,
    is_general_in_check mate_board RED true true = Ok chk
    ∧ is_checkmate mate_board RED true true 5 [] = Ok v
    ∧ (chk = false → v = false)
    ∧ (chk = true →
       (v = true ↔
        ∀ pos p moves m,
          on_board pos → board_get mate_board pos.1 pos.2 = Ok (Some p) →
          team p = RED →
          get_valid_moves mate_board pos RED true true 5 false [] = Ok moves →
          m ∈ moves →
          ∃ tb, simulate_move mate_board pos.1 pos.2 m = Ok tb
                ∧ relocated mate_board pos m tb
                ∧ is_general_in_check tb RED true true = Ok true)).
Proof.
  apply (is_checkmate_spec mate_board RED true true 5 []).
  split; [reflexivity|]. vm_compute. repeat constructor.
Defined.

(** Red is checkmated on the example board. *)
Example mate_board_checkmate :
  is_general_in_check mate_board RED true true = Ok true
  ∧ is_checkmate mate_board RED true true 5 [] = Ok true
  ∧ get_valid_moves mate_board (9, 3) RED true true 5 false [] = Ok [(8, 3); (9, 4)].
Proof. by vm_compute. Qed.

Lemma is_general_in_check_spec_witness :
  ∃ o, find_general mate_board RED = Ok o
    ∧ match o with
      | None =>
          (∀ q, on_board q →
             board_get mate_board q.1 q.2 ≠ Ok (Some (mkPiece GENERAL RED)))
          ∧ is_general_in_check mate_board RED true true = Ok true
      | Some gp =>
          on_board gp
          ∧ board_get mate_board gp.1 gp.2 = Ok (Some (mkPiece GENERAL RED))
          ∧ ∃ v, is_general_in_check mate_board RED true true = Ok v
              ∧ (v = true ↔
                 ∃ pos p, on_board pos
                   ∧ board_get mate_board pos.1 pos.2 = Ok (Some p)
                   ∧ team p = enemy_of RED
                   ∧ threat mate_board true true pos p gp)
      end.
Proof.
  apply (is_general_in_check_spec mate_board RED true true).
  split; [reflexivity|]. vm_compute. repeat constructor.
Defined.

(** A board without Red's General counts as check; a Magic piece next to a
    General is no threat, and neither is a piece that would have to retreat
    once the Magic piece of its team is dead. *)
Example is_general_in_check_examples :
  is_general_in_check (board_of [((0, 4), mkPiece GENERAL BLUE)]) RED true true = Ok true
  ∧ is_general_in_check
      (board_of [((7, 4), mkPiece GENERAL RED); ((6, 4), mkPiece MAGIC BLUE);
                 ((7, 5), mkPiece GENERAL BLUE)]) RED true true = Ok false
  ∧ is_general_in_check
      (board_of [((2, 4), mkPiece GENERAL RED); ((5, 4), mkPiece ATTACK BLUE)])
      RED true true = Ok true
  ∧ is_general_in_check
      (board_of [((2, 4), mkPiece GENERAL RED); ((5, 4), mkPiece ATTACK BLUE)])
      RED false true = Ok false.
Proof. by vm_compute. Qed.

Lemma attack_moves_spec_witness :
  let b := attack_board in
  let pos := (5, 4) in
  let piece := mkPiece ATTACK RED in
  ∃ moves, _get_attack_moves b pos piece = Ok moves
    ∧ (∀ m, m ∈ moves ↔
         ∃ d k, d ∈ orthogonal_directions ∧ m = ray_cell pos d k
           ∧ ray_clear b pos d k
           ∧ (empty_at b m ∨ d.2 = 0 ∧ enemy_at b (team piece) m))
    ∧ (∀ m, m ∈ moves → m.1 = pos.1 → board_get b m.1 m.2 = Ok None)
    ∧ (∀ d k t,
         d = (-1, 0) ∨ d = (1, 0) → 1 ≤ k → on_board (ray_cell pos d k) →
         (∀ j, 1 ≤ j < k →
            board_get b (ray_cell pos d j).1 (ray_cell pos d j).2 = Ok None) →
         board_get b (ray_cell pos d k).1 (ray_cell pos d k).2 = Ok (Some t) →
         team t ≠ team piece →
         ray_cell pos d k ∈ moves)
    ∧ (∀ d k,
         d ∈ orthogonal_directions → 1 ≤ k → on_board (ray_cell pos d k) →
         (∀ j, 1 ≤ j ≤ k →
            board_get b (ray_cell pos d j).1 (ray_cell pos d j).2 = Ok None) →
         ray_cell pos d k ∈ moves).
Proof.
  apply (attack_moves_spec attack_board (5, 4) (mkPiece ATTACK RED)).
  - split; [reflexivity|]. vm_compute. repeat constructor.
  - unfold on_board. simpl. lia.
Defined.

(** On the example board the Attack piece takes the Blue piece on its file,
    stops short of the Red piece below it and of the Blue piece beside it. *)
Example attack_board_moves :
  _get_attack_moves attack_board (5, 4) (mkPiece ATTACK RED)
  = Ok [(4, 4); (3, 4); (2, 4); (6, 4); (5, 3); (5, 2); (5, 1); (5, 0); (5, 5)].
Proof. by vm_compute. Qed.

Lemma rejections_leave_state_unchanged_witness :
  make_move_game new_local_game (mkMove (7, 0) (2, 0)) None
  = (Ok (Failure IllegalMove), new_local_game).
Proof.
  apply (proj1 (proj2 (proj2
           (rejections_leave_state_unchanged new_local_game
              (mkMove (7, 0) (2, 0)) None))) IllegalMove).
  apply (rejected_illegal _ _ _ (mkPiece DEFENSE RED) []
           [(6, 0); (5, 0); (4, 0); (3, 0); (8, 0)]).
  - reflexivity.
  - reflexivity.
  - reflexivity.
  - reflexivity.
  - reflexivity.
  - intros H. discriminate H.
  - vm_compute. reflexivity.
  - rewrite !elem_of_cons, elem_of_nil. intros H.
    repeat (destruct H as [H|H]; [discriminate H|]). exact H.
Defined.

(** * Further properties *)

(** ** The rules of the other pieces *)

(** X1.  A Defense piece on the board reaches exactly the cells of its rank
    and file that have only empty cells between the piece and them and that
    are empty or, on its rank only, hold a piece of the other team: it never
    takes along its file, never moves onto a piece of its own team and never
    passes over a piece. *)
Theorem defense_moves_spec b pos piece :
  wf_board b → on_board pos →
  ∃ moves, _get_defense_moves b pos piece = Ok moves
    ∧ ∀ m, m ∈ moves ↔
        ∃ d k, d ∈ orthogonal_directions ∧ m = ray_cell pos d k
          ∧ ray_clear b pos d k
          ∧ (empty_at b m ∨ d.1 = 0 ∧ enemy_at b (team piece) m).
Proof.
  intros Hwf Hpos.
  destruct (rays_total b piece (λ d_row _, bool_decide (d_row = 0))
              orthogonal_directions pos.1 pos.2 Hwf orthogonal_is_direction)
    as [moves Hmoves].
  exists moves. split; [by destruct pos|]. intros m.
  rewrite (rays_iff b piece (λ d_row _, bool_decide (d_row = 0)) _ pos moves
             Hpos orthogonal_is_direction Hmoves).
  by setoid_rewrite bool_decide_eq_true.
Qed.

Lemma defense_moves_spec_witness :
  ∃ moves, _get_defense_moves defense_board (6, 4) (mkPiece DEFENSE RED) = Ok moves
    ∧ ∀ m, m ∈ moves ↔
        ∃ d k, d ∈ orthogonal_directions ∧ m = ray_cell (6, 4) d k
          ∧ ray_clear defense_board (6, 4) d k
          ∧ (empty_at defense_board m
             ∨ d.1 = 0 ∧ enemy_at defense_board (team (mkPiece DEFENSE RED)) m).
Proof.
  apply (defense_moves_spec defense_board (6, 4) (mkPiece DEFENSE RED)).
  - split; [reflexivity|]. vm_compute. repeat constructor.
  - unfold on_board. simpl. lia.
Defined.

(** On the example board the Defense piece stops below the Blue piece on its
    file, takes the Blue piece on its rank and stops before the Red one. *)
Example defense_board_moves :
  _get_defense_moves defense_board (6, 4) (mkPiece DEFENSE RED)
  = Ok [(5, 4); (4, 4); (7, 4); (8, 4); (9, 4); (6, 3); (6, 2); (6, 5); (6, 6)].
Proof. by vm_compute. Qed.

(** X2.  A Support piece on the board reaches exactly the cells of its four
    diagonals that have only empty cells between the piece and them and that
    are empty or hold a piece of the other team; each of them is a diagonal
    move in the sense of [is_diagonal]. *)
Theorem support_moves_spec b pos piece :
  wf_board b → on_board pos →
  ∃ moves, _get_support_moves b pos piece = Ok moves
    ∧ (∀ m, m ∈ moves ↔
         ∃ d k, d ∈ diagonal_directions ∧ m = ray_cell pos d k
           ∧ ray_clear b pos d k
           ∧ (empty_at b m ∨ enemy_at b (team piece) m))
    ∧ ∀ m, m ∈ moves → is_diagonal pos m = true.
Proof.
  intros Hwf Hpos.
  destruct (rays_total b piece (λ _ _, true)
              diagonal_directions pos.1 pos.2 Hwf diagonal_is_direction)
    as [moves Hmoves].
  exists moves. split; [by destruct pos|].
  pose proof (rays_iff b piece (λ _ _, true) _ pos moves
                Hpos diagonal_is_direction Hmoves) as Hiff.
  split.
  - intros m. rewrite Hiff. split.
    + intros (d & k & ? & ? & ? & [?|[_ ?]]); exists d, k; split_and!; auto.
    + intros (d & k & ? & ? & ? & [?|?]); exists d, k; split_and!; auto.
  - intros m (d & k & Hd & -> & (Hk & _) & _)%Hiff.
    destruct pos as [row col]. unfold is_diagonal, ray_cell.
    unfold diagonal_directions in Hd. rewrite !elem_of_cons, elem_of_nil in Hd.
    destruct Hd as [-> | [-> | [-> | [-> | []]]]]; cbn [fst snd];
      apply andb_true_iff; rewrite !bool_decide_eq_true; lia.
Qed.

Lemma support_moves_spec_witness :
  ∃ moves, _get_support_moves support_board (5, 4) (mkPiece SUPPORT BLUE) = Ok moves
    ∧ (∀ m, m ∈ moves ↔
         ∃ d k, d ∈ diagonal_directions ∧ m = ray_cell (5, 4) d k
           ∧ ray_clear support_board (5, 4) d k
           ∧ (empty_at support_board m
              ∨ enemy_at support_board (team (mkPiece SUPPORT BLUE)) m))
    ∧ ∀ m, m ∈ moves → is_diagonal (5, 4) m = true.
Proof.
  apply (support_moves_spec support_board (5, 4) (mkPiece SUPPORT BLUE)).
  - split; [reflexivity|]. vm_compute. repeat constructor.
  - unfold on_board. simpl. lia.
Defined.

Example support_board_moves :
  _get_support_moves support_board (5, 4) (mkPiece SUPPORT BLUE)
  = Ok [(4, 3); (4, 5); (3, 6); (2, 7); (1, 8); (6, 3); (7, 2); (8, 1); (9, 0);
        (6, 5); (7, 6)].
Proof. by vm_compute. Qed.

(** The one-step loop yields the cells one orthogonal step away that lie in
    the zone and are empty. *)
Lemma one_step_moves_iff b pos zone l :
  one_step_moves b pos zone = Ok l →
  ∀ m, m ∈ l ↔
    (∃ d, d ∈ orthogonal_directions ∧ m = ray_cell pos d 1)
    ∧ m ∈ zone ∧ empty_at b m.
Proof.
  intros H m. split.
  - intros Hm. destruct (one_step_moves_elem _ _ _ _ _ H Hm) as (? & ? & ?). done.
  - intros ((d & Hd & ->) & Hz & Hc). destruct pos as [row col], d as [d_row d_col].
    unfold one_step_moves in H. apply (for_extend_Ok _ _ _ H).
    unfold ray_cell, empty_at in *. cbn [fst snd] in *.
    rewrite !Z.mul_1_l in *.
    exists (d_row, d_col), [(row + d_row, col + d_col)].
    split_and!; [done| |by left].
    cbn. rewrite bool_decide_true by done. by rewrite Hc.
Qed.

(** X3.  A Magic piece and a General move one orthogonal step, only to an
    empty cell and only inside the zone of their team (the Magic zone, the
    palace): they never take a piece, and from a cell that is no neighbour of
    their zone they do not move at all. *)
Theorem magic_general_moves_spec b pos piece :
  wf_board b →
  (∃ moves, _get_magic_moves b pos piece = Ok moves
     ∧ ∀ m, m ∈ moves ↔
         (∃ d, d ∈ orthogonal_directions ∧ m = ray_cell pos d 1)
         ∧ m ∈ magic_zone_of (team piece) ∧ empty_at b m)
  ∧ (∃ moves, _get_general_moves b pos piece = Ok moves
       ∧ ∀ m, m ∈ moves ↔
           (∃ d, d ∈ orthogonal_directions ∧ m = ray_cell pos d 1)
           ∧ m ∈ palace_of (team piece) ∧ empty_at b m).
Proof.
  intros Hwf. split.
  - destruct (one_step_moves_total b pos (magic_zone_of (team piece)) Hwf)
      as [moves Hmoves].
    { intros p Hp. apply zones_on_board. destruct (team piece); auto. }
    exists moves. split; [exact Hmoves|].
    by apply one_step_moves_iff.
  - destruct (one_step_moves_total b pos (palace_of (team piece)) Hwf)
      as [moves Hmoves].
    { intros p Hp. apply zones_on_board. destruct (team piece); auto. }
    exists moves. split; [exact Hmoves|].
    by apply one_step_moves_iff.
Qed.

Lemma magic_general_moves_spec_witness :
  (∃ moves, _get_magic_moves create_initial_board (7, 4) (mkPiece MAGIC RED) = Ok moves
     ∧ ∀ m, m ∈ moves ↔
         (∃ d, d ∈ orthogonal_directions ∧ m = ray_cell (7, 4) d 1)
         ∧ m ∈ magic_zone_of (team (mkPiece MAGIC RED))
         ∧ empty_at create_initial_board m)
  ∧ (∃ moves, _get_general_moves create_initial_board (7, 4) (mkPiece MAGIC RED)
              = Ok moves
       ∧ ∀ m, m ∈ moves ↔
           (∃ d, d ∈ orthogonal_directions ∧ m = ray_cell (7, 4) d 1)
           ∧ m ∈ palace_of (team (mkPiece MAGIC RED))
           ∧ empty_at create_initial_board m).
Proof.
  apply (magic_general_moves_spec create_initial_board (7, 4) (mkPiece MAGIC RED)).
  split; [reflexivity|]. vm_compute. repeat constructor.
Defined.

(** ** Legal destinations *)

Lemma piece_moves_target b pos piece l m :
  piece_moves b pos piece = Ok l → m ∈ l →
  empty_at b m ∨ can_capture (piece_type piece) = true ∧ enemy_at b (team piece) m.
Proof.
  intros H Hm. unfold piece_moves in H. destruct pos as [row col].
  destruct (piece_type piece).
  - apply (rays_elem b piece (λ _ d_col, bool_decide (d_col = 0)) _ _ _ _ _ H) in Hm
      as (d & k & _ & _ & -> & _ & _ & [?|[_ ?]]); [by left|by right].
  - apply (rays_elem b piece (λ d_row _, bool_decide (d_row = 0)) _ _ _ _ _ H) in Hm
      as (d & k & _ & _ & -> & _ & _ & [?|[_ ?]]); [by left|by right].
  - apply (rays_elem b piece (λ _ _, true) _ _ _ _ _ H) in Hm
      as (d & k & _ & _ & -> & _ & _ & [?|[_ ?]]); [by left|by right].
  - apply (one_step_moves_elem _ _ _ _ _ H) in Hm as (_ & ? & _). by left.
  - apply (one_step_moves_elem _ _ _ _ _ H) in Hm as (_ & ? & _). by left.
Qed.

(** X4.  Every legal destination that [get_valid_moves] returns is for a
    piece of the side to move standing at the source, outside the frozen
    list; it is a cell of the board other than the source, and it is empty or
    holds a piece of the other team that the moving piece, an Attack, Defense
    or Support piece, takes: a move never lands on a piece of the mover's
    team, and a Magic piece or a General never takes. *)
Theorem legal_destination_safe b pos side bma rma turn second frozen moves m :
  get_valid_moves b pos side bma rma turn second frozen = Ok moves → m ∈ moves →
  ∃ piece,
    board_get b pos.1 pos.2 = Ok (Some piece) ∧ team piece = side
    ∧ (pos ∉ frozen) ∧ frozen_out pos side bma turn second = false
    ∧ on_board m ∧ m ≠ pos
    ∧ (empty_at b m ∨ can_capture (piece_type piece) = true ∧ enemy_at b side m).
Proof.
  intros H Hm. apply get_valid_moves_Ok in H as (cell & Hc & [->|H]).
  { by apply elem_of_nil in Hm. }
  destruct H as (piece & raw & -> & Ht & Hf & Hraw & Hout & ->).
  assert (m ∈ raw) as Hin.
  { destruct (can_retreat side bma rma); [done|].
    by apply no_retreat_elem in Hm as [? _]. }
  destruct (piece_moves_elem _ _ _ _ _ Hraw Hin) as (Hon & Hne & _).
  pose proof (piece_moves_target _ _ _ _ _ Hraw Hin) as Htarget.
  rewrite Ht in Htarget. exists piece. split_and!; done.
Qed.

Lemma legal_destination_safe_witness :
  ∃ piece,
    board_get create_initial_board (7, 0).1 (7, 0).2 = Ok (Some piece)
    ∧ team piece = RED
    ∧ ((7, 0) ∉ []) ∧ frozen_out (7, 0) RED true 1 false = false
    ∧ on_board (3, 0) ∧ (3, 0) ≠ (7, 0)
    ∧ (empty_at create_initial_board (3, 0)
       ∨ can_capture (piece_type piece) = true
         ∧ enemy_at create_initial_board RED (3, 0)).
Proof.
  apply (legal_destination_safe create_initial_board (7, 0) RED true true 1 false []
           [(6, 0); (5, 0); (4, 0); (3, 0); (8, 0)] (3, 0)).
  - vm_compute. reflexivity.
  - rewrite !elem_of_cons. auto.
Defined.

(** A piece that the turn-11 rule or the second-move rule holds back has no
    destination. *)
Lemma turn11_freeze_cond b pos side bma rma turn second frozen :
  wf_board b → -9 ≤ pos.2 < 9 →
  frozen_out pos side bma turn second = true →
  get_valid_moves b pos side bma rma turn second frozen = Ok [].
Proof.
  intros Hwf Hcol Hout.
  assert (0 ≤ pos.1 ≤ 4) as Hrow.
  { unfold frozen_out, is_in_blue_zone in Hout.
    apply orb_true_iff in Hout as [Hout|Hout];
      repeat (apply andb_true_iff in Hout as [Hout ?]);
      repeat match goal with H : bool_decide _ = true |- _ =>
        apply bool_decide_eq_true in H end; lia. }
  destruct (get_valid_moves_total b pos side bma rma turn second frozen Hwf)
    as [moves Hmoves]; [lia..|].
  rewrite Hmoves. f_equal.
  apply get_valid_moves_Ok in Hmoves as (cell & _ & [->|H]); [done|].
  destruct H as (_ & _ & _ & _ & _ & _ & Hout' & _). congruence.
Qed.

(** X5.  The turn-11 freeze and the second-move restriction, as a player
    meets them: while Blue's Magic piece is alive, at Red's move of turn 11,
    and at any second move, a request to move a piece that stands in rows 0
    to 4 is turned down with an error message whatever its destination, the
    game is left as it was, and [get_valid_moves] lists no destination for
    that piece. *)
Theorem frozen_piece_cannot_move g move player_id :
  wf_board (board g) → -9 ≤ (from_pos move).2 < 9 →
  frozen_out (from_pos move) (current_team g) (blue_magic_alive g) (turn_number g)
    (red_first_move_done g && red_double_move_active g) = true →
  (∃ e, make_move_game g move player_id = (Ok (Failure e), g))
  ∧ ∀ frozen,
      get_valid_moves (board g) (from_pos move) (current_team g) (blue_magic_alive g)
        (red_magic_alive g) (turn_number g)
        (red_first_move_done g && red_double_move_active g) frozen = Ok [].
Proof.
  intros Hwf Hcol Hout.
  pose proof (λ frozen, turn11_freeze_cond (board g) (from_pos move) (current_team g)
                (blue_magic_alive g) (red_magic_alive g) (turn_number g)
                (red_first_move_done g && red_double_move_active g) frozen
                Hwf Hcol Hout) as Hnone.
  split; [|done].
  destruct (make_move_game_cases g move player_id)
    as [(e & ? & _)|[(e & He & _)|(piece & Hacc & _)]]; [eauto| |].
  - exfalso. revert He. unfold make_move_game.
    destruct move as [[from_row from_col] to]. cbn [from_pos to_pos fst snd] in *.
    case_bool_decide; [done|]. destruct (not_your_turn g player_id); [done|].
    assert (0 ≤ from_row ≤ 4) as Hrow.
    { unfold frozen_out, is_in_blue_zone in Hout. cbn [fst] in Hout.
      apply orb_true_iff in Hout as [Hout|Hout];
        repeat (apply andb_true_iff in Hout as [Hout ?]);
        repeat match goal with H : bool_decide _ = true |- _ =>
          apply bool_decide_eq_true in H end; lia. }
    destruct (board_get_total (board g) from_row from_col Hwf) as [cell ->]; [lia..|].
    destruct cell as [piece|]; [|done]. case_bool_decide; [done|].
    destruct (get_frozen_positions_total g Hwf) as [frozen ->].
    destruct (_ && bool_decide _); [done|]. rewrite Hnone.
    by rewrite bool_decide_true by (by intros ?%elem_of_nil).
  - destruct Hacc as (_ & _ & _ & _ & _ & frozen & valid & _ & Hvalid & Hin).
    rewrite Hnone in Hvalid. injection Hvalid as <-. by apply elem_of_nil in Hin.
Qed.

Lemma frozen_piece_cannot_move_witness :
  (∃ e, make_move_game frozen_game (mkMove (3, 0) (4, 0)) None
        = (Ok (Failure e), frozen_game))
  ∧ ∀ frozen,
      get_valid_moves (board frozen_game) (from_pos (mkMove (3, 0) (4, 0)))
        (current_team frozen_game) (blue_magic_alive frozen_game)
        (red_magic_alive frozen_game) (turn_number frozen_game)
        (red_first_move_done frozen_game && red_double_move_active frozen_game)
        frozen = Ok [].
Proof.
  apply (frozen_piece_cannot_move frozen_game (mkMove (3, 0) (4, 0)) None).
  - split; [reflexivity|]. vm_compute. repeat constructor.
  - simpl. lia.
  - reflexivity.
Defined.

(** The same piece has twelve destinations when the turn number is not 11. *)
Example frozen_game_other_turn :
  get_valid_moves (board frozen_game) (3, 0) RED true true 10 false []
  = Ok [(4, 0); (5, 0); (6, 0); (7, 0); (3, 1); (3, 2); (3, 3); (3, 4); (3, 5);
        (3, 6); (3, 7); (3, 8)].
Proof. by vm_compute. Qed.

(** X6.  On a well-formed board [get_frozen_positions] returns; the
    positions it lists are the cells of rows 0 to 4 that hold a Red piece,
    when the turn number is 11, Blue's Magic piece is alive and Red is to
    move, and none otherwise. *)
Theorem get_frozen_positions_spec g :
  wf_board (board g) →
  ∃ l, get_frozen_positions g = Ok l
    ∧ ∀ q, q ∈ l ↔
        (turn_number g = 11 ∧ blue_magic_alive g = true ∧ current_team g = RED)
        ∧ on_board q ∧ q.1 ≤ 4
        ∧ ∃ p, board_get (board g) q.1 q.2 = Ok (Some p) ∧ team p = RED.
Proof.
  intros Hwf. destruct (get_frozen_positions_total g Hwf) as [l Hl].
  exists l. split; [done|]. intros q. unfold get_frozen_positions in Hl.
  destruct (bool_decide (turn_number g = 11) && blue_magic_alive g
            && bool_decide (current_team g = RED)) eqn:Hcond.
  2:{ injection Hl as <-. split; [by intros ?%elem_of_nil|].
      intros ((H1 & H2 & H3) & _). rewrite H2, !bool_decide_true in Hcond by done.
      done. }
  apply andb_true_iff in Hcond as [[H1%bool_decide_eq_true H2]%andb_true_iff
                                   H3%bool_decide_eq_true].
  rewrite (for_extend_Ok _ _ _ Hl q). split.
  - intros (row & ys & Hrow%elem_of_range & Hys & Hq).
    apply (for_extend_Ok _ _ _ Hys) in Hq as (col & zs & Hcol%elem_of_range & Hzs & Hq).
    inv_bind Hzs. destruct a as [p|]; [|injection Hzs as <-; by apply elem_of_nil in Hq].
    case_bool_decide; injection Hzs as <-; [|by apply elem_of_nil in Hq].
    apply list_elem_of_singleton in Hq as ->. unfold on_board. cbn [fst snd].
    split_and!; try done; try lia. eauto.
  - intros (_ & [Hr Hc] & Hrow & p & Hp & Hred). destruct q as [row col].
    cbn [fst snd] in *.
    destruct (for_extend_body_Ok _ _ _ row Hl) as [ys Hys]; [apply elem_of_range; lia|].
    exists row, ys. split_and!; [apply elem_of_range; lia|done|].
    apply (for_extend_Ok _ _ _ Hys). exists col, [(row, col)].
    split_and!; [apply elem_of_range; lia| |by left].
    rewrite Hp. cbn [mbind exc_bind]. by rewrite bool_decide_true.
Qed.

Lemma get_frozen_positions_spec_witness :
  ∃ l, get_frozen_positions frozen_game = Ok l
    ∧ ∀ q, q ∈ l ↔
        (turn_number frozen_game = 11 ∧ blue_magic_alive frozen_game = true
         ∧ current_team frozen_game = RED)
        ∧ on_board q ∧ q.1 ≤ 4
        ∧ ∃ p, board_get (board frozen_game) q.1 q.2 = Ok (Some p) ∧ team p = RED.
Proof.
  apply (get_frozen_positions_spec frozen_game).
  split; [reflexivity|]. vm_compute. repeat constructor.
Defined.

Example frozen_game_positions : get_frozen_positions frozen_game = Ok [(3, 0)].
Proof. by vm_compute. Qed.

(** ** The frozen list, and stalemate *)

Lemma for_first_ext {A R} (xs : list A) (f g : A → exc (option R)) :
  (∀ x, f x = g x) → for_first xs f = for_first xs g.
Proof.
  intros H. induction xs as [|x xs IH]; simpl; [done|]. by rewrite H, IH.
Qed.

(** With the list that [get_frozen_positions] computes for a game, the
    destinations of every position are those computed with no list. *)
Lemma get_valid_moves_frozen g frozen pos second :
  wf_board (board g) → get_frozen_positions g = Ok frozen →
  get_valid_moves (board g) pos (current_team g) (blue_magic_alive g)
    (red_magic_alive g) (turn_number g) second frozen
  = get_valid_moves (board g) pos (current_team g) (blue_magic_alive g)
      (red_magic_alive g) (turn_number g) second [].
Proof.
  intros Hwf Hfrozen. destruct (decide (pos ∈ frozen)) as [Hin|Hout].
  - destruct (get_frozen_positions_total g Hwf) as [l Hl].
    assert (l = frozen) as -> by congruence. clear Hl.
    unfold get_frozen_positions in Hfrozen.
    destruct (bool_decide (turn_number g = 11) && blue_magic_alive g
              && bool_decide (current_team g = RED)) eqn:Hcond.
    2:{ injection Hfrozen as <-. by apply elem_of_nil in Hin. }
    apply (for_extend_Ok _ _ _ Hfrozen) in Hin
      as (row & ys & Hrow%elem_of_range & Hys & Hq).
    apply (for_extend_Ok _ _ _ Hys) in Hq as (col & zs & Hcol%elem_of_range & Hzs & Hq).
    inv_bind Hzs. destruct a as [p|]; [|injection Hzs as <-; by apply elem_of_nil in Hq].
    case_bool_decide as Hred; injection Hzs as <-; [|by apply elem_of_nil in Hq].
    apply list_elem_of_singleton in Hq as ->.
    assert ((row, col) ∈ frozen) as Hin.
    { apply (for_extend_Ok _ _ _ Hfrozen). exists row, ys.
      split_and!; [by apply elem_of_range|done|].
      apply (for_extend_Ok _ _ _ Hys). exists col, [(row, col)].
      split_and!; [by apply elem_of_range| |by left].
      rewrite Ha. cbn [mbind exc_bind]. by rewrite bool_decide_true. }
    apply andb_true_iff in Hcond as [[H11%bool_decide_eq_true Hbma]%andb_true_iff
                                     Hteam%bool_decide_eq_true].
    transitivity (Ok ([] : list Pos)).
    + unfold get_valid_moves. rewrite Ha. cbn [mbind exc_bind].
      destruct (bool_decide (team p ≠ current_team g)); [done|].
      by rewrite (bool_decide_true _ Hin).
    + symmetry. apply turn11_freeze_cond; [done|cbn [fst snd]; lia|].
      unfold frozen_out, is_in_blue_zone. cbn [fst snd].
      rewrite Hbma, !bool_decide_true by (done || lia). done.
  - unfold get_valid_moves. destruct pos as [row col].
    destruct (board_get (board g) row col) as [[piece|]|]; cbn [mbind exc_bind]; try done.
    case_bool_decide; [done|].
    rewrite (bool_decide_false _ Hout).
    rewrite (bool_decide_false ((row, col) ∈ [])) by (by intros ?%elem_of_nil).
    done.
Qed.

Lemma is_checkmate_frozen g frozen :
  wf_board (board g) → get_frozen_positions g = Ok frozen →
  is_checkmate (board g) (current_team g) (blue_magic_alive g)
    (red_magic_alive g) (turn_number g) frozen
  = is_checkmate (board g) (current_team g) (blue_magic_alive g)
      (red_magic_alive g) (turn_number g) [].
Proof.
  intros Hwf Hfrozen.
  pose proof (λ pos second, get_valid_moves_frozen g frozen pos second Hwf Hfrozen) as H.
  unfold is_checkmate.
  destruct (is_general_in_check (board g) (current_team g) (blue_magic_alive g)
              (red_magic_alive g)) as [[|]|]; cbn [mbind exc_bind negb]; try done.
  erewrite for_first_ext; [done|]. intros r. cbv beta.
  apply for_first_ext; intros c. by rewrite H.
Qed.

Lemma is_stalemate_frozen g frozen :
  wf_board (board g) → get_frozen_positions g = Ok frozen →
  is_stalemate (board g) (current_team g) (blue_magic_alive g)
    (red_magic_alive g) (turn_number g) frozen
  = is_stalemate (board g) (current_team g) (blue_magic_alive g)
      (red_magic_alive g) (turn_number g) [].
Proof.
  intros Hwf Hfrozen.
  pose proof (λ pos second, get_valid_moves_frozen g frozen pos second Hwf Hfrozen) as H.
  unfold is_stalemate.
  erewrite for_first_ext; [done|]. intros r. cbv beta.
  apply for_first_ext; intros c. by rewrite H.
Qed.

(** X7.  The frozen list that the state machine computes for a game and
    passes on adds nothing to the turn-11 rule inside [get_valid_moves]: with
    that list and with the empty list, the legal destinations of every
    position, the checkmate test and the stalemate test of the side to move
    give the same answers. *)
Theorem frozen_list_redundant g frozen :
  wf_board (board g) → get_frozen_positions g = Ok frozen →
  (∀ pos second,
      get_valid_moves (board g) pos (current_team g) (blue_magic_alive g)
        (red_magic_alive g) (turn_number g) second frozen
      = get_valid_moves (board g) pos (current_team g) (blue_magic_alive g)
          (red_magic_alive g) (turn_number g) second [])
  ∧ is_checkmate (board g) (current_team g) (blue_magic_alive g)
      (red_magic_alive g) (turn_number g) frozen
    = is_checkmate (board g) (current_team g) (blue_magic_alive g)
        (red_magic_alive g) (turn_number g) []
  ∧ is_stalemate (board g) (current_team g) (blue_magic_alive g)
      (red_magic_alive g) (turn_number g) frozen
    = is_stalemate (board g) (current_team g) (blue_magic_alive g)
        (red_magic_alive g) (turn_number g) [].
Proof.
  intros Hwf Hfrozen. split_and!.
  - intros pos second. by apply get_valid_moves_frozen.
  - by apply is_checkmate_frozen.
  - by apply is_stalemate_frozen.
Qed.

Lemma frozen_list_redundant_witness :
  (∀ pos second,
      get_valid_moves (board frozen_game) pos (current_team frozen_game)
        (blue_magic_alive frozen_game) (red_magic_alive frozen_game)
        (turn_number frozen_game) second [(3, 0)]
      = get_valid_moves (board frozen_game) pos (current_team frozen_game)
          (blue_magic_alive frozen_game) (red_magic_alive frozen_game)
          (turn_number frozen_game) second [])
  ∧ is_checkmate (board frozen_game) (current_team frozen_game)
      (blue_magic_alive frozen_game) (red_magic_alive frozen_game)
      (turn_number frozen_game) [(3, 0)]
    = is_checkmate (board frozen_game) (current_team frozen_game)
        (blue_magic_alive frozen_game) (red_magic_alive frozen_game)
        (turn_number frozen_game) []
  ∧ is_stalemate (board frozen_game) (current_team frozen_game)
      (blue_magic_alive frozen_game) (red_magic_alive frozen_game)
      (turn_number frozen_game) [(3, 0)]
    = is_stalemate (board frozen_game) (current_team frozen_game)
        (blue_magic_alive frozen_game) (red_magic_alive frozen_game)
        (turn_number frozen_game) [].
Proof.
  apply (frozen_list_redundant frozen_game [(3, 0)]).
  - split; [reflexivity|]. vm_compute. repeat constructor.
  - vm_compute. reflexivity.
Defined.

(** The body of the loops of [is_stalemate] at one cell. *)
Lemma is_stalemate_cell b side bma rma turn frozen q :
  wf_board b → on_board q →
  ∃ moves,
    get_valid_moves b q side bma rma turn false frozen = Ok moves
    ∧ (piece ← board_get b q.1 q.2;
       match piece with
       | Some p =>
           if bool_decide (team p = side) then
             moves ← get_valid_moves b (q.1, q.2) side bma rma turn false frozen;
             match moves with
             | [] => Ok None
             | _ :: _ => Ok (Some false)
             end
           else Ok None
       | None => Ok None
       end) = Ok (match moves with [] => None | _ :: _ => Some false end).
Proof.
  intros Hwf Hq.
  destruct (get_valid_moves_total b q side bma rma turn false frozen Hwf)
    as [moves Hmoves]; [destruct Hq; lia..|].
  exists moves. split; [done|].
  rewrite <-surjective_pairing, Hmoves.
  pose proof Hmoves as (cell & Hcell & Hcases)%get_valid_moves_Ok.
  rewrite Hcell. cbn [mbind exc_bind].
  destruct cell as [p|].
  - case_bool_decide as Ht; [by destruct moves|].
    destruct Hcases as [->|(? & ? & [= <-] & ? & _)]; done.
  - destruct Hcases as [->|(? & ? & ? & _)]; done.
Qed.

Lemma is_stalemate_true b side bma rma turn frozen :
  wf_board b →
  (∀ pos, on_board pos →
     get_valid_moves b pos side bma rma turn false frozen = Ok []) →
  is_stalemate b side bma rma turn frozen = Ok true.
Proof.
  intros Hwf H. unfold is_stalemate.
  set (body := (λ row col : Z,
         piece ← board_get b row col;
         match piece with
         | Some p =>
             if bool_decide (team p = side) then
               moves ← get_valid_moves b (row, col) side bma rma turn false frozen;
               match moves with
               | [] => Ok None
               | _ :: _ => Ok (Some false)
               end
             else Ok None
         | None => Ok None
         end)).
  change (for_first (range 10) _) with
    (for_first (range 10) (λ r, for_first (range 9) (λ c, body r c))).
  assert (for_first (range 10) (λ r, for_first (range 9) (λ c, body r c)) = Ok None)
    as ->; [|done].
  apply scan_None. intros q Hq.
  destruct (is_stalemate_cell b side bma rma turn frozen q Hwf Hq) as (moves & Hm & Hb).
  unfold body. rewrite Hb. rewrite (H q Hq) in Hm. by injection Hm as <-.
Qed.

Lemma is_stalemate_false b side bma rma turn frozen pos m moves :
  wf_board b → on_board pos →
  get_valid_moves b pos side bma rma turn false frozen = Ok (m :: moves) →
  is_stalemate b side bma rma turn frozen = Ok false.
Proof.
  intros Hwf Hpos Hmoves.
  destruct (is_stalemate_total b side bma rma turn frozen Hwf) as [[|] Hv]; [|done].
  exfalso. unfold is_stalemate in Hv.
  set (body := (λ row col : Z,
         piece ← board_get b row col;
         match piece with
         | Some p =>
             if bool_decide (team p = side) then
               moves ← get_valid_moves b (row, col) side bma rma turn false frozen;
               match moves with
               | [] => Ok None
               | _ :: _ => Ok (Some false)
               end
             else Ok None
         | None => Ok None
         end)) in Hv.
  change (for_first (range 10) _) with
    (for_first (range 10) (λ r, for_first (range 9) (λ c, body r c))) in Hv.
  inv_bind Hv. destruct a as [v|].
  - apply scan_Some in Ha as (q & Hq & Hbody & _).
    destruct (is_stalemate_cell b side bma rma turn frozen q Hwf Hq) as (l & _ & Hb).
    unfold body in Hbody. rewrite Hb in Hbody. destruct l; congruence.
  - rewrite scan_None in Ha. specialize (Ha pos Hpos).
    destruct (is_stalemate_cell b side bma rma turn frozen pos Hwf Hpos) as (l & Hl & Hb).
    unfold body in Ha. rewrite Hb in Ha. rewrite Hmoves in Hl. by injection Hl as <-.
Qed.

(** X8.  On a well-formed board [is_stalemate] returns, and it answers true
    iff no position of the board has a legal destination for [side]
    (computed as a first move): check plays no part in the answer. *)
Theorem is_stalemate_spec b side bma rma turn frozen :
  wf_board b →
  ∃ v, is_stalemate b side bma rma turn frozen = Ok v
    ∧ (v = true ↔
       ∀ pos, on_board pos →
         get_valid_moves b pos side bma rma turn false frozen = Ok []).
Proof.
  intros Hwf.
  destruct (is_stalemate_total b side bma rma turn frozen Hwf) as [v Hv].
  exists v. split; [done|]. split.
  - intros -> pos Hpos.
    destruct (get_valid_moves_total b pos side bma rma turn false frozen Hwf)
      as [[|m moves] Hmoves]; [destruct Hpos; lia..|done|].
    rewrite (is_stalemate_false _ _ _ _ _ _ _ _ _ Hwf Hpos Hmoves) in Hv. done.
  - intros H. rewrite (is_stalemate_true _ _ _ _ _ _ Hwf H) in Hv. congruence.
Qed.

Lemma stalemate_board_wf : wf_board stalemate_board.
Proof. split; [reflexivity|]. vm_compute. repeat constructor. Qed.

Lemma is_stalemate_spec_witness :
  ∃ v, is_stalemate stalemate_board BLUE true true 5 [] = Ok v
    ∧ (v = true ↔
       ∀ pos, on_board pos →
         get_valid_moves stalemate_board pos BLUE true true 5 false [] = Ok []).
Proof.
  apply (is_stalemate_spec stalemate_board BLUE true true 5 []).
  split; [reflexivity|]. vm_compute. repeat constructor.
Defined.

Example stalemate_board_stalemate :
  is_stalemate stalemate_board BLUE true true 5 [] = Ok true
  ∧ is_general_in_check stalemate_board BLUE true true = Ok false
  ∧ is_checkmate stalemate_board BLUE true true 5 [] = Ok false.
Proof. by vm_compute. Qed.

(** X9.  A side that is in check and has no legal destination is
    checkmated: where [is_stalemate] and [is_general_in_check] both answer
    true, so does [is_checkmate].  As the state machine asks [is_checkmate]
    first, it declares a draw only for a side that is not in check. *)
Theorem stalemate_in_check_is_checkmate b side bma rma turn frozen :
  wf_board b →
  is_stalemate b side bma rma turn frozen = Ok true →
  is_general_in_check b side bma rma = Ok true →
  is_checkmate b side bma rma turn frozen = Ok true.
Proof.
  intros Hwf Hstale Hchk.
  destruct (is_checkmate_in_check b side bma rma turn frozen Hwf Hchk) as (v & Hv & Hiff).
  rewrite Hv. f_equal. apply Hiff. intros pos p moves m Hpos _ _ Hmoves Hm.
  destruct moves as [|m' moves]; [by apply elem_of_nil in Hm|].
  rewrite (is_stalemate_false _ _ _ _ _ _ _ _ _ Hwf Hpos Hmoves) in Hstale. done.
Qed.

Lemma stalemate_in_check_is_checkmate_witness :
  is_checkmate smothered_board BLUE true true 5 [] = Ok true.
Proof.
  apply (stalemate_in_check_is_checkmate smothered_board BLUE true true 5 []).
  - split; [reflexivity|]. vm_compute. repeat constructor.
  - vm_compute. reflexivity.
  - vm_compute. reflexivity.
Defined.

(** ** The status after a move *)

Lemma switch_turn_set_double_move g result :
  switch_turn (set_double_move false false None g) result = switch_turn g result.
Proof. destruct g as [? ? ? ? [] ? ? ? ? ? ? ? ? ?]; reflexivity. Qed.

(** The turn switch of a game in progress settles the status by the
    checkmate and the stalemate tests. *)
Lemma switch_turn_playing g result :
  wf_board (board g) → status g = PLAYING →
  ∃ st,
    switch_turn g result =
      (Ok (Success (mkMoveResult (captured result)
                      (if bool_decide (st = PLAYING) then game_status result else st)
                      (double_move result) (waiting_second_move result))),
       set_status st (next_turn g))
    ∧ verdict (next_turn g) st.
Proof.
  intros Hwf Hplaying. unfold switch_turn. fold (next_turn g).
  destruct (next_turn_fields g) as (_ & _ & _ & _ & _ & Hb & Hst & _).
  assert (wf_board (board (next_turn g))) as Hwf' by (by rewrite Hb).
  rewrite Hst, Hplaying in *. rewrite bool_decide_true by done.
  assert (∀ r, mkMoveResult (captured r) (game_status r) (double_move r)
                 (waiting_second_move r) = r) as Heta' by (by intros []).
  destruct (get_frozen_positions_total _ Hwf') as [fr Hfr]. rewrite Hfr.
  rewrite (is_checkmate_frozen _ _ Hwf' Hfr), (is_stalemate_frozen _ _ Hwf' Hfr).
  destruct (is_stalemate_total (board (next_turn g)) (current_team (next_turn g))
              (blue_magic_alive (next_turn g)) (red_magic_alive (next_turn g))
              (turn_number (next_turn g)) [] Hwf') as [stale Hstale].
  destruct (is_checkmate_total (board (next_turn g)) (current_team (next_turn g))
              (blue_magic_alive (next_turn g)) (red_magic_alive (next_turn g))
              (turn_number (next_turn g)) [] Hwf') as [mate Hmate].
  rewrite Hmate. destruct mate.
  - exists (win_of (enemy_of (current_team (next_turn g)))). split.
    + destruct (current_team (next_turn g)); by rewrite ?bool_decide_true by done.
    + exists true, stale. done.
  - rewrite Hstale. destruct stale.
    + exists DRAW. split; [done|]. by exists false, true.
    + exists PLAYING. rewrite bool_decide_true by done. split.
      * rewrite Heta'. do 2 f_equal. by rewrite <-Hst, set_status_same.
      * by exists false, false.
Qed.

(** The turn-11 logic when no second move is left pending: the turn is
    switched. *)
Lemma double_move_logic_switch g move result :
  second_move_pending g move = false →
  double_move_logic g move result = switch_turn g result.
Proof.
  unfold second_move_pending, double_move_logic. intros H.
  destruct (bool_decide (turn_number g = 11) && bool_decide (current_team g = RED)
            && red_magic_alive g && bool_decide (status g = PLAYING));
    cbn [andb] in *; [|done].
  destruct (red_first_move_done g); cbn [negb andb] in *.
  - apply switch_turn_set_double_move.
  - by rewrite H.
Qed.

(** An accepted move reaches the turn-11 logic with the game that [moved]
    describes. *)
Lemma make_move_game_moved g move player_id piece :
  wf_board (board g) → accepted g move player_id piece →
  ∃ cp b,
    board_get (board g) (to_pos move).1 (to_pos move).2 = Ok cp
    ∧ wf_board b
    ∧ make_move_game g move player_id =
        double_move_logic (moved g move cp b) move
          (mkMoveResult cp (status (moved g move cp b)) false false).
Proof.
  intros Hwf Hacc.
  destruct (make_move_game_cases g move player_id)
    as [(e & _ & Hno)|[(e & _ & Hno)|(piece' & Hacc' & ->)]];
    [by destruct (Hno piece)..|].
  assert (piece' = piece) as ->.
  { destruct Hacc as (_ & _ & H1 & _), Hacc' as (_ & _ & H2 & _). congruence. }
  clear Hacc'.
  destruct Hacc as (Hst & Hturn & Hpiece & Hteam & Hsecond & fr & vm & Hfr & Hvm & Hin).
  pose proof (get_valid_moves_on_board _ _ _ _ _ _ _ _ _ _ Hvm Hin) as Hon.
  destruct move as [[from_row from_col] [to_row to_col]].
  cbn [from_pos to_pos fst snd] in *.
  pose proof Hpiece as (Hr & Hc & _)%board_get_Ok; [|done].
  destruct (board_get_on_board _ _ Hwf Hon) as [cp Hcp]. cbn [fst snd] in Hcp.
  destruct (board_set_total (board g) to_row to_col (Some piece) Hwf) as [b1 Hb1];
    [destruct Hon; simpl in *; lia..|].
  pose proof Hb1 as (_ & _ & Hwf1 & _)%board_set_Ok; [|done].
  destruct (board_set_total b1 from_row from_col None Hwf1) as [b Hb]; [lia..|].
  pose proof Hb as (_ & _ & Hwf2 & _)%board_set_Ok; [|done].
  exists cp, b. split_and!; [done..|].
  unfold execute_move. cbn [from_pos to_pos]. rewrite Hcp, Hb1.
  cbn [board set_board]. rewrite Hb. done.
Qed.

(** X10.  The status after a move that the game accepted, which is also the
    status that the answer reports.  A move that takes a General wins for the
    mover.  A first move of Red at turn 11 that leaves a second move pending
    leaves the game in progress.  After any other move the status is that of
    the checkmate and stalemate tests for the side that is to move next: won
    by the mover when that side is checkmated, drawn when it is not
    checkmated and has no legal move, and in progress otherwise. *)
Theorem accepted_move_status g move player_id piece :
  wf_board (board g) → accepted g move player_id piece →
  ∃ cp b r g',
    make_move_game g move player_id = (Ok (Success r), g')
    ∧ board_get (board g) (to_pos move).1 (to_pos move).2 = Ok cp
    ∧ captured r = cp ∧ game_status r = status g'
    ∧ match cp with
      | Some (mkPiece GENERAL t) => status g' = win_of (team piece)
      | _ =>
          if second_move_pending (moved g move cp b) move
          then status g' = PLAYING
          else verdict (next_turn (moved g move cp b)) (status g')
               ∧ g' = set_status (status g') (next_turn (moved g move cp b))
      end.
Proof.
  intros Hwf Hacc.
  destruct (make_move_game_moved g move player_id piece Hwf Hacc)
    as (cp & b & Hcp & Hwfb & ->).
  destruct (make_move_game_accepted_Success g move player_id piece Hwf Hacc)
    as (cp' & _ & _ & _ & _ & Hcp' & Htarget & _).
  assert (cp' = cp) as -> by congruence. clear Hcp'.
  destruct (moved_fields g move cp b) as (Hb & _ & _ & _ & _ & _ & _ & _ & _ & Hst).
  cbn zeta in Hb, Hst.
  assert (status g = PLAYING) as Hplaying by (by destruct Hacc).
  exists cp, b.
  assert ((∃ t, cp = Some (mkPiece GENERAL t))
          ∨ ¬ ∃ t, cp = Some (mkPiece GENERAL t)) as [[t ->]|Hgen].
  { destruct cp as [[[] t]|]; eauto; right; by intros [? ?]. }
  - assert (status (moved g move (Some (mkPiece GENERAL t)) b) = win_of (team piece))
      as Hwin.
    { rewrite Hst. destruct Htarget as [?|(t' & [= <-] & Ht)]; [done|].
      cbn in Ht. by destruct t, (team piece). }
    rewrite double_move_logic_switch.
    2:{ unfold second_move_pending. rewrite Hwin.
        rewrite (bool_decide_false (win_of _ = PLAYING)) by (by destruct (team piece)).
        by rewrite !andb_false_r. }
    rewrite switch_turn_over by (rewrite Hwin; by destruct (team piece)).
    do 2 eexists. split; [done|]. split_and!; [done..| |].
    + cbn. by destruct (next_turn_fields (moved g move (Some (mkPiece GENERAL t)) b))
        as (_ & _ & _ & _ & _ & _ & -> & _).
    + by destruct (next_turn_fields (moved g move (Some (mkPiece GENERAL t)) b))
        as (_ & _ & _ & _ & _ & _ & -> & _).
  - assert (status (moved g move cp b) = PLAYING) as Hplaying1.
    { rewrite Hst. destruct cp as [[[] t]|]; try done. destruct Hgen. eauto. }
    assert (wf_board (board (moved g move cp b))) as Hwf1 by (by rewrite Hb).
    assert (∀ P : Prop, P →
              match cp with
              | Some (mkPiece GENERAL t) => False
              | _ => P
              end) as Hcase.
    { intros P HP. destruct cp as [[[] t]|]; try done. destruct Hgen. eauto. }
    destruct (second_move_pending (moved g move cp b) move) eqn:Hpend.
    + pose proof (double_move_logic_spec (moved g move cp b) move
                    (mkMoveResult cp (status (moved g move cp b)) false false) Hwf1) as H.
      rewrite Hpend in H. rewrite H. do 2 eexists. split; [done|].
      split_and!; [done..|].
      destruct cp as [[[] t]|]; try done. destruct Hgen. eauto.
    + rewrite (double_move_logic_switch _ _ _ Hpend).
      destruct (switch_turn_playing (moved g move cp b)
                  (mkMoveResult cp (status (moved g move cp b)) false false) Hwf1 Hplaying1)
        as (st & -> & Hverdict).
      do 2 eexists. split; [done|]. cbn [captured game_status].
      assert (status (set_status st (next_turn (moved g move cp b))) = st) as Hst'
        by done.
      split_and!; [done..| |].
      * rewrite Hst', Hplaying1. by case_bool_decide.
      * rewrite Hst'. destruct cp as [[[] t]|]; try done. destruct Hgen. eauto.
Qed.

Lemma accepted_move_status_witness :
  let g := new_local_game in
  let move := mkMove (7, 0) (3, 0) in
  let piece := mkPiece DEFENSE RED in
  ∃ cp b r g',
    make_move_game g move None = (Ok (Success r), g')
    ∧ board_get (board g) (to_pos move).1 (to_pos move).2 = Ok cp
    ∧ captured r = cp ∧ game_status r = status g'
    ∧ match cp with
      | Some (mkPiece GENERAL t) => status g' = win_of (team piece)
      | _ =>
          if second_move_pending (moved g move cp b) move
          then status g' = PLAYING
          else verdict (next_turn (moved g move cp b)) (status g')
               ∧ g' = set_status (status g') (next_turn (moved g move cp b))
      end.
Proof.
  apply (accepted_move_status new_local_game (mkMove (7, 0) (3, 0)) None
           (mkPiece DEFENSE RED)).
  - split; [reflexivity|]. vm_compute. repeat constructor.
  - split_and!; try (vm_compute; done).
    exists [], [(6, 0); (5, 0); (4, 0); (3, 0); (8, 0)].
    split_and!; [vm_compute; reflexivity..|].
    cbn [to_pos]. rewrite !elem_of_cons. auto.
Defined.

(** The first move of the example game leaves it in progress, with Blue to
    move. *)
Example first_move_status :
  let g' := (make_move_game new_local_game (mkMove (7, 0) (3, 0)) None).2 in
  status g' = PLAYING ∧ current_team g' = BLUE ∧ turn_number g' = 1.
Proof. by vm_compute. Qed.

(** ** One request on a game *)

Lemma after_move_fields g move cp b st :
  let g1 := moved g move cp b in
  let g' := after_move g move cp b st in
  board g' = b ∧ status g' = st
  ∧ game_id g' = game_id g ∧ mode g' = mode g
  ∧ blue_player_id g' = blue_player_id g ∧ red_player_id g' = red_player_id g
  ∧ move_history g' =
      move_history g ++ [mkHistoryEntry (turn_number g) (current_team g) move cp]
  ∧ blue_magic_alive g' =
      blue_magic_alive g && negb (bool_decide (cp = Some (mkPiece MAGIC BLUE)))
  ∧ red_magic_alive g' =
      red_magic_alive g && negb (bool_decide (cp = Some (mkPiece MAGIC RED)))
  ∧ red_first_move_done g' = second_move_pending g1 move
  ∧ red_double_move_active g' = second_move_pending g1 move
  ∧ current_team g' =
      (if second_move_pending g1 move then current_team g
       else enemy_of (current_team g))
  ∧ turn_number g' =
      (if second_move_pending g1 move then turn_number g
       else if bool_decide (current_team g = BLUE) then turn_number g + 1
       else turn_number g).
Proof.
  cbn zeta. unfold after_move.
  destruct (moved_fields g move cp b)
    as (Hb & (Hteam & Hturn & _) & Hid & Hmode & Hblue & Hred & Hlog & Hbma & Hrma & _).
  cbn zeta in *.
  destruct (second_move_pending (moved g move cp b) move).
  - cbn. rewrite Hb, Hid, Hmode, Hblue, Hred, Hlog, Hbma, Hrma, Hteam, Hturn. done.
  - destruct (next_turn_fields (moved g move cp b))
      as (Hteam' & Hturn' & Hact & Hdone & _ & Hb' & _ & Hbma' & Hrma' & Hlog').
    assert (game_id (next_turn (moved g move cp b)) = game_id (moved g move cp b)
            ∧ mode (next_turn (moved g move cp b)) = mode (moved g move cp b)
            ∧ blue_player_id (next_turn (moved g move cp b))
              = blue_player_id (moved g move cp b)
            ∧ red_player_id (next_turn (moved g move cp b))
              = red_player_id (moved g move cp b)) as (Hid' & Hmode' & Hblue' & Hred').
    { unfold next_turn.
      by destruct (bool_decide (current_team (moved g move cp b) = RED)). }
    cbn. rewrite Hb', Hid', Hmode', Hblue', Hred', Hlog', Hbma', Hrma', Hteam', Hturn',
      Hact, Hdone.
    rewrite Hb, Hid, Hmode, Hblue, Hred, Hlog, Hbma, Hrma, Hteam, Hturn. done.
Qed.

(** What a request does to a game with a well-formed board: nothing, or an
    accepted move, a skip of the second move, or a join. *)
Lemma run_op_step g op :
  wf_board (board g) →
  run_op g op = g
  ∨ (∃ move player_id piece cp b st,
       op = OpMove move player_id ∧ accepted g move player_id piece
       ∧ board_get (board g) (to_pos move).1 (to_pos move).2 = Ok cp
       ∧ (cp = None ∨ ∃ t, cp = Some t ∧ team t ≠ team piece)
       ∧ on_board (to_pos move)
       ∧ relocated (board g) (norm_pos (from_pos move)) (to_pos move) b
       ∧ board_get (board g) (norm_pos (from_pos move)).1 (norm_pos (from_pos move)).2
         = Ok (Some piece)
       ∧ run_op g op = after_move g move cp b st
       ∧ (status (moved g move cp b) ≠ PLAYING → st = status (moved g move cp b))
       ∧ st ∈ [status (moved g move cp b); RED_WIN; BLUE_WIN; DRAW])
  ∨ (∃ player_id,
       op = OpSkip player_id
       ∧ red_double_move_active g = true ∧ red_first_move_done g = true
       ∧ run_op g op = set_double_move false false None (set_current_team BLUE g))
  ∨ (∃ player_id,
       op = OpJoin player_id
       ∧ mode g = ONLINE ∧ status g = WAITING ∧ blue_player_id g = None
       ∧ run_op g op = set_status PLAYING (set_blue_player_id (Some player_id) g)).
Proof.
  intros Hwf. destruct op as [move player_id|player_id|player_id]; cbn [run_op].
  - destruct (accepted_dec g move player_id) as [[piece Hacc]|Hno].
    2:{ left. by apply make_move_game_turned_down. }
    right; left.
    destruct (make_move_game_accepted_Success g move player_id piece Hwf Hacc)
      as (cp & b & r & g' & -> & Hcp & Htarget & Hon & Hrel & Hpiece & Hres).
    cbn zeta in Hres. cbn [snd]. unfold after_move.
    destruct (second_move_pending (moved g move cp b) move) eqn:Hpend.
    + destruct Hres as [_ ->].
      exists move, player_id, piece, cp, b, (status (moved g move cp b)).
      split_and!; try done; [|by left]. rewrite Hpend. by destruct (moved g move cp b).
    + destruct Hres as (st & _ & -> & Hst & Hst').
      exists move, player_id, piece, cp, b, st. rewrite Hpend. split_and!; try done.
      rewrite !elem_of_cons. tauto.
  - unfold skip_second_move_game.
    destruct (red_double_move_active g) eqn:Hact, (red_first_move_done g) eqn:Hdone;
      cbn; eauto 10.
  - unfold join_game_game. case_bool_decide as Hmode; [by left|].
    case_bool_decide as Hst; [by left|].
    destruct (blue_player_id g) eqn:Hblue; [by left|].
    right; right; right. exists player_id.
    split_and!; try done; first [by destruct (mode g)|by destruct (status g)].
Qed.

(** ** Finished and waiting games *)

(** X11.  In a game reached from [create_game] whose status is not
    Playing, every move request and every skip request is turned down and
    leaves the game as it was; in one whose status is not Waiting, a join
    changes nothing.  So a finished game (won or drawn) never changes again,
    and a waiting game changes only by a join. *)
Theorem only_games_in_progress_change g :
  reachable g →
  (status g ≠ PLAYING →
     (∀ move player_id,
        make_move_game g move player_id = (Ok (Failure GameNotPlaying), g))
     ∧ (∀ player_id, skip_second_move_game g player_id = (Ok (Failure CannotSkip), g)))
  ∧ (status g ≠ WAITING → ∀ player_id, join_game_game g player_id = None)
  ∧ (status g ≠ PLAYING → status g ≠ WAITING → ∀ op, run_op g op = g).
Proof.
  intros Hreach.
  assert (status g ≠ PLAYING →
          (∀ move player_id,
             make_move_game g move player_id = (Ok (Failure GameNotPlaying), g))
          ∧ (∀ player_id,
               skip_second_move_game g player_id = (Ok (Failure CannotSkip), g)))
    as Hmove.
  { intros Hst. split.
    - intros move player_id. unfold make_move_game. by rewrite bool_decide_true.
    - intros player_id. unfold skip_second_move_game.
      destruct (red_first_move_done g) eqn:Hdone.
      + by destruct (reachable_pending g Hreach Hdone) as [? _].
      + by rewrite orb_true_r. }
  assert (status g ≠ WAITING → ∀ player_id, join_game_game g player_id = None) as Hjoin.
  { intros Hst player_id. unfold join_game_game. case_bool_decide; [done|].
    by rewrite bool_decide_true. }
  split_and!; [done..|].
  intros Hst Hst' [move player_id|player_id|player_id]; cbn [run_op].
  - by rewrite (proj1 (Hmove Hst)).
  - by rewrite (proj2 (Hmove Hst)).
  - by rewrite (Hjoin Hst').
Qed.

Lemma only_games_in_progress_change_witness :
  (status won_game ≠ PLAYING →
     (∀ move player_id,
        make_move_game won_game move player_id = (Ok (Failure GameNotPlaying), won_game))
     ∧ (∀ player_id,
          skip_second_move_game won_game player_id = (Ok (Failure CannotSkip), won_game)))
  ∧ (status won_game ≠ WAITING → ∀ player_id, join_game_game won_game player_id = None)
  ∧ (status won_game ≠ PLAYING → status won_game ≠ WAITING →
     ∀ op, run_op won_game op = won_game).
Proof.
  apply (only_games_in_progress_change won_game).
  repeat apply reachable_foldl. constructor.
Defined.

Example won_game_status : status won_game = RED_WIN.
Proof. by vm_compute. Qed.

(** ** Pieces that the game keeps track of *)

(** Where a piece stands after a move. *)
Lemma stands_relocated b pos m tb piece cp p q :
  relocated b pos m tb → on_board pos → on_board m →
  board_get b pos.1 pos.2 = Ok (Some piece) →
  board_get b m.1 m.2 = Ok cp →
  (cp = None ∨ ∃ t, cp = Some t ∧ team t ≠ team piece) →
  stands tb p q ↔
    (q = m ∧ p = piece) ∨ (q ≠ pos ∧ q ≠ m ∧ stands b p q).
Proof.
  intros [_ Hrel] Hpos Hm Hpiece Hcp Htarget.
  assert (pos ≠ m) as Hne.
  { intros ->. rewrite Hpiece in Hcp. injection Hcp as <-.
    destruct Htarget as [?|(t & [= <-] & ?)]; done. }
  unfold stands. split.
  - intros [Hq Hget]. rewrite (Hrel q Hq) in Hget.
    case_bool_decide as H1; [done|]. case_bool_decide as H2.
    + left. split; [done|]. congruence.
    + right. done.
  - intros [[-> ->]|(H1 & H2 & Hq & Hget)].
    + split; [done|]. rewrite (Hrel m Hm).
      rewrite bool_decide_false by done. by rewrite bool_decide_true.
    + split; [done|]. rewrite (Hrel q Hq).
      by rewrite !bool_decide_false.
Qed.

(** A piece [p] that stood on exactly one cell: after a move it stands on
    exactly one cell, unless it was taken, and then it stands on none. *)
Lemma once_relocated b pos m tb piece cp p q0 :
  relocated b pos m tb → on_board pos → on_board m →
  board_get b pos.1 pos.2 = Ok (Some piece) →
  board_get b m.1 m.2 = Ok cp →
  (cp = None ∨ ∃ t, cp = Some t ∧ team t ≠ team piece) →
  stands b p q0 → (∀ q, stands b p q → q = q0) →
  if bool_decide (cp = Some p) then ∀ q, ¬ stands tb p q
  else ∃ q1, stands tb p q1 ∧ ∀ q, stands tb p q → q = q1.
Proof.
  intros Hrel Hpos Hm Hpiece Hcp Htarget Hq0 Huniq.
  pose proof (λ q, stands_relocated b pos m tb piece cp p q
                     Hrel Hpos Hm Hpiece Hcp Htarget) as Hiff.
  assert (stands b piece pos) as Hstands by done.
  assert (cp ≠ Some piece) as Hcp'.
  { destruct Htarget as [->|(t & -> & Ht)]; [done|]. by intros [= ->]. }
  case_bool_decide as Htaken.
  - subst cp. assert (q0 = m) as -> by (symmetry; by apply Huniq).
    intros q [[-> ->]|(_ & H2 & Hq)]%Hiff; [done|]. by apply H2, Huniq.
  - destruct (decide (p = piece)) as [->|Hp].
    + exists m. split; [apply Hiff; by left|].
      intros q [[-> _]|(H1 & _ & Hq)]%Hiff; [done|].
      destruct H1. rewrite (Huniq q Hq). symmetry. by apply Huniq.
    + exists q0. split.
      * apply Hiff. right. split_and!; [| |done].
        -- intros ->. destruct Hq0 as [_ Hq0]. congruence.
        -- intros ->. destruct Hq0 as [_ Hq0]. congruence.
      * intros q [[_ ->]|(_ & _ & Hq)]%Hiff; [done|]. by apply Huniq.
Qed.

(** A piece that stood on no cell, and is not the one that moves, stands on
    none after the move. *)
Lemma absent_relocated b pos m tb piece cp p :
  relocated b pos m tb → on_board pos → on_board m →
  board_get b pos.1 pos.2 = Ok (Some piece) →
  board_get b m.1 m.2 = Ok cp →
  (cp = None ∨ ∃ t, cp = Some t ∧ team t ≠ team piece) →
  (∀ q, ¬ stands b p q) → ∀ q, ¬ stands tb p q.
Proof.
  intros Hrel Hpos Hm Hpiece Hcp Htarget Habs q
    [[-> ->]|(_ & _ & Hq)]%(stands_relocated b pos m tb piece cp p q
                              Hrel Hpos Hm Hpiece Hcp Htarget).
  - by apply (Habs pos).
  - by apply (Habs q).
Qed.

Lemma norm_pos_from_on_board b from piece :
  wf_board b →
  board_get b from.1 from.2 = Ok (Some piece) → on_board (norm_pos from).
Proof.
  intros Hwf (Hr & Hc & _)%board_get_Ok; [|done].
  unfold norm_pos, on_board; simpl. repeat case_bool_decide; lia.
Qed.

(** The layout has each General and each Magic piece on one cell. *)
Lemma layout_once kind t :
  kind = MAGIC ∨ kind = GENERAL →
  ∃ q0, stands create_initial_board (mkPiece kind t) q0
    ∧ ∀ q, stands create_initial_board (mkPiece kind t) q → q = q0.
Proof.
  intros Hkind. rewrite create_initial_board_layout.
  exists (match kind, t with
          | GENERAL, BLUE => (0, 4) | GENERAL, RED => (9, 4)
          | _, BLUE => (2, 4) | _, RED => (7, 4)
          end).
  split.
  - destruct Hkind as [-> | ->], t; split; try (vm_compute; done);
      unfold on_board; simpl; lia.
  - intros [r c] [Hq Hget]. rewrite (layout_get _ Hq) in Hget.
    injection Hget as Hget. unfold layout_cell in Hget. cbn [fst snd] in Hget.
    destruct Hkind as [-> | ->], t;
      repeat (case_bool_decide; simplify_eq); f_equal; try done; try lia.
Qed.

(** The invariant: a Magic piece stands on one cell while its flag is set
    and on none afterwards. *)
Lemma reachable_magic g t :
  reachable g →
  if magic_alive_of t g
  then ∃ q0, stands (board g) (mkPiece MAGIC t) q0
         ∧ ∀ q, stands (board g) (mkPiece MAGIC t) q → q = q0
  else ∀ q, ¬ stands (board g) (mkPiece MAGIC t) q.
Proof.
  induction 1 as [fresh_id mode player_id|g op Hreach IH].
  { assert (magic_alive_of t (create_game fresh_id mode player_id) = true) as ->.
    { unfold create_game. by destruct (_ && _), t. }
    rewrite create_game_board. apply layout_once. by left. }
  destruct (reachable_inv g Hreach) as [Hwf _].
  destruct (run_op_step g op Hwf)
    as [->|[(move & player_id & piece & cp & b & st & _ & Hacc & Hcp & Htarget & Hon
             & Hrel & Hpiece & -> & _ & _)
           |[(player_id & _ & _ & _ & ->)|(player_id & _ & _ & _ & _ & ->)]]];
    [done| |by destruct t..].
  destruct (after_move_fields g move cp b st)
    as (Hb & _ & _ & _ & _ & _ & _ & Hbma & Hrma & _).
  cbn zeta in *. rewrite Hb.
  assert (magic_alive_of t (after_move g move cp b st)
          = magic_alive_of t g && negb (bool_decide (cp = Some (mkPiece MAGIC t))))
    as -> by (by destruct t).
  assert (on_board (norm_pos (from_pos move))) as Hfrom.
  { destruct Hacc as (_ & _ & Hp & _). by eapply norm_pos_from_on_board. }
  destruct (magic_alive_of t g).
  - destruct IH as (q0 & Hq0 & Huniq).
    pose proof (once_relocated _ _ _ _ _ _ _ _ Hrel Hfrom Hon Hpiece Hcp Htarget
                  Hq0 Huniq) as H.
    by destruct (bool_decide (cp = Some (mkPiece MAGIC t))).
  - cbn [andb]. by eapply absent_relocated.
Qed.

(** X12.  In every game reached from [create_game] the magic-alive flag of
    a team is set exactly when that team's Magic piece stands on the board,
    and the piece never stands on two cells. *)
Theorem magic_flag_tracks_board g t :
  reachable g →
  (magic_alive_of t g = true ↔ ∃ q, stands (board g) (mkPiece MAGIC t) q)
  ∧ ∀ q q', stands (board g) (mkPiece MAGIC t) q →
            stands (board g) (mkPiece MAGIC t) q' → q = q'.
Proof.
  intros Hreach. pose proof (reachable_magic g t Hreach) as H.
  destruct (magic_alive_of t g).
  - destruct H as (q0 & Hq0 & Huniq). split; [split; eauto|].
    intros q q' Hq Hq'. by rewrite (Huniq q Hq), (Huniq q' Hq').
  - split.
    + split; [done|]. intros [q Hq]. by destruct (H q).
    + intros q q' Hq. by destruct (H q).
Qed.

Lemma magic_flag_tracks_board_witness :
  (magic_alive_of BLUE before_general_capture = true
   ↔ ∃ q, stands (board before_general_capture) (mkPiece MAGIC BLUE) q)
  ∧ ∀ q q', stands (board before_general_capture) (mkPiece MAGIC BLUE) q →
            stands (board before_general_capture) (mkPiece MAGIC BLUE) q' → q = q'.
Proof.
  apply (magic_flag_tracks_board before_general_capture BLUE).
  repeat apply reachable_foldl. constructor.
Defined.

(** The invariant: a General stands on one cell, or on none in a game that
    the other team has won. *)
Lemma reachable_general g t :
  reachable g →
  (∃ q0, stands (board g) (mkPiece GENERAL t) q0
     ∧ ∀ q, stands (board g) (mkPiece GENERAL t) q → q = q0)
  ∨ ((∀ q, ¬ stands (board g) (mkPiece GENERAL t) q)
     ∧ status g = win_of (enemy_of t)).
Proof.
  induction 1 as [fresh_id mode player_id|g op Hreach IH].
  { left. rewrite create_game_board. apply layout_once. by right. }
  destruct (reachable_inv g Hreach) as [Hwf _].
  destruct (run_op_step g op Hwf)
    as [->|[(move & player_id & piece & cp & b & st & _ & Hacc & Hcp & Htarget & Hon
             & Hrel & Hpiece & -> & Hst & _)
           |[(player_id & _ & _ & _ & ->)|(player_id & _ & _ & Hwait & _ & ->)]]];
    [done| |done|].
  2:{ destruct IH as [IH|[_ IH]]; [by left|]. rewrite IH in Hwait. by destruct t. }
  destruct (after_move_fields g move cp b st) as (Hb & Hst' & _).
  cbn zeta in *. rewrite Hb, Hst'.
  assert (on_board (norm_pos (from_pos move))) as Hfrom.
  { destruct Hacc as (_ & _ & Hp & _). by eapply norm_pos_from_on_board. }
  destruct IH as [(q0 & Hq0 & Huniq)|[_ IH]].
  2:{ destruct Hacc as [Hplaying _]. rewrite IH in Hplaying. by destruct t. }
  pose proof (once_relocated _ _ _ _ _ _ _ _ Hrel Hfrom Hon Hpiece Hcp Htarget
                Hq0 Huniq) as H.
  case_bool_decide as Htaken; [|by left].
  right. split; [done|].
  destruct (moved_fields g move cp b) as (_ & _ & _ & _ & _ & _ & _ & _ & _ & Hst1).
  cbn zeta in Hst1. subst cp.
  rewrite Hst; rewrite Hst1; [done|by destruct t].
Qed.

(** X13.  In every game reached from [create_game] a General never stands
    on two cells, and a General that stands on no cell belongs to a game
    that the other team has won: while a game is waiting, in progress or
    drawn, both Generals are on the board. *)
Theorem generals_tracked g t :
  reachable g →
  (∀ q q', stands (board g) (mkPiece GENERAL t) q →
           stands (board g) (mkPiece GENERAL t) q' → q = q')
  ∧ ((∃ q, stands (board g) (mkPiece GENERAL t) q)
     ∨ status g = win_of (enemy_of t))
  ∧ (status g ∈ [WAITING; PLAYING; DRAW] →
     ∃ q, stands (board g) (mkPiece GENERAL t) q).
Proof.
  intros Hreach.
  destruct (reachable_general g t Hreach) as [(q0 & Hq0 & Huniq)|[Habs Hst]].
  - split_and!; [|by eauto..].
    intros q q' Hq Hq'. by rewrite (Huniq q Hq), (Huniq q' Hq').
  - split_and!; [|by right|].
    + intros q q' Hq. by destruct (Habs q).
    + rewrite Hst. intros Hin. exfalso.
      destruct t; repeat (apply elem_of_cons in Hin as [Hin|Hin]; [done|]);
        by apply elem_of_nil in Hin.
Qed.

Lemma generals_tracked_witness :
  (∀ q q', stands (board won_game) (mkPiece GENERAL BLUE) q →
           stands (board won_game) (mkPiece GENERAL BLUE) q' → q = q')
  ∧ ((∃ q, stands (board won_game) (mkPiece GENERAL BLUE) q)
     ∨ status won_game = win_of (enemy_of BLUE))
  ∧ (status won_game ∈ [WAITING; PLAYING; DRAW] →
     ∃ q, stands (board won_game) (mkPiece GENERAL BLUE) q).
Proof.
  apply (generals_tracked won_game BLUE).
  repeat apply reachable_foldl. constructor.
Defined.

(** ** The move log and the turn *)

Lemma blue_moves_snoc log e :
  blue_moves (log ++ [e])
  = (blue_moves log + if bool_decide (h_team e = BLUE) then 1 else 0)%nat.
Proof.
  unfold blue_moves. rewrite filter_app, length_app. f_equal.
  rewrite filter_cons, filter_nil. case_decide.
  - by rewrite bool_decide_true.
  - by rewrite bool_decide_false.
Qed.

Lemma second_move_pending_red g move :
  second_move_pending g move = true → current_team g = RED.
Proof.
  unfold second_move_pending. intros H.
  repeat (apply andb_prop in H as [H ?]).
  by repeat match goal with H : bool_decide _ = true |- _ =>
    apply bool_decide_eq_true in H end.
Qed.

(** The invariant that ties the turn to the log. *)
Lemma reachable_log g :
  reachable g →
  turn_number g = 1 + Z.of_nat (blue_moves (move_history g))
  ∧ match last (move_history g) with
    | None => current_team g = RED ∧ red_first_move_done g = false
    | Some e =>
        if bool_decide (h_team e = BLUE)
        then current_team g = RED ∧ red_first_move_done g = false
        else current_team g = RED ↔ red_first_move_done g = true
    end.
Proof.
  induction 1 as [fresh_id mode player_id|g op Hreach [IHturn IHlast]].
  { unfold create_game. by destruct (_ && _). }
  destruct (reachable_inv g Hreach) as [Hwf _].
  destruct (run_op_step g op Hwf)
    as [->|[(move & player_id & piece & cp & b & st & _ & _ & _ & _ & _ & _ & _ & -> & _)
           |[(player_id & _ & _ & Hdone & ->)|(player_id & _ & _ & _ & _ & ->)]]];
    [done| | |done].
  - destruct (after_move_fields g move cp b st)
      as (_ & _ & _ & _ & _ & _ & Hlog & _ & _ & Hdone & _ & Hteam & Hturn).
    cbn zeta in *. rewrite Hlog, Hdone, Hteam, Hturn, last_snoc, blue_moves_snoc.
    cbn [h_team].
    destruct (second_move_pending (moved g move cp b) move) eqn:Hpend.
    + apply second_move_pending_red in Hpend.
      destruct (moved_fields g move cp b) as (_ & (Hsame & _) & _).
      cbn zeta in Hsame. rewrite Hsame in Hpend. rewrite Hpend.
      rewrite bool_decide_false by done. split; [lia|done].
    + destruct (current_team g); rewrite ?bool_decide_true, ?bool_decide_false by done;
        cbn [enemy_of]; split; try lia; done.
  - cbn. split; [done|].
    destruct (last (move_history g)) as [e|]; [|by destruct IHlast; congruence].
    case_bool_decide; [by destruct IHlast; congruence|]. done.
Qed.

(** X14.  In every game reached from [create_game] the turn number is one
    more than the number of Blue's moves in the log, and the log tells whose
    move it is: Blue is to move exactly when the last logged move is Red's
    and Red has no second move pending; so Red moves first and the sides
    take turns, but for Red's double move. *)
Theorem turn_follows_log g :
  reachable g →
  turn_number g = 1 + Z.of_nat (blue_moves (move_history g))
  ∧ (current_team g = BLUE ↔
     (∃ e, last (move_history g) = Some e ∧ h_team e = RED)
     ∧ red_first_move_done g = false).
Proof.
  intros (Hturn & Hlast)%reachable_log. split; [done|].
  destruct (last (move_history g)) as [e|].
  - case_bool_decide as He.
    + destruct Hlast as [Hred _]. rewrite Hred. split; [done|].
      intros [(e' & [= <-] & He') _]. congruence.
    + split.
      * intros Hblue. split; [exists e; by destruct (h_team e)|].
        destruct (red_first_move_done g); [|done].
        destruct Hlast as [_ Hlast]. rewrite Hlast in Hblue; done.
      * intros [_ Hdone]. destruct (current_team g) eqn:Hteam; [done|].
        destruct Hlast as [Hlast _]. rewrite Hlast in Hdone; done.
  - destruct Hlast as [-> _]. split; [done|]. by intros [(e & ? & _) _].
Qed.

Lemma turn_follows_log_witness :
  turn_number frozen_game = 1 + Z.of_nat (blue_moves (move_history frozen_game))
  ∧ (current_team frozen_game = BLUE ↔
     (∃ e, last (move_history frozen_game) = Some e ∧ h_team e = RED)
     ∧ red_first_move_done frozen_game = false).
Proof.
  apply (turn_follows_log frozen_game).
  apply reachable_foldl. constructor.
Defined.

(** X15.  What a move that the game accepted does, on a well-formed board:
    the source held a piece of the side to move; the piece now stands on the
    destination, the source is empty and every other cell is as it was; the
    answer reports as captured what stood on the destination, which is
    nothing or a piece of the other team; and the log gains one entry, with
    the turn number, the mover, the move and that piece.  The identity of the
    game, its mode and its players stay. *)
Theorem accepted_move_effect g move player_id r g' :
  wf_board (board g) →
  make_move_game g move player_id = (Ok (Success r), g') →
  ∃ piece,
    board_get (board g) (from_pos move).1 (from_pos move).2 = Ok (Some piece)
    ∧ team piece = current_team g
    ∧ board_get (board g) (to_pos move).1 (to_pos move).2 = Ok (captured r)
    ∧ (captured r = None ∨ ∃ t, captured r = Some t ∧ team t ≠ current_team g)
    ∧ on_board (to_pos move)
    ∧ relocated (board g) (norm_pos (from_pos move)) (to_pos move) (board g')
    ∧ move_history g' =
        move_history g
        ++ [mkHistoryEntry (turn_number g) (current_team g) move (captured r)]
    ∧ game_id g' = game_id g ∧ mode g' = mode g
    ∧ blue_player_id g' = blue_player_id g ∧ red_player_id g' = red_player_id g.
Proof.
  intros Hwf Hmove.
  destruct (make_move_game_Success g move player_id r g' Hwf Hmove)
    as (piece & cp & b & Hacc & Hcp & Htarget & Hon & Hrel & Hpiece & Hres).
  cbn zeta in Hres.
  assert (captured r = cp ∧ ∃ st, g' = after_move g move cp b st) as [Hr [st ->]].
  { unfold after_move. destruct (second_move_pending (moved g move cp b) move).
    - destruct Hres as [-> ->]. split; [done|].
      exists (status (moved g move cp b)). by destruct (moved g move cp b).
    - destruct Hres as (st & -> & -> & _). eauto. }
  destruct (after_move_fields g move cp b st)
    as (Hb & _ & Hid & Hmode & Hblue & Hred & Hlog & _).
  cbn zeta in *. rewrite Hb, Hr, Hlog.
  destruct Hacc as (_ & _ & Hfrom & Hteam & _).
  exists piece. split_and!; try done. by rewrite <-Hteam.
Qed.

Lemma accepted_move_effect_witness :
  let g := before_magic_capture in
  let move := magic_capture in
  let r := mkMoveResult (Some (mkPiece MAGIC BLUE)) PLAYING false false in
  let g' := (make_move_game g move None).2 in
  ∃ piece,
    board_get (board g) (from_pos move).1 (from_pos move).2 = Ok (Some piece)
    ∧ team piece = current_team g
    ∧ board_get (board g) (to_pos move).1 (to_pos move).2 = Ok (captured r)
    ∧ (captured r = None ∨ ∃ t, captured r = Some t ∧ team t ≠ current_team g)
    ∧ on_board (to_pos move)
    ∧ relocated (board g) (norm_pos (from_pos move)) (to_pos move) (board g')
    ∧ move_history g' =
        move_history g
        ++ [mkHistoryEntry (turn_number g) (current_team g) move (captured r)]
    ∧ game_id g' = game_id g ∧ mode g' = mode g
    ∧ blue_player_id g' = blue_player_id g ∧ red_player_id g' = red_player_id g.
Proof.
  apply (accepted_move_effect before_magic_capture magic_capture None).
  - split; [reflexivity|]. vm_compute. repeat constructor.
  - vm_compute. reflexivity.
Defined.

(** ** The destinations shown and the moves accepted *)

(** X16.  The destinations that [get_valid_moves_for_piece] lists for a
    position are exactly the destinations to which [make_move] accepts a move
    from that position, for a player who is allowed to move: what a client
    shows as legal is what the game accepts. *)
Theorem shown_moves_are_accepted g pos moves to player_id :
  wf_board (board g) → not_your_turn g player_id = false →
  get_valid_moves_for_piece_game g pos = Ok moves →
  to ∈ moves ↔
    ∃ r g', make_move_game g (mkMove pos to) player_id = (Ok (Success r), g').
Proof.
  intros Hwf Hturn Hshown. unfold get_valid_moves_for_piece_game in Hshown. split.
  - intros Hin.
    case_bool_decide as Hst; [injection Hshown as <-; by apply elem_of_nil in Hin|].
    try apply dec_stable in Hst.
    inv_bind Hshown. rename a into frozen.
    destruct (red_first_move_done g && red_double_move_active g) eqn:Hsecond;
      cbn [andb] in Hshown.
    + case_bool_decide as Hpos;
        [injection Hshown as <-; by apply elem_of_nil in Hin|].
      try apply dec_stable in Hpos.
      destruct (get_valid_moves_elem _ _ _ _ _ _ _ _ _ _ Hshown Hin)
        as (piece & raw & Hpiece & Hteam & _).
      destruct (make_move_game_accepted_Success g (mkMove pos to) player_id piece Hwf)
        as (cp & b & r & g' & Hmove & _); [|by eauto].
      unfold accepted. cbn [from_pos to_pos]. rewrite Hsecond.
      split_and!; try done. eauto.
    + destruct (get_valid_moves_elem _ _ _ _ _ _ _ _ _ _ Hshown Hin)
        as (piece & raw & Hpiece & Hteam & _).
      destruct (make_move_game_accepted_Success g (mkMove pos to) player_id piece Hwf)
        as (cp & b & r & g' & Hmove & _); [|by eauto].
      unfold accepted. cbn [from_pos to_pos]. rewrite Hsecond.
      split_and!; try done. eauto.
  - intros (r & g' & Hmove).
    destruct (make_move_game_Success g (mkMove pos to) player_id r g' Hwf Hmove)
      as (piece & cp & b & Hacc & _).
    destruct Hacc as (Hst & _ & _ & _ & Hsecond & frozen & valid & Hfrozen & Hvalid & Hin).
    cbn [from_pos to_pos] in *.
    rewrite bool_decide_false in Hshown by (by intros []).
    rewrite Hfrozen in Hshown. cbn [mbind exc_bind] in Hshown.
    destruct (red_first_move_done g && red_double_move_active g) eqn:Hsecond';
      cbn [andb] in Hshown.
    + rewrite bool_decide_false in Hshown by (intros []; by apply Hsecond).
      congruence.
    + congruence.
Qed.

Lemma shown_moves_are_accepted_witness :
  (3, 0) ∈ [(6, 0); (5, 0); (4, 0); (3, 0); (8, 0)] ↔
    ∃ r g', make_move_game new_local_game (mkMove (7, 0) (3, 0)) None
            = (Ok (Success r), g').
Proof.
  apply (shown_moves_are_accepted new_local_game (7, 0)
           [(6, 0); (5, 0); (4, 0); (3, 0); (8, 0)] (3, 0) None).
  - split; [reflexivity|]. vm_compute. repeat constructor.
  - reflexivity.
  - vm_compute. reflexivity.
Defined.

(** ** Waiting games and joins *)

(** A waiting game is an online game as [create_game] made it. *)
Lemma reachable_waiting g :
  reachable g → status g = WAITING →
  ∃ fresh_id player_id, g = create_game fresh_id ONLINE player_id.
Proof.
  induction 1 as [fresh_id mode player_id|g op Hreach IH].
  { intros Hst. exists fresh_id, player_id. destruct mode; try done.
    all: unfold create_game in Hst; cbn in Hst; by destruct (truthy player_id). }
  destruct (reachable_inv g Hreach) as [Hwf _].
  destruct (run_op_step g op Hwf)
    as [->|[(move & player_id & piece & cp & b & st & _ & Hacc & _ & _ & _ & _ & _ & ->
             & _ & Hst)
           |[(player_id & _ & _ & Hdone & ->)|(player_id & _ & _ & _ & _ & ->)]]];
    [done| | |done].
  - destruct (after_move_fields g move cp b st) as (_ & -> & _).
    intros ->.
    destruct (moved_fields g move cp b) as (_ & _ & _ & _ & _ & _ & _ & _ & _ & Hst1).
    cbn zeta in Hst1. destruct Hacc as [Hplaying _]. rewrite Hplaying in Hst1.
    repeat (apply elem_of_cons in Hst as [Hst|Hst]; [try done|]).
    + rewrite Hst1 in Hst. by destruct cp as [[[] []]|].
    + by apply elem_of_nil in Hst.
  - cbn. intros Hst. by destruct (reachable_pending g Hreach Hdone) as [? _]; congruence.
Qed.

(** X17.  In every game reached from [create_game], a join succeeds exactly
    when the game is waiting, and a waiting game is an online game as
    [create_game] made it: no request but a join has changed it.  The join
    makes the joiner the Blue player and starts the game, from the initial
    layout with Red to move at turn 1; no later join succeeds. *)
Theorem join_game_spec g player_id :
  reachable g →
  (status g = WAITING ↔ ∃ g', join_game_game g player_id = Some g')
  ∧ (status g = WAITING →
     ∃ fresh_id red_player, g = create_game fresh_id ONLINE red_player)
  ∧ ∀ g', join_game_game g player_id = Some g' →
      status g' = PLAYING ∧ blue_player_id g' = Some player_id
      ∧ red_player_id g' = red_player_id g
      ∧ board g' = create_initial_board ∧ current_team g' = RED
      ∧ turn_number g' = 1 ∧ move_history g' = []
      ∧ ∀ player_id', join_game_game g' player_id' = None.
Proof.
  intros Hreach. pose proof (reachable_waiting g Hreach) as Hwait.
  assert (∀ g', join_game_game g player_id = Some g' → status g = WAITING) as Hjoin.
  { intros g'. unfold join_game_game. case_bool_decide; [done|].
    case_bool_decide as Hst; [done|]. intros _. by destruct (status g). }
  split_and!; [split| |].
  - intros (fresh_id & red_player & ->)%Hwait.
    unfold join_game_game, create_game. cbn. destruct (truthy red_player); cbn; eauto.
  - intros [g' Hg']. by eapply Hjoin.
  - done.
  - intros g' Hg'. destruct (Hwait (Hjoin g' Hg')) as (fresh_id & red_player & ->).
    revert Hg'. unfold join_game_game, create_game. cbn.
    destruct (truthy red_player); cbn; intros [= <-]; split_and!; done.
Qed.

Lemma join_game_spec_witness :
  (status new_online_game = WAITING
   ↔ ∃ g', join_game_game new_online_game "bob" = Some g')
  ∧ (status new_online_game = WAITING →
     ∃ fresh_id red_player, new_online_game = create_game fresh_id ONLINE red_player)
  ∧ ∀ g', join_game_game new_online_game "bob" = Some g' →
      status g' = PLAYING ∧ blue_player_id g' = Some "bob"
      ∧ red_player_id g' = red_player_id new_online_game
      ∧ board g' = create_initial_board ∧ current_team g' = RED
      ∧ turn_number g' = 1 ∧ move_history g' = []
      ∧ ∀ player_id', join_game_game g' player_id' = None.
Proof.
  apply (join_game_spec new_online_game "bob"). constructor.
Defined.

(** ** The registry of games *)

Lemma run_op_game_id g op : reachable g → game_id (run_op g op) = game_id g.
Proof.
  intros Hreach. destruct (reachable_inv g Hreach) as [Hwf _].
  destruct (run_op_step g op Hwf)
    as [->|[(move & player_id & piece & cp & b & st & _ & _ & _ & _ & _ & _ & _ & -> & _)
           |[(player_id & _ & _ & _ & ->)|(player_id & _ & _ & _ & _ & ->)]]];
    [done| |done..].
  by destruct (after_move_fields g move cp b st) as (_ & _ & -> & _).
Qed.

Lemma create_game_game_id fresh_id mode player_id :
  game_id (create_game fresh_id mode player_id) = fresh_id.
Proof. unfold create_game. by destruct (_ && _). Qed.

(** Every game of a registry is a game reached from [create_game], stored
    under its own id. *)
Lemma manager_reachable_games m :
  manager_reachable m →
  ∀ id g, GameManager.games m !! id = Some g → reachable g ∧ game_id g = id.
Proof.
  induction 1 as [|m op _ IH]; intros id g.
  { unfold GameManager.init. cbn. by rewrite lookup_empty. }
  destruct op as [fresh_id mode player_id|game_id player_id|game_id move player_id
                 |game_id player_id|game_id]; cbn.
  - rewrite create_game_game_id.
    destruct (decide (fresh_id = id)) as [->|Hne].
    + rewrite lookup_insert_eq. intros [= <-].
      split; [constructor|apply create_game_game_id].
    + rewrite lookup_insert_ne by done. apply IH.
  - unfold GameManager.join_game.
    destruct (GameManager.games m !! game_id) as [game|] eqn:Hgame; [|apply IH].
    destruct (IH _ _ Hgame) as [Hreach Hid].
    destruct (join_game_game game player_id) as [game'|] eqn:Hjoin; [|apply IH].
    cbn. destruct (decide (game_id = id)) as [->|Hne].
    + rewrite lookup_insert_eq. intros [= <-].
      assert (game' = run_op game (OpJoin player_id)) as ->.
      { cbn. by rewrite Hjoin. }
      split; [by constructor|]. by rewrite run_op_game_id.
    + rewrite lookup_insert_ne by done. apply IH.
  - unfold GameManager.make_move.
    destruct (GameManager.games m !! game_id) as [game|] eqn:Hgame; [|apply IH].
    destruct (IH _ _ Hgame) as [Hreach Hid].
    destruct (make_move_game game move player_id) as [r game'] eqn:Hmove.
    cbn. destruct (decide (game_id = id)) as [->|Hne].
    + rewrite lookup_insert_eq. intros [= <-].
      assert (game' = run_op game (OpMove move player_id)) as ->.
      { cbn. by rewrite Hmove. }
      split; [by constructor|]. by rewrite run_op_game_id.
    + rewrite lookup_insert_ne by done. apply IH.
  - unfold GameManager.skip_second_move.
    destruct (GameManager.games m !! game_id) as [game|] eqn:Hgame; [|apply IH].
    destruct (IH _ _ Hgame) as [Hreach Hid].
    destruct (skip_second_move_game game player_id) as [r game'] eqn:Hskip.
    cbn. destruct (decide (game_id = id)) as [->|Hne].
    + rewrite lookup_insert_eq. intros [= <-].
      assert (game' = run_op game (OpSkip player_id)) as ->.
      { cbn. by rewrite Hskip. }
      split; [by constructor|]. by rewrite run_op_game_id.
    + rewrite lookup_insert_ne by done. apply IH.
  - unfold GameManager.delete_game. cbn.
    destruct (decide (game_id = id)) as [->|Hne].
    + by rewrite lookup_delete_eq.
    + rewrite lookup_delete_ne by done. apply IH.
Qed.

(** A request leaves alone every game that it does not name. *)
Lemma run_manager_op_frame m op id :
  op_game_id op ≠ Some id →
  GameManager.games (run_manager_op m op) !! id = GameManager.games m !! id.
Proof.
  destruct op as [fresh_id mode player_id|game_id player_id|game_id move player_id
                 |game_id player_id|game_id]; cbn; intros Hne.
  - rewrite create_game_game_id. apply lookup_insert_ne. congruence.
  - unfold GameManager.join_game.
    destruct (GameManager.games m !! game_id) as [game|]; [|done].
    destruct (join_game_game game player_id); [|done].
    cbn. apply lookup_insert_ne. congruence.
  - unfold GameManager.make_move.
    destruct (GameManager.games m !! game_id) as [game|]; [|done].
    destruct (make_move_game game move player_id).
    cbn. apply lookup_insert_ne. congruence.
  - unfold GameManager.skip_second_move.
    destruct (GameManager.games m !! game_id) as [game|]; [|done].
    destruct (skip_second_move_game game player_id).
    cbn. apply lookup_insert_ne. congruence.
  - unfold GameManager.delete_game. cbn. apply lookup_delete_ne. congruence.
Qed.

(** X18.  The registry that any sequence of requests builds from the empty
    one holds, under each id, a game that was reached from [create_game] by
    requests on it and that carries this id, so that what holds of reached
    games holds of every stored game; a request changes no game but the one
    it names; a deleted game is gone; and a move or a skip on an id that is
    not stored answers that the game does not exist. *)
Theorem registry_games_reachable m :
  manager_reachable m →
  (∀ id g, GameManager.get_game m id = Some g → reachable g ∧ game_id g = id)
  ∧ (∀ op id, op_game_id op ≠ Some id →
       GameManager.get_game (run_manager_op m op) id = GameManager.get_game m id)
  ∧ (∀ id, GameManager.get_game (GameManager.delete_game m id) id = None)
  ∧ (∀ id, GameManager.get_game m id = None →
       (∀ move player_id,
          GameManager.make_move m id move player_id = (Ok (Failure GameNotFound), m))
       ∧ (∀ player_id,
            GameManager.skip_second_move m id player_id = (Ok (Failure GameNotFound), m))
       ∧ ∀ player_id, GameManager.join_game m id player_id = (None, m)).
Proof.
  intros Hm. unfold GameManager.get_game. split_and!.
  - by apply manager_reachable_games.
  - intros op id. apply run_manager_op_frame.
  - intros id. unfold GameManager.delete_game. cbn. apply lookup_delete_eq.
  - intros id Hid. unfold GameManager.make_move, GameManager.skip_second_move,
      GameManager.join_game. rewrite Hid. done.
Qed.

Lemma registry_games_reachable_witness :
  (∀ id g, GameManager.get_game busy_manager id = Some g → reachable g ∧ game_id g = id)
  ∧ (∀ op id, op_game_id op ≠ Some id →
       GameManager.get_game (run_manager_op busy_manager op) id
       = GameManager.get_game busy_manager id)
  ∧ (∀ id, GameManager.get_game (GameManager.delete_game busy_manager id) id = None)
  ∧ (∀ id, GameManager.get_game busy_manager id = None →
       (∀ move player_id,
          GameManager.make_move busy_manager id move player_id
          = (Ok (Failure GameNotFound), busy_manager))
       ∧ (∀ player_id,
            GameManager.skip_second_move busy_manager id player_id
            = (Ok (Failure GameNotFound), busy_manager))
       ∧ ∀ player_id, GameManager.join_game busy_manager id player_id
                      = (None, busy_manager)).
Proof.
  apply (registry_games_reachable busy_manager).
  unfold busy_manager. cbn [foldl]. repeat constructor.
Defined.

(** ** Paths *)

Lemma path_loop_length steps row_step col_step r c :
  length (path_loop steps row_step col_step r c) = steps.
Proof. revert r c. induction steps as [|n IH]; intros r c; simpl; [done|]. by rewrite IH. Qed.

Lemma path_loop_lookup steps row_step col_step r c i q :
  path_loop steps row_step col_step r c !! i = Some q ↔
    (i < steps)%nat
    ∧ q = (r + (Z.of_nat i + 1) * row_step, c + (Z.of_nat i + 1) * col_step).
Proof.
  revert r c i. induction steps as [|n IH]; intros r c i; simpl.
  { split; [done|]. intros [? _]. lia. }
  destruct i as [|i]; simpl.
  - split.
    + intros [= <-]. split; [lia|]. f_equal; lia.
    + intros [_ ->]. do 2 f_equal; lia.
  - rewrite IH. split; intros [? ->]; (split; [lia|f_equal; lia]).
Qed.

Lemma step_of_cases diff :
  diff = 0 ∧ step_of diff = 0
  ∨ 0 < diff ∧ step_of diff = 1
  ∨ diff < 0 ∧ step_of diff = -1.
Proof. unfold step_of. repeat case_bool_decide; lia. Qed.

(** X19.  [get_path_positions] walks from the source towards the destination
    one step at a time, the step taking each coordinate one closer to the
    destination's: the path has as many cells as the larger of the two
    distances, and its cell number [i] lies [i] steps from the source.  The
    path ends on the destination exactly when the move is horizontal,
    vertical or diagonal, which are the moves other than staying in place
    that [is_straight_line] or [is_diagonal] accept; it is empty exactly when
    source and destination are the same cell. *)
Theorem get_path_positions_spec from_pos to_pos :
  let path := get_path_positions from_pos to_pos in
  let step := (step_of (to_pos.1 - from_pos.1), step_of (to_pos.2 - from_pos.2)) in
  Z.of_nat (length path)
    = Z.max (Z.abs (to_pos.1 - from_pos.1)) (Z.abs (to_pos.2 - from_pos.2))
  ∧ (∀ i q, path !! i = Some q → q = ray_cell from_pos step (Z.of_nat i + 1))
  ∧ (last path = Some to_pos ↔
     is_horizontal from_pos to_pos || is_vertical from_pos to_pos
     || is_diagonal from_pos to_pos = true)
  ∧ (path = [] ↔ from_pos = to_pos)
  ∧ (is_straight_line from_pos to_pos || is_diagonal from_pos to_pos = true ↔
     from_pos = to_pos ∨ last path = Some to_pos).
Proof.
  destruct from_pos as [from_row from_col], to_pos as [to_row to_col].
  cbn zeta.
  unfold get_path_positions, is_horizontal, is_vertical, is_diagonal, is_straight_line,
    ray_cell.
  cbn [fst snd].
  set (n := Z.max (Z.abs (to_row - from_row)) (Z.abs (to_col - from_col))).
  assert (0 ≤ n) as Hn by lia.
  assert (last (path_loop (Z.to_nat n) (step_of (to_row - from_row))
                  (step_of (to_col - from_col)) from_row from_col)
          = Some (to_row, to_col) ↔
          (from_row = to_row ∧ from_col ≠ to_col
           ∨ from_col = to_col ∧ from_row ≠ to_row)
          ∨ Z.abs (from_row - to_row) = Z.abs (from_col - to_col)
            ∧ from_row ≠ to_row) as Hlast.
  { rewrite last_lookup, path_loop_length.
    destruct (step_of_cases (to_row - from_row)) as [[? ->]|[[? ->]|[? ->]]],
             (step_of_cases (to_col - from_col)) as [[? ->]|[[? ->]|[? ->]]].
    all: split;
      [ destruct (Z.to_nat n) as [|k] eqn:Hk; [done|]; cbn [pred];
        intros [_ [= ? ?]]%path_loop_lookup; lia
      | intros Hcase; destruct (Z.to_nat n) as [|k] eqn:Hk; [lia|]; cbn [pred];
        apply path_loop_lookup; split; [lia|f_equal; lia] ]. }
  split_and!.
  - rewrite path_loop_length. lia.
  - intros i q [_ ->]%path_loop_lookup. done.
  - rewrite Hlast.
    by rewrite orb_true_iff, orb_true_iff, !andb_true_iff, !bool_decide_eq_true.
  - rewrite <-length_zero_iff_nil, path_loop_length. split.
    + intros Hz. f_equal; lia.
    + intros [= -> ->]. lia.
  - rewrite Hlast.
    rewrite orb_true_iff, orb_true_iff, !andb_true_iff, !bool_decide_eq_true.
    split.
    + intros Hcase. destruct (decide ((from_row, from_col) = (to_row, to_col)))
        as [?|Hne]; [by left|right].
      assert (from_row ≠ to_row ∨ from_col ≠ to_col) by
        (destruct (decide (from_row = to_row)); [right; congruence|by left]).
      lia.
    + intros [[= -> ->]|?]; lia.
Qed.

(** The path to a cell of a ray is the ray up to that cell. *)
Lemma get_path_positions_ray pos d k :
  is_direction d → 1 ≤ k →
  length (get_path_positions pos (ray_cell pos d k)) = Z.to_nat k
  ∧ ∀ i, (i < Z.to_nat k)%nat →
      get_path_positions pos (ray_cell pos d k) !! i
      = Some (ray_cell pos d (Z.of_nat i + 1)).
Proof.
  destruct pos as [row col], d as [d_row d_col].
  intros (Hr & Hc & Hnz) Hk. cbn [fst snd] in *.
  unfold get_path_positions, ray_cell. cbn [fst snd].
  assert (Z.max (Z.abs (row + k * d_row - row)) (Z.abs (col + k * d_col - col)) = k)
    as -> by nia.
  assert (step_of (row + k * d_row - row) = d_row) as ->.
  { destruct (step_of_cases (row + k * d_row - row)) as [[? ->]|[[? ->]|[? ->]]]; nia. }
  assert (step_of (col + k * d_col - col) = d_col) as ->.
  { destruct (step_of_cases (col + k * d_col - col)) as [[? ->]|[[? ->]|[? ->]]]; nia. }
  split; [apply path_loop_length|].
  intros i Hi. by apply path_loop_lookup.
Qed.

(** A destination of a rule lies on a ray from the source, behind empty
    cells only. *)
Lemma piece_moves_ray b pos piece l m :
  piece_moves b pos piece = Ok l → m ∈ l →
  ∃ d k, is_direction d ∧ 1 ≤ k ∧ m = ray_cell pos d k
    ∧ ∀ j, 1 ≤ j < k → empty_at b (ray_cell pos d j).
Proof.
  intros H Hm. unfold piece_moves in H. destruct pos as [row col].
  destruct (piece_type piece).
  - apply (rays_elem b piece (λ _ d_col, bool_decide (d_col = 0)) _ _ _ _ _ H) in Hm
      as (d & k & Hd%orthogonal_is_direction & Hk & -> & _ & Hclear & _). eauto 10.
  - apply (rays_elem b piece (λ d_row _, bool_decide (d_row = 0)) _ _ _ _ _ H) in Hm
      as (d & k & Hd%orthogonal_is_direction & Hk & -> & _ & Hclear & _). eauto 10.
  - apply (rays_elem b piece (λ _ _, true) _ _ _ _ _ H) in Hm
      as (d & k & Hd%diagonal_is_direction & Hk & -> & _ & Hclear & _). eauto 10.
  - apply (one_step_moves_elem _ _ _ _ _ H) in Hm
      as (_ & _ & d & Hd%orthogonal_is_direction & ->).
    exists d, 1. split_and!; [done..|]. intros j ?. lia.
  - apply (one_step_moves_elem _ _ _ _ _ H) in Hm
      as (_ & _ & d & Hd%orthogonal_is_direction & ->).
    exists d, 1. split_and!; [done..|]. intros j ?. lia.
Qed.

(** X20.  Every destination that [get_valid_moves] returns is reached along
    the path of [get_path_positions]: the path from the source, as it is
    given, ends on the destination, so that the move is horizontal, vertical
    or diagonal, and every cell of the path before the destination is empty.
    For a source given by its row and column on the board, no piece jumps
    over another. *)
Theorem legal_moves_follow_clear_path b pos side bma rma turn second frozen moves m :
  get_valid_moves b pos side bma rma turn second frozen = Ok moves → m ∈ moves →
  last (get_path_positions pos m) = Some m
  ∧ ∀ i q, get_path_positions pos m !! i = Some q →
      (S i < length (get_path_positions pos m))%nat → empty_at b q.
Proof.
  intros H Hm.
  destruct (get_valid_moves_elem _ _ _ _ _ _ _ _ _ _ H Hm)
    as (piece & raw & _ & _ & Hraw & Hin).
  destruct (piece_moves_ray _ _ _ _ _ Hraw Hin) as (d & k & Hd & Hk & -> & Hclear).
  destruct (get_path_positions_ray pos d k Hd Hk) as [Hlen Hlookup].
  split.
  - rewrite last_lookup, Hlen, Hlookup by lia. do 2 f_equal. lia.
  - intros i q Hq Hi. rewrite Hlen in Hi. rewrite Hlookup in Hq by lia.
    injection Hq as <-. apply Hclear. lia.
Qed.

Lemma legal_moves_follow_clear_path_witness :
  last (get_path_positions (7, 0) (3, 0)) = Some (3, 0)
  ∧ ∀ i q, get_path_positions (7, 0) (3, 0) !! i = Some q →
      (S i < length (get_path_positions (7, 0)%Z (3, 0)%Z))%nat →
      empty_at create_initial_board q.
Proof.
  apply (legal_moves_follow_clear_path create_initial_board (7, 0) RED true true 1
           false [] [(6, 0); (5, 0); (4, 0); (3, 0); (8, 0)] (3, 0)).
  - vm_compute. reflexivity.
  - rewrite !elem_of_cons. auto.
Defined.

Example get_path_positions_examples :
  get_path_positions (2, 3) (5, 6) = [(3, 4); (4, 5); (5, 6)]
  ∧ get_path_positions (2, 3) (5, 7) = [(3, 4); (4, 5); (5, 6); (6, 7)]
  ∧ get_path_positions (2, 3) (0, 3) = [(1, 3); (0, 3)]
  ∧ get_path_positions (2, 3) (2, 3) = [].
Proof. by vm_compute. Qed.

(** ** RandomAI: the candidate moves *)

(** The candidates are the legal moves from the cells of the board. *)
Lemma all_moves_spec g :
  wf_board (board g) →
  ∃ l, all_moves g = Ok l
    ∧ ∀ m, m ∈ l ↔
        on_board (from_pos m)
        ∧ ∃ valid,
            get_valid_moves (board g) (from_pos m) (current_team g)
              (blue_magic_alive g) (red_magic_alive g) (turn_number g) false []
            = Ok valid
            ∧ to_pos m ∈ valid.
Proof.
  intros Hwf.
  assert (∀ row col, 0 ≤ row < 10 → 0 ≤ col < 9 →
          ∃ l, (piece ← board_get (board g) row col;
                match piece with
                | Some p =>
                    if bool_decide (team p = current_team g) then
                      valid_moves ← get_valid_moves (board g) (row, col) (current_team g)
                                      (blue_magic_alive g) (red_magic_alive g)
                                      (turn_number g) false [];
                      for_extend valid_moves (λ to_pos, Ok [mkMove (row, col) to_pos])
                    else Ok []
                | None => Ok []
                end) = Ok l
            ∧ ∀ m, m ∈ l ↔
                from_pos m = (row, col)
                ∧ ∃ valid,
                    get_valid_moves (board g) (row, col) (current_team g)
                      (blue_magic_alive g) (red_magic_alive g) (turn_number g) false []
                    = Ok valid
                    ∧ to_pos m ∈ valid) as Hcell.
  { intros row col Hrow Hcol.
    destruct (get_valid_moves_total (board g) (row, col) (current_team g)
                (blue_magic_alive g) (red_magic_alive g) (turn_number g) false [] Hwf)
      as [valid Hvalid]; [cbn; lia..|].
    pose proof Hvalid as (cell & Hget & Hcases)%get_valid_moves_Ok.
    cbn [fst snd] in Hget. rewrite Hget. cbn [mbind exc_bind].
    assert (∃ l, for_extend valid (λ to_pos, Ok [mkMove (row, col) to_pos]) = Ok l
              ∧ ∀ m, m ∈ l ↔ from_pos m = (row, col) ∧ to_pos m ∈ valid)
      as (l & Hl & Hiff).
    { destruct (for_extend_total valid (λ to_pos, Ok [mkMove (row, col) to_pos]))
        as [l Hl]; [by eauto|].
      exists l. split; [done|]. intros m. rewrite (for_extend_Ok _ _ _ Hl). split.
      - intros (to & ys & Hto & [= <-] & ->%list_elem_of_singleton). done.
      - intros [Hfrom Hto]. exists (to_pos m), [m]. split_and!; [done| |by left].
        destruct m as [from to]. cbn in *. by subst. }
    assert (valid = [] → ∀ m : Move, m ∈ [] ↔
              from_pos m = (row, col)
              ∧ ∃ valid',
                  get_valid_moves (board g) (row, col) (current_team g)
                    (blue_magic_alive g) (red_magic_alive g) (turn_number g) false []
                  = Ok valid'
                  ∧ to_pos m ∈ valid') as Hnone.
    { intros Hnil m. split; [by intros ?%elem_of_nil|].
      intros (_ & valid' & Hv & Hin). rewrite Hvalid in Hv. injection Hv as <-.
      subst valid. by apply elem_of_nil in Hin. }
    destruct cell as [p|].
    - case_bool_decide as Hteam.
      + rewrite Hvalid. cbn [mbind exc_bind]. exists l. split; [done|].
        intros m. rewrite Hiff. split.
        * intros [? ?]. eauto.
        * intros (? & valid' & [= <-] & ?). done.
      + exists []. split; [done|]. apply Hnone.
        destruct Hcases as [?|(? & ? & [= <-] & ? & _)]; done.
    - exists []. split; [done|]. apply Hnone.
      destruct Hcases as [?|(? & ? & ? & _)]; done. }
  destruct (for_extend_total (range 10) (λ row,
              for_extend (range 9) (λ col,
                piece ← board_get (board g) row col;
                match piece with
                | Some p =>
                    if bool_decide (team p = current_team g) then
                      valid_moves ← get_valid_moves (board g) (row, col) (current_team g)
                                      (blue_magic_alive g) (red_magic_alive g)
                                      (turn_number g) false [];
                      for_extend valid_moves (λ to_pos, Ok [mkMove (row, col) to_pos])
                    else Ok []
                | None => Ok []
                end))) as [l Hl].
  { intros row Hrow%elem_of_range. apply for_extend_total.
    intros col Hcol%elem_of_range.
    destruct (Hcell row col) as (ys & -> & _); [lia..|]. eauto. }
  exists l. split; [done|]. intros m. rewrite (for_extend_Ok _ _ _ Hl). split.
  - intros (row & ys & Hrow%elem_of_range & Hys & Hm).
    apply (for_extend_Ok _ _ _ Hys) in Hm as (col & zs & Hcol%elem_of_range & Hzs & Hm).
    destruct (Hcell row col) as (zs' & Hzs' & Hiff); [lia..|].
    assert (zs' = zs) as -> by congruence.
    apply Hiff in Hm as (-> & valid & Hvalid & Hto).
    split; [unfold on_board; cbn; lia|eauto].
  - intros ([Hrow Hcol] & valid & Hvalid & Hto).
    destruct m as [[row col] to]. cbn [from_pos to_pos fst snd] in *.
    destruct (for_extend_body_Ok _ _ _ row Hl) as [ys Hys]; [apply elem_of_range; lia|].
    exists row, ys. split_and!; [apply elem_of_range; lia|done|].
    apply (for_extend_Ok _ _ _ Hys).
    destruct (Hcell row col) as (zs & Hzs & Hiff); [lia..|].
    exists col, zs. split_and!; [apply elem_of_range; lia|done|].
    apply Hiff. eauto.
Qed.

(** A legal first move is a move that [make_move] accepts, when no second
    move is pending. *)
Lemma first_move_accepted g m player_id :
  wf_board (board g) → status g = PLAYING → not_your_turn g player_id = false →
  red_first_move_done g && red_double_move_active g = false →
  (∃ valid,
     get_valid_moves (board g) (from_pos m) (current_team g)
       (blue_magic_alive g) (red_magic_alive g) (turn_number g) false [] = Ok valid
     ∧ to_pos m ∈ valid)
  ↔ ∃ r g', make_move_game g m player_id = (Ok (Success r), g').
Proof.
  intros Hwf Hst Hturn Hsecond.
  destruct (get_frozen_positions_total g Hwf) as [frozen Hfrozen].
  pose proof (get_valid_moves_frozen g frozen (from_pos m) false Hwf Hfrozen) as Hsame.
  split.
  - intros (valid & Hvalid & Hto).
    destruct (get_valid_moves_elem _ _ _ _ _ _ _ _ _ _ Hvalid Hto)
      as (piece & raw & Hpiece & Hteam & _).
    destruct (make_move_game_accepted_Success g m player_id piece Hwf)
      as (cp & b & r & g' & Hmove & _); [|by eauto].
    unfold accepted. rewrite Hsecond. split_and!; try done.
    exists frozen, valid. by rewrite Hsame.
  - intros (r & g' & Hmove).
    destruct (make_move_game_Success g m player_id r g' Hwf Hmove)
      as (piece & cp & b & Hacc & _).
    destruct Hacc as (_ & _ & _ & _ & _ & frozen' & valid & Hfrozen' & Hvalid & Hin).
    assert (frozen' = frozen) as -> by congruence.
    rewrite Hsecond, Hsame in Hvalid. eauto.
Qed.

(** X21.  The candidates of RandomAI in a game in progress with no second
    move pending: [all_moves] returns on a well-formed board, and its
    elements are exactly the moves from a cell of the board that [make_move]
    accepts from a player who is allowed to move.  So the move that
    [get_move] selects is always accepted, and [get_move] returns [None]
    exactly when the side to move has no legal move, which is when
    [is_stalemate] answers true. *)
Theorem random_ai_moves_are_legal g player_id :
  wf_board (board g) → status g = PLAYING → not_your_turn g player_id = false →
  red_first_move_done g && red_double_move_active g = false →
  ∃ l, all_moves g = Ok l
    ∧ (∀ m, m ∈ l ↔
         on_board (from_pos m)
         ∧ ∃ r g', make_move_game g m player_id = (Ok (Success r), g'))
    ∧ (∀ pick, ∃ choice, get_move g pick = Ok choice
         ∧ match choice with
           | Some m => m ∈ l
                       ∧ ∃ r g', make_move_game g m player_id = (Ok (Success r), g')
           | None => l = []
           end)
    ∧ (l = [] ↔
       is_stalemate (board g) (current_team g) (blue_magic_alive g)
         (red_magic_alive g) (turn_number g) [] = Ok true).
Proof.
  intros Hwf Hst Hturn Hsecond.
  destruct (all_moves_spec g Hwf) as (l & Hl & Hiff).
  pose proof (λ m, first_move_accepted g m player_id Hwf Hst Hturn Hsecond) as Hacc.
  assert (∀ m, m ∈ l ↔
            on_board (from_pos m)
            ∧ ∃ r g', make_move_game g m player_id = (Ok (Success r), g')) as Hiff'.
  { intros m. by rewrite Hiff, Hacc. }
  exists l. split_and!; [done..| |].
  - intros pick. unfold get_move. rewrite Hl. cbn [mbind exc_bind].
    destruct l as [|m0 l0] eqn:Heq; [by exists None|].
    rewrite <-Heq in *.
    assert (is_Some (l !! (pick mod length l)%nat)) as [m Hm].
    { apply lookup_lt_is_Some. apply Nat.mod_upper_bound. by rewrite Heq. }
    exists (Some m). split; [by rewrite Hm|].
    assert (m ∈ l) as Hin by (by eapply list_elem_of_lookup_2).
    split; [done|]. by apply Hiff'.
  - split.
    + intros ->. apply is_stalemate_true; [done|]. intros pos Hpos.
      destruct (get_valid_moves_total (board g) pos (current_team g)
                  (blue_magic_alive g) (red_magic_alive g) (turn_number g) false [] Hwf)
        as [[|to valid] Hvalid]; [destruct Hpos; lia..|done|].
      assert (mkMove pos to ∈ []) as Hin%elem_of_nil; [|done].
      apply Hiff. split; [done|]. exists (to :: valid). split; [done|by left].
    + intros Hstale. destruct l as [|m l]; [done|]. exfalso.
      assert (m ∈ m :: l) as (Hon & valid & Hvalid & Hto)%Hiff by (by left).
      destruct valid as [|to valid]; [by apply elem_of_nil in Hto|].
      rewrite (is_stalemate_false _ _ _ _ _ _ _ _ _ Hwf Hon Hvalid) in Hstale. done.
Qed.

Lemma random_ai_moves_are_legal_witness :
  ∃ l, all_moves new_local_game = Ok l
    ∧ (∀ m, m ∈ l ↔
         on_board (from_pos m)
         ∧ ∃ r g', make_move_game new_local_game m None = (Ok (Success r), g'))
    ∧ (∀ pick, ∃ choice, get_move new_local_game pick = Ok choice
         ∧ match choice with
           | Some m => m ∈ l
                       ∧ ∃ r g', make_move_game new_local_game m None
                                 = (Ok (Success r), g')
           | None => l = []
           end)
    ∧ (l = [] ↔
       is_stalemate (board new_local_game) (current_team new_local_game)
         (blue_magic_alive new_local_game) (red_magic_alive new_local_game)
         (turn_number new_local_game) [] = Ok true).
Proof.
  apply (random_ai_moves_are_legal new_local_game None).
  - split; [reflexivity|]. vm_compute. repeat constructor.
  - reflexivity.
  - reflexivity.
  - reflexivity.
Defined.

Example random_ai_first_move :
  get_move new_local_game 7 = Ok (Some (mkMove (7, 1) (4, 1))).
Proof. by vm_compute. Qed.

(** ** Material *)

Lemma for_fold_add {A} (xs : list A) (body : A → Z → exc Z) (v : A → Z) :
  (∀ x s, x ∈ xs → body x s = Ok (s + v x)) →
  ∀ s, for_fold xs body s = Ok (s + sum_over v xs).
Proof.
  induction xs as [|x xs IH]; intros H s; simpl.
  { f_equal. lia. }
  rewrite H by (by left). cbn [mbind exc_bind].
  rewrite IH by (intros; apply H; by right). f_equal. lia.
Qed.

Lemma sum_over_app {A} (f : A → Z) (l1 l2 : list A) :
  sum_over f (l1 ++ l2) = sum_over f l1 + sum_over f l2.
Proof. induction l1 as [|x l1 IH]; simpl; [done|]. rewrite IH. lia. Qed.

Lemma sum_over_bind {A B} (f : B → Z) (g : A → list B) (xs : list A) :
  sum_over f (xs ≫= g) = sum_over (λ x, sum_over f (g x)) xs.
Proof.
  induction xs as [|x xs IH]; [done|].
  rewrite bind_cons, sum_over_app, IH. done.
Qed.

Lemma sum_over_ext {A} (f g : A → Z) (l : list A) :
  (∀ x, x ∈ l → f x = g x) → sum_over f l = sum_over g l.
Proof.
  induction l as [|x l IH]; intros H; simpl; [done|].
  rewrite H by (by left). rewrite IH; [done|]. intros; apply H; by right.
Qed.

(** A function changed at one element of a list without repetition. *)
Lemma sum_over_change {A} (f g : A → Z) (l : list A) (x : A) :
  NoDup l → x ∈ l → (∀ y, y ∈ l → y ≠ x → g y = f y) →
  sum_over g l = sum_over f l - f x + g x.
Proof.
  induction 1 as [|y l Hy Hl IH]; intros Hx Hsame; [by apply elem_of_nil in Hx|].
  simpl. apply elem_of_cons in Hx as [->|Hx].
  - rewrite (sum_over_ext g f l); [lia|].
    intros z Hz. apply Hsame; [by right|]. by intros ->.
  - rewrite IH; [|done|intros; apply Hsame; [by right|done]].
    rewrite (Hsame y); [lia|by left|]. by intros ->.
Qed.

Lemma elem_of_cells q : q ∈ cells ↔ on_board q.
Proof.
  unfold cells, on_board. rewrite list_elem_of_bind. split.
  - intros (row & (col & ->%list_elem_of_singleton & Hcol%elem_of_range)%list_elem_of_bind
              & Hrow%elem_of_range).
    cbn. lia.
  - intros [Hrow Hcol]. destruct q as [row col]. cbn [fst snd] in *.
    exists row. split; [|apply elem_of_range; lia].
    apply list_elem_of_bind. exists col. split; [by left|apply elem_of_range; lia].
Qed.

Lemma NoDup_cells : NoDup cells.
Proof. apply (bool_decide_unpack _). by vm_compute. Qed.

(** The sum over the board after a move: what stood on the destination is
    gone, and nothing else. *)
Lemma sum_over_relocated (F : option Piece → Z) b pos m tb :
  F None = 0 →
  relocated b pos m tb → on_board pos → on_board m → pos ≠ m →
  sum_over (λ q, F (cell_of tb q)) cells
  = sum_over (λ q, F (cell_of b q)) cells - F (cell_of b m).
Proof.
  intros HF [_ Hrel] Hpos Hm Hne.
  assert (∀ q, on_board q →
            cell_of tb q = if bool_decide (q = pos) then None
                           else if bool_decide (q = m) then cell_of b pos
                           else cell_of b q) as Hcell.
  { intros q Hq. unfold cell_of. rewrite (Hrel q Hq). by repeat case_bool_decide. }
  rewrite (sum_over_change
             (λ q, if bool_decide (q = pos) then 0 else F (cell_of b q))
             (λ q, F (cell_of tb q)) cells m NoDup_cells); [|by apply elem_of_cells|].
  2:{ intros q Hq%elem_of_cells Hqm. rewrite (Hcell q Hq).
      case_bool_decide; [done|]. by rewrite bool_decide_false. }
  rewrite (sum_over_change (λ q, F (cell_of b q))
             (λ q, if bool_decide (q = pos) then 0 else F (cell_of b q))
             cells pos NoDup_cells); [|by apply elem_of_cells|].
  2:{ intros q _ Hq. by rewrite bool_decide_false. }
  cbv beta. rewrite (Hcell m Hm).
  rewrite (bool_decide_true (pos = pos)), (bool_decide_true (m = m)) by done.
  rewrite (bool_decide_false (m = pos)) by done. lia.
Qed.

Lemma evaluate_position_sum g :
  wf_board (board g) →
  evaluate_position g = Ok (sum_over (λ q, signed_value (cell_of (board g) q)) cells).
Proof.
  intros Hwf. unfold evaluate_position, cells. rewrite sum_over_bind.
  rewrite (for_fold_add (range 10) _
             (λ row, sum_over (λ q, signed_value (cell_of (board g) q))
                       (col ← range 9; [(row, col)]))); [done|].
  intros row score Hrow%elem_of_range. cbv beta. rewrite sum_over_bind.
  apply for_fold_add. intros col s Hcol%elem_of_range.
  destruct (board_get_total (board g) row col Hwf) as [cell Hcell]; [lia..|].
  rewrite Hcell. cbn [mbind exc_bind]. unfold cell_of. cbn. rewrite Hcell.
  destruct cell as [p|]; cbn; [case_bool_decide|]; f_equal; lia.
Qed.

(** X22.  The evaluation of RandomAI changes with an accepted move by the
    value of the piece taken and by nothing else: a move that takes nothing
    leaves it unchanged, a capture by Red raises it by the value of the piece
    taken, and a capture by Blue lowers it by that value. *)
Theorem evaluate_position_capture g move player_id r g' :
  wf_board (board g) →
  make_move_game g move player_id = (Ok (Success r), g') →
  ∃ score,
    evaluate_position g = Ok score
    ∧ evaluate_position g' =
        Ok (match captured r with
            | None => score
            | Some cp =>
                if bool_decide (current_team g = RED)
                then score + piece_values (piece_type cp)
                else score - piece_values (piece_type cp)
            end).
Proof.
  intros Hwf Hmove.
  destruct (make_move_game_Success g move player_id r g' Hwf Hmove)
    as (piece & cp & b & Hacc & Hcp & Htarget & Hon & Hrel & Hpiece & Hres).
  cbn zeta in Hres.
  assert (captured r = cp ∧ ∃ st, g' = after_move g move cp b st) as [Hr [st ->]].
  { unfold after_move. destruct (second_move_pending (moved g move cp b) move).
    - destruct Hres as [-> ->]. split; [done|].
      exists (status (moved g move cp b)). by destruct (moved g move cp b).
    - destruct Hres as (st & -> & -> & _). eauto. }
  destruct (after_move_fields g move cp b st) as (Hb & _). cbn zeta in Hb.
  assert (on_board (norm_pos (from_pos move))) as Hfrom.
  { destruct Hacc as (_ & _ & Hp & _). by eapply norm_pos_from_on_board. }
  assert (norm_pos (from_pos move) ≠ to_pos move) as Hne.
  { intros Heq. rewrite Heq, Hcp in Hpiece. injection Hpiece as ->.
    destruct Htarget as [?|(t & [= <-] & ?)]; done. }
  pose proof Hrel as [Hwfb _].
  exists (sum_over (λ q, signed_value (cell_of (board g) q)) cells).
  split; [by apply evaluate_position_sum|].
  rewrite evaluate_position_sum by (by rewrite Hb). rewrite Hb, Hr. f_equal.
  rewrite (sum_over_relocated signed_value _ _ _ _ eq_refl Hrel Hfrom Hon Hne).
  assert (cell_of (board g) (to_pos move) = cp) as ->.
  { unfold cell_of. by rewrite Hcp. }
  destruct Htarget as [->|(t & -> & Ht)]; cbn [signed_value]; [lia|].
  destruct Hacc as (_ & _ & _ & Hteam & _). rewrite Hteam in Ht.
  destruct (team t), (current_team g); try done;
    repeat case_bool_decide; try done; lia.
Qed.

Lemma evaluate_position_capture_witness :
  ∃ score,
    evaluate_position before_magic_capture = Ok score
    ∧ evaluate_position (make_move_game before_magic_capture magic_capture None).2 =
        Ok (match captured (mkMoveResult (Some (mkPiece MAGIC BLUE)) PLAYING false false)
            with
            | None => score
            | Some cp =>
                if bool_decide (current_team before_magic_capture = RED)
                then score + piece_values (piece_type cp)
                else score - piece_values (piece_type cp)
            end).
Proof.
  apply (evaluate_position_capture before_magic_capture magic_capture None).
  - split; [reflexivity|]. vm_compute. repeat constructor.
  - vm_compute. reflexivity.
Defined.

Example evaluate_position_examples :
  evaluate_position new_local_game = Ok 0
  ∧ evaluate_position before_general_capture = Ok 3.
Proof. by vm_compute. Qed.

(** ** Accounting for the pieces *)

Lemma captures_of_snoc p log e :
  captures_of p (log ++ [e])
  = captures_of p log + if bool_decide (h_captured e = Some p) then 1 else 0.
Proof. unfold captures_of. rewrite sum_over_app. simpl. lia. Qed.

(** X23.  No piece is created, duplicated or lost: in every game reached
    from [create_game], for each type and team, the number of cells on which
    such a piece stands plus the number of logged moves that took one is the
    number of such pieces in the initial layout. *)
Theorem pieces_accounted g p :
  reachable g →
  count_on p (board g) + captures_of p (move_history g)
  = count_on p create_initial_board.
Proof.
  induction 1 as [fresh_id mode player_id|g op Hreach IH].
  { rewrite create_game_board.
    assert (move_history (create_game fresh_id mode player_id) = []) as ->.
    { unfold create_game. by destruct (_ && _). }
    cbn. lia. }
  destruct (reachable_inv g Hreach) as [Hwf _].
  destruct (run_op_step g op Hwf)
    as [->|[(move & player_id & piece & cp & b & st & _ & Hacc & Hcp & Htarget & Hon
             & Hrel & Hpiece & -> & _)
           |[(player_id & _ & _ & _ & ->)|(player_id & _ & _ & _ & _ & ->)]]];
    [done| |done..].
  destruct (after_move_fields g move cp b st) as (Hb & _ & _ & _ & _ & _ & Hlog & _).
  cbn zeta in Hb, Hlog. rewrite Hb, Hlog, captures_of_snoc. cbn [h_captured].
  assert (on_board (norm_pos (from_pos move))) as Hfrom.
  { destruct Hacc as (_ & _ & Hp & _). by eapply norm_pos_from_on_board. }
  assert (norm_pos (from_pos move) ≠ to_pos move) as Hne.
  { intros Heq. rewrite Heq, Hcp in Hpiece. injection Hpiece as ->.
    destruct Htarget as [?|(t & [= <-] & ?)]; done. }
  unfold count_on in *.
  pose proof (λ H0, sum_over_relocated
                      (λ c : option Piece, if bool_decide (c = Some p) then 1 else 0)
                      (board g) _ _ b H0 Hrel Hfrom Hon Hne) as Hsum.
  cbv beta in Hsum. rewrite Hsum by (by rewrite bool_decide_false).
  assert (cell_of (board g) (to_pos move) = cp) as ->.
  { unfold cell_of. by rewrite Hcp. }
  lia.
Qed.

Lemma pieces_accounted_witness :
  count_on (mkPiece MAGIC BLUE) (board before_general_capture)
  + captures_of (mkPiece MAGIC BLUE) (move_history before_general_capture)
  = count_on (mkPiece MAGIC BLUE) create_initial_board.
Proof.
  apply (pieces_accounted before_general_capture (mkPiece MAGIC BLUE)).
  repeat apply reachable_foldl. constructor.
Defined.

Example pieces_accounted_example :
  count_on (mkPiece MAGIC BLUE) (board before_general_capture) = 0
  ∧ captures_of (mkPiece MAGIC BLUE) (move_history before_general_capture) = 1
  ∧ count_on (mkPiece ATTACK RED) create_initial_board = 6.
Proof. by vm_compute. Qed.

(** ** Generals and Magic pieces keep to their zones *)

Lemma accepted_home g move player_id piece :
  accepted g move player_id piece →
  (piece_type piece = GENERAL → to_pos move ∈ palace_of (team piece))
  ∧ (piece_type piece = MAGIC → to_pos move ∈ magic_zone_of (team piece)).
Proof.
  intros (_ & _ & Hpiece & _ & _ & frozen & valid & _ & Hvalid & Hin).
  destruct (get_valid_moves_elem _ _ _ _ _ _ _ _ _ _ Hvalid Hin)
    as (piece' & raw & Hpiece' & _ & Hraw & Hin').
  assert (piece' = piece) as -> by congruence.
  unfold piece_moves in Hraw. split; intros Htype; rewrite Htype in Hraw.
  - by apply (one_step_moves_elem _ _ _ _ _ Hraw) in Hin' as (Hz & _).
  - by apply (one_step_moves_elem _ _ _ _ _ Hraw) in Hin' as (Hz & _).
Qed.

(** X24.  In every game reached from [create_game] the board has ten rows
    of nine cells, every General stands in the palace of its team and every
    Magic piece stands in the magic zone of its team. *)
Theorem pieces_keep_to_zones g :
  reachable g →
  wf_board (board g)
  ∧ ∀ t q,
      (stands (board g) (mkPiece GENERAL t) q → q ∈ palace_of t)
      ∧ (stands (board g) (mkPiece MAGIC t) q → q ∈ magic_zone_of t).
Proof.
  intros Hreach. split; [by apply reachable_inv|].
  induction Hreach as [fresh_id mode player_id|g op Hreach IH].
  { intros t [r c]. rewrite create_game_board, create_initial_board_layout.
    split; intros [Hq Hget]; rewrite (layout_get _ Hq) in Hget;
      unfold layout_cell in Hget; cbn [fst snd] in Hget; destruct Hq as [Hr Hc];
      revert Hget; repeat case_bool_decide; intros [= <-]; try done;
      apply elem_of_zone_positions; cbn; lia. }
  destruct (reachable_inv g Hreach) as [Hwf _].
  destruct (run_op_step g op Hwf)
    as [->|[(move & player_id & piece & cp & b & st & _ & Hacc & Hcp & Htarget & Hon
             & Hrel & Hpiece & -> & _)
           |[(player_id & _ & _ & _ & ->)|(player_id & _ & _ & _ & _ & ->)]]];
    [done| |done..].
  destruct (after_move_fields g move cp b st) as (Hb & _). cbn zeta in Hb. rewrite Hb.
  assert (on_board (norm_pos (from_pos move))) as Hfrom.
  { destruct Hacc as (_ & _ & Hp & _). by eapply norm_pos_from_on_board. }
  destruct (accepted_home g move player_id piece Hacc) as [Hgeneral Hmagic].
  intros t q. split.
  - intros [[-> <-]|(_ & _ & Hq)]%(stands_relocated _ _ _ _ _ _ _ _ Hrel Hfrom Hon
                                      Hpiece Hcp Htarget).
    + by apply Hgeneral.
    + by apply IH.
  - intros [[-> <-]|(_ & _ & Hq)]%(stands_relocated _ _ _ _ _ _ _ _ Hrel Hfrom Hon
                                      Hpiece Hcp Htarget).
    + by apply Hmagic.
    + by apply IH.
Qed.

Lemma pieces_keep_to_zones_witness :
  wf_board (board frozen_game)
  ∧ ∀ t q,
      (stands (board frozen_game) (mkPiece GENERAL t) q → q ∈ palace_of t)
      ∧ (stands (board frozen_game) (mkPiece MAGIC t) q → q ∈ magic_zone_of t).
Proof.
  apply (pieces_keep_to_zones frozen_game).
  apply reachable_foldl. constructor.
Defined.

(** ** The exception of make_move *)

Lemma make_move_game_indexable g move player_id :
  wf_board (board g) → indexable (from_pos move) →
  ∃ reply g', make_move_game g move player_id = (Ok reply, g').
Proof.
  intros Hwf [Hrow Hcol].
  destruct (accepted_dec g move player_id) as [[piece Hacc]|Hno].
  { destruct (make_move_game_accepted_Success g move player_id piece Hwf Hacc)
      as (cp & b & r & g' & -> & _). eauto. }
  destruct (make_move_game_cases g move player_id)
    as [(e & -> & _)|[(e & He & _)|(piece & Hacc & _)]];
    [by eauto| |by destruct (Hno piece)].
  exfalso. revert He. unfold make_move_game.
  destruct move as [[from_row from_col] to]. cbn [from_pos to_pos fst snd] in *.
  case_bool_decide as Hst; [done|]. try apply dec_stable in Hst.
  destruct (not_your_turn g player_id) eqn:Hturn; [done|].
  destruct (board_get_total (board g) from_row from_col Hwf) as [cell Hcell]; [done..|].
  rewrite Hcell. destruct cell as [piece|]; [|done].
  case_bool_decide as Hteam; [done|]. try apply dec_stable in Hteam.
  destruct (get_frozen_positions_total g Hwf) as [frozen Hfrozen]. rewrite Hfrozen.
  destruct (get_valid_moves_total (board g) (from_row, from_col) (current_team g)
              (blue_magic_alive g) (red_magic_alive g) (turn_number g)
              (red_first_move_done g && red_double_move_active g) frozen Hwf)
    as [valid Hvalid]; [done..|].
  assert (to ∈ valid →
          (red_first_move_done g && red_double_move_active g = true →
           red_first_move_pos g = Some (from_row, from_col)) → False) as Hnot.
  { intros Hin Hsecond. apply (Hno piece). unfold accepted.
    cbn [from_pos to_pos fst snd]. split_and!; try done. eauto. }
  destruct (red_first_move_done g && red_double_move_active g) eqn:Hsecond;
    cbn [andb].
  - case_bool_decide as Hsame; [done|]. try apply dec_stable in Hsame.
    rewrite Hvalid. case_bool_decide as Hin; [done|]. try apply dec_stable in Hin.
    destruct Hnot; done.
  - rewrite Hvalid. case_bool_decide as Hin; [done|]. try apply dec_stable in Hin.
    destruct Hnot; done.
Qed.

(** X25.  The only exception of [make_move].  In a game in progress with a
    well-formed board, for a player who is allowed to move, the call raises
    exactly when the source of the move is not a pair of indices that Python
    accepts for the board (a row from -10 to 9 and a column from -9 to 8); it
    then raises [IndexError] and leaves the game as it was.  For any other
    source it returns an answer, whatever the destination: a destination off
    the board is answered as an illegal move. *)
Theorem make_move_raises g move player_id :
  wf_board (board g) → status g = PLAYING → not_your_turn g player_id = false →
  (indexable (from_pos move) →
   ∃ reply g', make_move_game g move player_id = (Ok reply, g'))
  ∧ (¬ indexable (from_pos move) →
     make_move_game g move player_id = (Err IndexError, g))
  ∧ (indexable (from_pos move) → ¬ on_board (to_pos move) →
     ∃ e, make_move_game g move player_id = (Ok (Failure e), g)).
Proof.
  intros Hwf Hst Hturn. split_and!.
  - by apply make_move_game_indexable.
  - intros Hout. unfold make_move_game. rewrite bool_decide_false by (by intros []).
    rewrite Hturn. destruct move as [[from_row from_col] to]. cbn [from_pos] in *.
    destruct (board_get (board g) from_row from_col) as [cell|e] eqn:Hcell.
    + destruct Hout. apply board_get_Ok in Hcell as (? & ? & _); done.
    + by rewrite (board_get_Err _ _ _ _ Hcell).
  - intros Hin Hoff.
    destruct (make_move_game_indexable g move player_id Hwf Hin) as (reply & g' & Hmove).
    destruct reply as [r|e].
    + destruct (make_move_game_Success g move player_id r g' Hwf Hmove)
        as (piece & cp & b & _ & _ & _ & Hon & _). done.
    + exists e. rewrite Hmove. f_equal.
      destruct (make_move_game_cases g move player_id)
        as [(e' & He & _)|[(e' & He & _)|(piece & Hacc & _)]].
      * congruence.
      * congruence.
      * destruct (make_move_game_accepted_Success g move player_id piece Hwf Hacc)
          as (cp & b & r & g'' & He & _). congruence.
Qed.

Lemma make_move_raises_witness :
  (indexable (from_pos (mkMove (10, 0) (9, 0))) →
   ∃ reply g', make_move_game new_local_game (mkMove (10, 0) (9, 0)) None
               = (Ok reply, g'))
  ∧ (¬ indexable (from_pos (mkMove (10, 0) (9, 0))) →
     make_move_game new_local_game (mkMove (10, 0) (9, 0)) None
     = (Err IndexError, new_local_game))
  ∧ (indexable (from_pos (mkMove (10, 0) (9, 0))) →
     ¬ on_board (to_pos (mkMove (10, 0) (9, 0))) →
     ∃ e, make_move_game new_local_game (mkMove (10, 0) (9, 0)) None
          = (Ok (Failure e), new_local_game)).
Proof.
  apply (make_move_raises new_local_game (mkMove (10, 0) (9, 0)) None).
  - split; [reflexivity|]. vm_compute. repeat constructor.
  - reflexivity.
  - reflexivity.
Defined.

(** A source given with negative indices names the cell counted from the
    end, and the rules then measure the move from the indices as given: on
    the first move of a game, Red's Support piece of (9, 3), named (-1, 3),
    takes Blue's General on (0, 4), and Red has won. *)
Example negative_source_move :
  let out := make_move_game new_local_game (mkMove (-1, 3) (0, 4)) None in
  out.1 = Ok (Success (mkMoveResult (Some (mkPiece GENERAL BLUE)) RED_WIN false false))
  ∧ status out.2 = RED_WIN
  ∧ board_get (board out.2) 0 4 = Ok (Some (mkPiece SUPPORT RED))
  ∧ board_get (board out.2) 9 3 = Ok None.
Proof. by vm_compute. Qed.

(** ** Piece.to_dict and Piece.from_dict *)

(** X26.  [Piece.from_dict] undoes [Piece.to_dict]; it accepts exactly the
    dictionaries whose entry "type" is the value of a piece type and whose
    entry "team" is the value of a team, whatever else they hold, and returns
    the piece of that type and team; it raises [KeyError] for the first of
    the two keys that is missing. *)
Theorem Piece_dict_round_trip :
  (∀ p, Piece_from_dict (Piece_to_dict p) = inr p)
  ∧ (∀ data p,
       Piece_from_dict data = inr p ↔
       data !! "type" = Some (JStr (PieceType_value (piece_type p)))
       ∧ data !! "team" = Some (JStr (Team_value (team p))))
  ∧ (∀ data, data !! "type" = None → Piece_from_dict data = inl (KeyError "type"))
  ∧ (∀ data t,
       data !! "type" = Some (JStr (PieceType_value t)) → data !! "team" = None →
       Piece_from_dict data = inl (KeyError "team")).
Proof.
  assert (∀ data p,
            Piece_from_dict data = inr p ↔
            data !! "type" = Some (JStr (PieceType_value (piece_type p)))
            ∧ data !! "team" = Some (JStr (Team_value (team p)))) as Hiff.
  { intros data p. unfold Piece_from_dict, dict_getitem. split.
    - destruct (data !! "type") as [[| | |s|]|]; try done.
      unfold PieceType_of_value.
      repeat (case_bool_decide; [subst s|]); try done.
      all: destruct (data !! "team") as [[| | |s'|]|]; try done.
      all: unfold Team_of_value.
      all: repeat (case_bool_decide; [subst s'|]); try done.
      all: by intros [= <-].
    - intros [-> ->]. by destruct p as [[] []]. }
  split_and!; [|done| |].
  - intros p. apply Hiff. unfold Piece_to_dict.
    rewrite lookup_insert_ne, !lookup_insert_eq by done. done.
  - intros data Htype. unfold Piece_from_dict, dict_getitem. by rewrite Htype.
  - intros data t Htype Hteam. unfold Piece_from_dict, dict_getitem.
    rewrite Htype, Hteam. by destruct t.
Qed.

(** ** The connections *)

Section connections.
Context {WebSocket : Type}.
Implicit Types cm : ConnectionManager.t WebSocket.

Lemma connect_lookup cm ws game_id player_id game_id' :
  ConnectionManager.active_connections
    (ConnectionManager.connect cm ws game_id player_id) !! game_id'
  = if bool_decide (game_id' = game_id)
    then Some (<[player_id := ws]>
                 (default ∅ (ConnectionManager.active_connections cm !! game_id)))
    else ConnectionManager.active_connections cm !! game_id'.
Proof using Type.
  unfold ConnectionManager.connect. cbn.
  case_bool_decide as Hid.
  - subst game_id'.
    destruct (ConnectionManager.active_connections cm !! game_id) as [players|] eqn:Hg.
    + by rewrite lookup_alter_eq, Hg.
    + by rewrite lookup_alter_eq, lookup_insert_eq.
  - rewrite lookup_alter_ne by done.
    destruct (ConnectionManager.active_connections cm !! game_id); [done|].
    by rewrite lookup_insert_ne.
Qed.

Lemma disconnect_lookup cm game_id player_id game_id' :
  ConnectionManager.active_connections
    (ConnectionManager.disconnect cm game_id player_id) !! game_id'
  = if bool_decide (game_id' = game_id)
    then players ← ConnectionManager.active_connections cm !! game_id;
         if bool_decide (delete player_id players = ∅) then None
         else Some (delete player_id players)
    else ConnectionManager.active_connections cm !! game_id'.
Proof using Type.
  unfold ConnectionManager.disconnect.
  destruct (ConnectionManager.active_connections cm !! game_id) as [players|] eqn:Hg.
  2:{ case_bool_decide; [by subst; rewrite Hg|done]. }
  assert (match players !! player_id with
          | Some _ => delete player_id players
          | None => players
          end = delete player_id players) as ->.
  { destruct (players !! player_id) eqn:Hp; [done|]. by rewrite delete_id. }
  cbn [mbind option_bind].
  destruct (bool_decide (delete player_id players = ∅)); cbn.
  - case_bool_decide as Hid.
    + subst. by rewrite lookup_delete_eq.
    + rewrite lookup_delete_ne, lookup_insert_ne by done. done.
  - case_bool_decide as Hid.
    + subst. by rewrite lookup_insert_eq.
    + by rewrite lookup_insert_ne.
Qed.

(** No game is kept without a connection. *)
Lemma connections_reachable_nonempty cm game_id players :
  connections_reachable cm →
  ConnectionManager.active_connections cm !! game_id = Some players → players ≠ ∅.
Proof using Type.
  intros Hcm. revert game_id players.
  induction Hcm as [|cm op _ IH]; intros game_id players.
  { unfold ConnectionManager.init. cbn. by rewrite lookup_empty. }
  destruct op as [ws game_id' player_id|game_id' player_id]; cbn [run_connection_op].
  - rewrite connect_lookup. case_bool_decide; [|apply IH].
    intros [= <-]. apply insert_non_empty.
  - rewrite disconnect_lookup. case_bool_decide; [|apply IH].
    destruct (ConnectionManager.active_connections cm !! game_id') as [players'|];
      cbn; [|done].
    case_bool_decide; [done|]. by intros [= <-].
Qed.

(** X27.  The registry of WebSocket connections under any sequence of
    connects and disconnects, starting empty: after a connect the player is
    sent to on the connected socket and is among those a broadcast to the
    game reaches; after a disconnect the player is no longer sent to nor
    reached; neither request changes what is sent to any other player or
    game; no game is kept without a connection; and disconnecting a player
    right after connecting them, when they were not connected before, puts
    the registry back as it was. *)
Theorem connection_registry_spec cm ws game_id player_id :
  connections_reachable cm →
  let connected := ConnectionManager.connect cm ws game_id player_id in
  let disconnected := ConnectionManager.disconnect cm game_id player_id in
  ConnectionManager.send_to_player connected game_id player_id = Some ws
  ∧ ConnectionManager.broadcast_to_game connected game_id
    = <[player_id := ws]> (ConnectionManager.broadcast_to_game cm game_id)
  ∧ ConnectionManager.send_to_player disconnected game_id player_id = None
  ∧ ConnectionManager.broadcast_to_game disconnected game_id
    = delete player_id (ConnectionManager.broadcast_to_game cm game_id)
  ∧ (∀ game_id' player_id', (game_id', player_id') ≠ (game_id, player_id) →
       ConnectionManager.send_to_player connected game_id' player_id'
       = ConnectionManager.send_to_player cm game_id' player_id'
       ∧ ConnectionManager.send_to_player disconnected game_id' player_id'
         = ConnectionManager.send_to_player cm game_id' player_id')
  ∧ (∀ game_id' players,
       ConnectionManager.active_connections cm !! game_id' = Some players →
       players ≠ ∅)
  ∧ (ConnectionManager.send_to_player cm game_id player_id = None →
     ConnectionManager.disconnect connected game_id player_id = cm).
Proof using Type.
  intros Hcm. cbn zeta.
  unfold ConnectionManager.send_to_player, ConnectionManager.broadcast_to_game.
  pose proof (λ g p, connections_reachable_nonempty cm g p Hcm) as Hnonempty.
  split_and!.
  - rewrite connect_lookup, bool_decide_true by done. apply lookup_insert_eq.
  - rewrite connect_lookup, bool_decide_true by done.
    by destruct (ConnectionManager.active_connections cm !! game_id).
  - rewrite disconnect_lookup, bool_decide_true by done.
    destruct (ConnectionManager.active_connections cm !! game_id) as [players|];
      cbn; [|done].
    case_bool_decide; [done|]. apply lookup_delete_eq.
  - rewrite disconnect_lookup, bool_decide_true by done.
    destruct (ConnectionManager.active_connections cm !! game_id) as [players|];
      cbn; [|by rewrite delete_empty].
    by case_bool_decide.
  - intros game_id' player_id' Hne.
    rewrite connect_lookup, disconnect_lookup.
    case_bool_decide as Hid; [|done]. subst game_id'.
    assert (player_id' ≠ player_id) as Hp by congruence.
    destruct (ConnectionManager.active_connections cm !! game_id) as [players|] eqn:Hg;
      cbn.
    + split; [by rewrite lookup_insert_ne|].
      case_bool_decide as Hempty; [|by rewrite lookup_delete_ne].
      assert (delete player_id players !! player_id' = None) as Hnone
        by (by rewrite Hempty, lookup_empty).
      by rewrite lookup_delete_ne in Hnone.
    + split; [|done]. rewrite lookup_insert_ne by done. apply lookup_empty.
  - done.
  - intros Hnew. destruct cm as [active]. cbn in *.
    unfold ConnectionManager.disconnect. f_equal.
    pose proof (connect_lookup (ConnectionManager.mk active) ws game_id player_id game_id)
      as Hlookup.
    rewrite bool_decide_true in Hlookup by done. rewrite Hlookup. cbn.
    rewrite lookup_insert_eq, delete_insert_eq.
    unfold ConnectionManager.connect. cbn.
    destruct (active !! game_id) as [players|] eqn:Hg; cbn in *.
    + rewrite delete_id by done.
      rewrite bool_decide_false by (by eapply Hnonempty).
      f_equal. rewrite insert_alter_eq. by apply insert_id.
    + rewrite delete_empty, bool_decide_true by done.
      f_equal. rewrite delete_insert_eq, delete_alter_eq, delete_insert_eq.
      by apply delete_id.
Qed.

End connections.

Lemma connection_registry_spec_witness :
  let cm : ConnectionManager.t nat :=
    ConnectionManager.connect ConnectionManager.init 1%nat "0a1b2c3d" "alice" in
  let connected := ConnectionManager.connect cm 2%nat "0a1b2c3d" "bob" in
  let disconnected := ConnectionManager.disconnect cm "0a1b2c3d" "bob" in
  ConnectionManager.send_to_player connected "0a1b2c3d" "bob" = Some 2%nat
  ∧ ConnectionManager.broadcast_to_game connected "0a1b2c3d"
    = <["bob" := 2%nat]> (ConnectionManager.broadcast_to_game cm "0a1b2c3d")
  ∧ ConnectionManager.send_to_player disconnected "0a1b2c3d" "bob" = None
  ∧ ConnectionManager.broadcast_to_game disconnected "0a1b2c3d"
    = delete "bob" (ConnectionManager.broadcast_to_game cm "0a1b2c3d")
  ∧ (∀ game_id' player_id', (game_id', player_id') ≠ ("0a1b2c3d", "bob") →
       ConnectionManager.send_to_player connected game_id' player_id'
       = ConnectionManager.send_to_player cm game_id' player_id'
       ∧ ConnectionManager.send_to_player disconnected game_id' player_id'
         = ConnectionManager.send_to_player cm game_id' player_id')
  ∧ (∀ game_id' players,
       ConnectionManager.active_connections cm !! game_id' = Some players →
       players ≠ ∅)
  ∧ (ConnectionManager.send_to_player cm "0a1b2c3d" "bob" = None →
     ConnectionManager.disconnect connected "0a1b2c3d" "bob" = cm).
Proof.
  apply (connection_registry_spec
           (ConnectionManager.connect ConnectionManager.init 1%nat "0a1b2c3d" "alice")
           2%nat "0a1b2c3d" "bob").
  apply (connections_reachable_op _ (CConnect 1%nat "0a1b2c3d" "alice")).
  constructor.
Defined.
